(** * metermeter: the meeting-cost calculator of [meter.go]

    A shallow embedding of package [meter] and its verification against the
    natural-language specification.

    - [float64] values are Rocq's primitive binary64 floats ([PrimFloat.float]),
      whose operations are specified by [SpecFloat] through [FloatAxioms];
    - [time.Duration] is an [int64] count of nanoseconds, embedded as [Z];
    - the [io.Writer] of a meeting is the log of the [Write] calls it received;
    - the [io.Reader] of a meeting is the text it still has to deliver;
    - a [bufio.Scanner] has its buffer of [MaxScanTokenSize] bytes; what it
      has taken from its reader beyond the tokens it delivered is a
      parameter, [unread];
    - [fmt.Fscan] reads runes up to the white space after a token, and
      loses that rune where the reader cannot take it back;
    - [go] statements, the loop on [Finished] and [os.Exit] are recorded as
      the driver's control events; the goroutines are functions of what
      they receive. *)

From Stdlib Require Import ZArith List Bool Lia String Ascii.
From Stdlib Require Import Floats Uint63 DecimalString DecimalPos DecimalN.
Import ListNotations.

Local Open Scope string_scope.
Local Open Scope Z_scope.

(** ** [time.Duration] *)

Module time.

(** [type Duration int64]: nanoseconds. *)
Definition Duration := Z.

Definition min_int64 : Z := - 2 ^ 63.
Definition max_int64 : Z := 2 ^ 63 - 1.

Definition in_int64 (z : Z) : Prop := min_int64 <= z <= max_int64.
Arguments in_int64 z%_Z.

(** Two's-complement wrap-around of [int64] arithmetic. *)
Definition wrap64 (z : Z) : Z := (z + 2 ^ 63) mod 2 ^ 64 - 2 ^ 63.
Arguments wrap64 z%_Z.

Definition Nanosecond : Duration := 1.
Definition Microsecond : Duration := 1000 * Nanosecond.
Definition Millisecond : Duration := 1000 * Microsecond.
Definition Second : Duration := 1000 * Millisecond.
Definition Minute : Duration := 60 * Second.
Definition Hour : Duration := 60 * Minute.

(** [d * k] on [Duration], as Go computes it. *)
Definition mul (k : Z) (d : Duration) : Duration := wrap64 (k * d).
Arguments mul k%_Z d%_Z.

(** [float64(i)] for an [int64] [i] above the least one: the nearest
    binary64. *)
Definition float64_of_int (i : Z) : float :=
  if i <? 0 then (- of_uint63 (Uint63.of_Z (- i)))%float
  else of_uint63 (Uint63.of_Z i).
Arguments float64_of_int i%_Z.

(** [func (d Duration) Seconds() float64]:
    [sec := d / Second; nsec := d % Second;
     return float64(sec) + float64(nsec)/1e9].
    Go's [/] and [%] on integers truncate toward zero. *)
Definition Seconds (d : Duration) : float :=
  let sec := Z.quot d Second in
  let nsec := Z.rem d Second in
  (float64_of_int sec + float64_of_int nsec / 1e9)%float.
Arguments Seconds d%_Z.

End time.

(** ** The cost function *)

(** [func Cost(hourlyRate float64, duration time.Duration) float64] *)
Definition Cost (hourlyRate : float) (duration : time.Duration) : float :=
  let durationSec := time.Seconds duration in
  let ratePerSecond := (hourlyRate / 60 / 60)%float in
  (ratePerSecond * durationSec)%float.

Arguments Cost hourlyRate%_float duration%_Z.

(** The formula of the specification, [hourlyRate / 3600 * duration.seconds],
    read in binary64 arithmetic. *)
Definition cost_formula (hourlyRate : float) (duration : time.Duration) : float :=
  (hourlyRate / 3600 * time.Seconds duration)%float.
Arguments cost_formula hourlyRate%_float duration%_Z.

(** ** Text and the standard-library collaborators *)

Definition LF : string := String (ascii_of_nat 10) EmptyString.
Definition CR : string := String (ascii_of_nat 13) EmptyString.

(** An [io.Reader] is the text it has not delivered yet; an [io.Writer] is
    the sequence of [Write] calls it has received, oldest first.  Every
    [fmt.Fprint*] call issues exactly one [Write]. *)
Definition Reader := string.
Definition Writer := list string.

(** The bytes a writer holds, as a byte buffer would show them. *)
Definition written (w : Writer) : string := String.concat EmptyString w.

Module fmt.

(** [fmt.Fprint(w, s)] and [fmt.Fprintf(w, s)] for a format without verbs. *)
Definition Fprint (w : Writer) (s : string) : Writer := (w ++ [s])%list.

(** [fmt.Fprintln(w, s)]. *)
Definition Fprintln (w : Writer) (s : string) : Writer := (w ++ [(s ++ LF)%string])%list.

Definition digits_of (n : Z) : string :=
  NilZero.string_of_uint (N.to_uint (Z.to_N n)).

(** The two decimals of [c], [0 <= c < 100]. *)
Definition two_digits (c : Z) : string :=
  digits_of (c / 10) ++ digits_of (c mod 10).

(** The integer nearest to [num / den] ([den > 0]), ties to even: the
    rounding [strconv] applies to the exact decimal expansion. *)
Definition round_half_even (num den : Z) : Z :=
  let q := num / den in
  let rem := num mod den in
  match 2 * rem ?= den with
  | Lt => q
  | Gt => q + 1
  | Eq => if Z.even q then q else q + 1
  end.

(** Hundredths of the magnitude [m * 2^e], rounded. *)
Definition hundredths (m : positive) (e : Z) : Z :=
  if 0 <=? e then Z.pos m * 2 ^ e * 100
  else round_half_even (Z.pos m * 100) (2 ^ (- e)).

Definition sign_text (s : bool) : string := if s then "-" else EmptyString.

(** The verb [%.2f] applied to a [float64]: sign, integer part, a point and
    two decimals; [NaN], [+Inf] and [-Inf] for the values that are no
    number. *)
Definition f2 (x : float) : string :=
  match Prim2SF x with
  | S754_nan => "NaN"
  | S754_infinity false => "+Inf"
  | S754_infinity true => "-Inf"
  | S754_zero s => sign_text s ++ "0.00"
  | S754_finite s m e =>
      let h := hundredths m e in
      sign_text s ++ digits_of (h / 100) ++ "." ++ two_digits (h mod 100)
  end.

End fmt.

Module strconv.

(** The two causes a [*NumError] of [ParseFloat] can carry. *)
Inductive error := ErrSyntax | ErrRange.

Definition code (c : ascii) : Z := Z.of_N (N_of_ascii c).

Definition is_digit (c : ascii) : bool := (48 <=? code c) && (code c <=? 57).

(** [lower(c) = c | ('x' - 'X')]. *)
Definition lower (c : ascii) : Z := Z.lor (code c) 32.

Definition is_hex_letter (c : ascii) : bool := (97 <=? lower c) && (lower c <=? 102).

Definition is_char (c : ascii) (k : string) : bool :=
  match k with
  | String k0 EmptyString => code c =? code k0
  | _ => false
  end.

(** [commonPrefixLenIgnoreCase(s, prefix)], [prefix] in lower case. *)
Fixpoint commonPrefixLenIgnoreCase (s prefix : list ascii) : Z :=
  match s, prefix with
  | c :: s', p :: prefix' =>
      let c' := if (65 <=? code c) && (code c <=? 90) then code c + 32 else code c in
      if c' =? code p then 1 + commonPrefixLenIgnoreCase s' prefix' else 0
  | _, _ => 0
  end.

Definition infinity_or_none (neg : bool) (nsign : Z) (s : list ascii) : option (float * Z) :=
  let n := commonPrefixLenIgnoreCase s (list_ascii_of_string "infinity") in
  let n := if (3 <? n) && (n <? 8) then 3 else n in
  if (n =? 3) || (n =? 8)
  then Some (if neg then neg_infinity else infinity, nsign + n)
  else None.

(** [special]: the prefix of [s] that spells an infinity or a NaN, with its
    length. *)
Definition special (s : list ascii) : option (float * Z) :=
  match s with
  | [] => None
  | c :: s' =>
      if is_char c "+" then infinity_or_none false 1 s'
      else if is_char c "-" then infinity_or_none true 1 s'
      else if is_char c "i" || is_char c "I" then infinity_or_none false 0 s
      else if is_char c "n" || is_char c "N" then
        if commonPrefixLenIgnoreCase s (list_ascii_of_string "nan") =? 3
        then Some (nan, 3) else None
      else None
  end.

(** What [readFloat] has gathered from the mantissa: the value [mant] of
    the [nd] digits counted so far, and the position [dp] of the point. *)
Record mantissa := {
  mant : Z;
  nd : Z;
  dp : Z;
  sawdot : bool;
  sawdigits : bool;
  underscores : bool
}.

(** The mantissa loop of [readFloat] in base [base]; it stops at the first
    character that is no part of a mantissa and returns the text from
    there. *)
Fixpoint read_mantissa (base : Z) (s : list ascii) (a : mantissa) : mantissa * list ascii :=
  match s with
  | [] => (a, [])
  | c :: s' =>
      if is_char c "_" then
        read_mantissa base s'
          {| mant := mant a; nd := nd a; dp := dp a; sawdot := sawdot a;
             sawdigits := sawdigits a; underscores := true |}
      else if is_char c "." then
        if sawdot a then (a, s)
        else read_mantissa base s'
          {| mant := mant a; nd := nd a; dp := nd a; sawdot := true;
             sawdigits := sawdigits a; underscores := underscores a |}
      else if is_digit c then
        if (code c =? 48) && (nd a =? 0) then
          read_mantissa base s'
            {| mant := mant a; nd := nd a; dp := dp a - 1; sawdot := sawdot a;
               sawdigits := true; underscores := underscores a |}
        else
          read_mantissa base s'
            {| mant := mant a * base + (code c - 48); nd := nd a + 1; dp := dp a;
               sawdot := sawdot a; sawdigits := true; underscores := underscores a |}
      else if (base =? 16) && is_hex_letter c then
        read_mantissa base s'
          {| mant := mant a * 16 + (lower c - 97 + 10); nd := nd a + 1; dp := dp a;
             sawdot := sawdot a; sawdigits := true; underscores := underscores a |}
      else (a, s)
  end.

(** The digits of an exponent, underscores skipped; the value stops growing
    once it has reached 10000. *)
Fixpoint read_exponent (s : list ascii) (e : Z) (us : bool) : Z * bool * list ascii :=
  match s with
  | c :: s' =>
      if is_char c "_" then read_exponent s' e true
      else if is_digit c then
        read_exponent s' (if e <? 10000 then e * 10 + (code c - 48) else e) us
      else (e, us, s)
  | [] => (e, us, [])
  end.

(** [underscoreOK]: an underscore stands only between digits, or between a
    base prefix and a digit.  [saw] is the kind of the previous character:
    [0] the start, [1] a digit or base prefix, [2] an underscore, [3] any
    other. *)
Fixpoint underscore_scan (hex : bool) (saw : Z) (s : list ascii) : bool :=
  match s with
  | [] => negb (saw =? 2)
  | c :: s' =>
      if is_digit c || (hex && is_hex_letter c) then underscore_scan hex 1 s'
      else if is_char c "_" then
        if saw =? 1 then underscore_scan hex 2 s' else false
      else if saw =? 2 then false
      else underscore_scan hex 3 s'
  end.

Definition underscoreOK (s : list ascii) : bool :=
  let s := match s with
           | c :: s' => if is_char c "-" || is_char c "+" then s' else s
           | [] => s
           end in
  match s with
  | c0 :: c1 :: s' =>
      if (code c0 =? 48) && ((lower c1 =? 98) || (lower c1 =? 111) || (lower c1 =? 120))
      then underscore_scan (lower c1 =? 120) 1 s'
      else underscore_scan false 0 s
  | _ => underscore_scan false 0 s
  end.

(** The binary64 nearest to [num / den], ties to even, with the sign
    [neg]: one correctly rounded division of the exact integers. *)
Definition nearest (neg : bool) (num den : Z) : spec_float :=
  match num, den with
  | Z.pos n, Z.pos d => SFdiv prec emax (S754_finite neg n 0) (S754_finite false d 0)
  | _, _ => S754_zero neg
  end.

(** The value [m * base^k] as a [float64], and whether it overflowed. *)
Definition scaled (neg : bool) (m base k : Z) : float * option error :=
  let v := if 0 <=? k then nearest neg (m * base ^ k) 1
           else nearest neg m (base ^ (- k)) in
  match v with
  | S754_infinity _ => (SF2Prim v, Some ErrRange)
  | _ => (SF2Prim v, None)
  end.

(** [readFloat] followed by the conversion of [atof64]: [None] where
    [readFloat] does not accept a prefix of [s], else the value and the rest
    of the text. *)
Definition read_float (s : list ascii) : option (float * option error * list ascii) :=
  match s with
  | [] => None
  | c :: s0 =>
      let neg := is_char c "-" in
      let s1 := if is_char c "+" || is_char c "-" then s0 else s in
      let hex := match s1 with
                 | c0 :: c1 :: _ :: _ => (code c0 =? 48) && (lower c1 =? 120)
                 | _ => false
                 end in
      let base := if hex then 16 else 10 in
      let s2 := if hex then skipn 2 s1 else s1 in
      let '(a, s3) :=
        read_mantissa base s2
          {| mant := 0; nd := 0; dp := 0; sawdot := false;
             sawdigits := false; underscores := false |} in
      if negb (sawdigits a) then None
      else
        let dp0 := if sawdot a then dp a else nd a in
        let dp1 := if hex then dp0 * 4 else dp0 in
        let nd1 := if hex then nd a * 4 else nd a in
        let finish (dp2 : Z) (us : bool) (rest : list ascii) :=
          if us && negb (underscoreOK (firstn (List.length s - List.length rest)%nat s)) then None
          else Some (scaled neg (mant a) (if hex then 2 else 10) (dp2 - nd1), rest) in
        match s3 with
        | x :: s4 =>
            if lower x =? (if hex then 112 else 101) then
              match s4 with
              | [] => None
              | y :: s5 =>
                  let esign := if is_char y "-" then -1 else 1 in
                  let s6 := if is_char y "+" || is_char y "-" then s5 else s4 in
                  match s6 with
                  | d :: _ =>
                      if is_digit d then
                        let '(e, us, rest) := read_exponent s6 0 (underscores a) in
                        finish (dp1 + e * esign) us rest
                      else None
                  | [] => None
                  end
              end
            else if hex then None
            else finish dp1 (underscores a) s3
        | [] => if hex then None else finish dp1 (underscores a) s3
        end
  end.

(** [strconv.ParseFloat(s, 64)]: the nearest [float64] to the number [s]
    spells.  The whole of [s] has to be a number, an infinity or a NaN:
    otherwise the result is [0] with [ErrSyntax]; a number too large gives
    an infinity with [ErrRange]. *)
Definition ParseFloat (s : string) : float * option error :=
  let cs := list_ascii_of_string s in
  match special cs with
  | Some (v, n) => if n =? Z.of_nat (List.length cs) then (v, None) else (0%float, Some ErrSyntax)
  | None =>
      match read_float cs with
      | Some (v, err, []) => (v, err)
      | _ => (0%float, Some ErrSyntax)
      end
  end.

End strconv.

Module bufio.

(** [MaxScanTokenSize = 64 * 1024]: the size to which the buffer of a
    scanner grows.  A line is delivered when it fits the buffer: fewer than
    [MaxScanTokenSize] bytes before its line feed, or before the end of the
    input. *)
Definition MaxScanTokenSize : Z := 65536.

(** [dropCR]: a token loses one trailing carriage return. *)
Fixpoint dropCR (data : string) : string :=
  match data with
  | EmptyString => EmptyString
  | String c EmptyString => if strconv.code c =? 13 then EmptyString else data
  | String c data' => String c (dropCR data')
  end.

(** [ScanLines] over the text ahead, as the buffer fills: the bytes before
    the first line feed ([acc], [taken] bytes, with those found so far) and
    the text after it, or, when [MaxScanTokenSize] bytes come without a
    line feed, those bytes, which fill the buffer. *)
Fixpoint scan_line (taken : Z) (acc data : string) : string * string + string :=
  match data with
  | EmptyString => inl (acc, EmptyString)
  | String c data' =>
      if strconv.code c =? 10 then inl (acc, data')
      else if MaxScanTokenSize <=? taken + 1 then inr (acc ++ String c EmptyString)
      else scan_line (taken + 1) (acc ++ String c EmptyString) data'
  end.

(** A [*bufio.Scanner] with the default split function [ScanLines]: the
    text it has not tokenised yet (once it has failed: the bytes its full
    buffer holds), its last token, and whether it has failed with
    [ErrTooLong].  The reader is taken to fail with the end of input
    only. *)
Record Scanner := { buf : string; token : string; failed : bool }.

Definition NewScanner (r : Reader) : Scanner :=
  {| buf := r; token := EmptyString; failed := false |}.

(** [Scan]: advance to the next line.  It returns [false], with the token
    left empty, at the end of the input and when the line does not fit the
    buffer ([ErrTooLong]); after that failure the next [Scan] delivers the
    bytes of the buffer as a last token, and the input beyond them is never
    read. *)
Definition Scan (s : Scanner) : bool * Scanner :=
  match buf s with
  | EmptyString => (false, {| buf := EmptyString; token := EmptyString; failed := failed s |})
  | data =>
      if failed s then
        (true, {| buf := EmptyString; token := dropCR data; failed := true |})
      else
        match scan_line 0 EmptyString data with
        | inl (t, rest) => (true, {| buf := rest; token := dropCR t; failed := false |})
        | inr chunk => (false, {| buf := chunk; token := EmptyString; failed := true |})
        end
  end.

Definition Text (s : Scanner) : string := token s.

(** What [Text] gives after each [Scan] of [data], in order, as long as
    the scanner holds text: the lines of [data]; at a line that does not
    fit the buffer, the empty token of the [Scan] that fails and the bytes
    of the buffer, nothing after them. *)
Fixpoint lines_from (taken : Z) (acc data : string) : list string :=
  match data with
  | EmptyString => match acc with EmptyString => [] | _ => [dropCR acc] end
  | String c data' =>
      if strconv.code c =? 10 then dropCR acc :: lines_from 0 EmptyString data'
      else if MaxScanTokenSize <=? taken + 1 then
        [EmptyString; dropCR (acc ++ String c EmptyString)]
      else lines_from (taken + 1) (acc ++ String c EmptyString) data'
  end.

Definition Lines (r : Reader) : list string := lines_from 0 EmptyString r.

(** The same for a scanner at work. *)
Definition Texts (s : Scanner) : list string :=
  if failed s then
    match buf s with
    | EmptyString => []
    | data => [dropCR data]
    end
  else Lines (buf s).

End bufio.

(** ** Control flow of the loops *)

(** How one pass through the body of a [for] loop ends. *)
Inductive flow (S : Type) : Type :=
| Continue (s : S)
| Break (s : S).
Arguments Continue {S} s.
Arguments Break {S} s.

(** [for { body }] with [fuel] passes at most: the state at the [break], or
    [None] where the loop is still running. *)
Fixpoint loop {S : Type} (body : S -> flow S) (fuel : nat) (s : S) : option S :=
  match fuel with
  | O => None
  | Datatypes.S fuel' =>
      match body s with
      | Break s' => Some s'
      | Continue s' => loop body fuel' s'
      end
  end.

(** The loop after [n] passes: [Continue] with its state where it is still
    running, [Break] where it left before. *)
Fixpoint passes {S : Type} (body : S -> flow S) (n : nat) (s : S) : flow S :=
  match n with
  | O => Continue s
  | Datatypes.S n' =>
      match body s with
      | Break s' => Break s'
      | Continue s' => passes body n' s'
      end
  end.

(** ** The meeting *)

Record Flags := {
  HourlyRate : float;
  MeetingDuration : time.Duration;
  Ticks : time.Duration
}.

Record Meeting := {
  r : Reader;
  w : Writer;
  f : Flags;
  Finished : bool
}.

Definition with_w (m : Meeting) (w' : Writer) : Meeting :=
  {| r := r m; w := w'; f := f m; Finished := Finished m |}.

Definition with_r (m : Meeting) (r' : Reader) : Meeting :=
  {| r := r'; w := w m; f := f m; Finished := Finished m |}.

Definition with_HourlyRate (m : Meeting) (rate : float) : Meeting :=
  {| r := r m; w := w m;
     f := {| HourlyRate := rate;
             MeetingDuration := MeetingDuration (f m);
             Ticks := Ticks (f m) |};
     Finished := Finished m |}.

(** ** The rate collector *)

Definition prompt_intro : string :=
  "Please enter the hourly rates of all participants, one at a time. ie. 150 OR 1000.50" ++ LF.
Definition prompt_next : string :=
  "Please enter the hourly rates of the next participant" ++ LF.
Definition prompt_quit : string :=
  "If all meeting participants accounted for, type Q and enter to move on." ++ LF.

(** [Sprintf("Sorry, didn't understand %s. Please try again.\n", line)] *)
Definition prompt_retry (line : string) : string :=
  "Sorry, didn't understand " ++ line ++ ". Please try again." ++ LF.

(** [line == "q" || line == "Q"] *)
Definition is_sentinel (line : string) : bool :=
  String.eqb line "q" || String.eqb line "Q".

(** The local variables of [GetRate] that live across iterations. *)
Record collecting := {
  scanner : bufio.Scanner;
  out : Writer;
  rate : float
}.

Section RateCollector.

(** [strconv.ParseFloat(line, 64)], the parser [GetRate] calls. *)
Variable ParseFloat : string -> float * option strconv.error.

(** What the reader still holds when the scanner is in a given state.  A
    scanner reads ahead of its tokens, as far as the reader answers its
    [Read] calls: the text left in the reader is the reader's business. *)
Variable unread : bufio.Scanner -> Reader.

(** One pass through the body of the [for] loop of [GetRate]. *)
Definition GetRate_body (st : collecting) : flow collecting :=
  let out1 := fmt.Fprint (out st) prompt_next in
  let out2 := fmt.Fprint out1 prompt_quit in
  let scanner' := snd (bufio.Scan (scanner st)) in
  let line := bufio.Text scanner' in
  if is_sentinel line then
    Break {| scanner := scanner'; out := out2; rate := rate st |}
  else
    match ParseFloat line with
    | (_, Some _) =>
        Continue {| scanner := scanner';
                    out := fmt.Fprint out2 (prompt_retry line);
                    rate := rate st |}
    | (v, None) =>
        Continue {| scanner := scanner'; out := out2; rate := (rate st + v)%float |}
    end.

(** The state in which [GetRate] enters its loop. *)
Definition GetRate_init (m : Meeting) : collecting :=
  {| scanner := bufio.NewScanner (r m);
     out := fmt.Fprint (w m) prompt_intro;
     rate := 0%float |}.

(** [func (m *Meeting) GetRate() float64]: the rate returned and the
    meeting afterwards, or [None] where [fuel] passes do not reach the
    [break]. *)
Definition GetRate (fuel : nat) (m : Meeting) : option (float * Meeting) :=
  match loop GetRate_body fuel (GetRate_init m) with
  | Some st => Some (rate st, with_r (with_w m (out st)) (unread (scanner st)))
  | None => None
  end.

End RateCollector.

(** The retry prompts among the writes of a writer. *)
Definition is_retry_prompt (chunk : string) : bool :=
  String.prefix "Sorry, didn't understand " chunk.

Definition retry_prompts (w : Writer) : nat :=
  List.length (filter is_retry_prompt w).

(** ** The ticking session *)

(** The goroutines of a session, as the [go] statements of [Timer] start
    them:
    - [Timer2(m, done, ticker)] displays the running cost at each tick of
      [ticker] until [done] delivers;
    - [UserInputStrategy(m, done, ticker)] reads tokens until one is [q] or
      [Q], then sends on [done], stops the ticker and sets [Finished];
    - [FixedTimeStrategy(m, done, ticker)] sleeps for the meeting's
      duration, then does the same. *)
Inductive goroutine :=
| go_Timer2 (ticker : time.Duration)
| go_UserInputStrategy
| go_FixedTimeStrategy (sleep : time.Duration).

Definition is_strategy (g : goroutine) : bool :=
  match g with
  | go_Timer2 _ => false
  | go_UserInputStrategy | go_FixedTimeStrategy _ => true
  end.

(** [func (m *Meeting) Timer()]: the goroutines started, in order, or
    [None] where [time.NewTicker] panics (an interval that is not
    positive). *)
Definition Timer (m : Meeting) : option (list goroutine) :=
  if Ticks (f m) <=? 0 then None
  else
    Some (go_Timer2 (Ticks (f m)) ::
          (if MeetingDuration (f m) =? 0
           then [go_UserInputStrategy]
           else [go_FixedTimeStrategy (MeetingDuration (f m))])).

(** [fmt.Sprintf("\rThe total current cost of this meeting is $%.2f", cost)] *)
Definition running_cost (cost : float) : string :=
  CR ++ "The total current cost of this meeting is $" ++ fmt.f2 cost.

(** [func DisplayCost(cost float64, w io.Writer)] *)
Definition DisplayCost (cost : float) (w : Writer) : Writer :=
  let runningCost := running_cost cost in
  fmt.Fprint w runningCost.

(** ** The session driver *)

(** How far a call of [RunCLI] gets by itself: it returns, it exits, it
    panics, or it spins in the loop [for { if m.Finished { break } }], which
    it leaves only once a goroutine has set [Finished]. *)
Inductive ending :=
| Returns
| Exits (code : Z)
| Panics
| Spins.

(** What a call of [RunCLI] did up to there: the meeting it leaves, the
    goroutines it started, whether it waits for [Finished], and how it
    ended. *)
Record Run := {
  meeting : Meeting;
  started : list goroutine;
  awaited_Finished : bool;
  ended : ending
}.

Definition banner : string :=
  "Starting an interactive ticker, press Q and enter to end the meeting".

Section Driver.

Variable ParseFloat : string -> float * option strconv.error.
Variable unread : bufio.Scanner -> Reader.

(** [if m.f.HourlyRate == 0 { m.f.HourlyRate = m.GetRate() }] *)
Definition collect_rate (fuel : nat) (m : Meeting) : option Meeting :=
  if (HourlyRate (f m) =? 0)%float then
    match GetRate ParseFloat unread fuel m with
    | Some (rate, m') => Some (with_HourlyRate m' rate)
    | None => None
    end
  else Some m.

(** [func RunCLI(m *Meeting)], after the rate is settled.  In the
    interactive branch the goroutines write and read while [RunCLI] spins;
    what they do is theirs ([Timer2], [UserInputStrategy]), and what
    [RunCLI] does once it sees [Finished] is [after_Finished]. *)
Definition run_session (m : Meeting) : Run :=
  if MeetingDuration (f m) =? 0 then
    let m1 := with_w m (fmt.Fprintln (w m) banner) in
    match Timer m1 with
    | None =>
        {| meeting := m1; started := []; awaited_Finished := false; ended := Panics |}
    | Some gs =>
        {| meeting := m1; started := gs; awaited_Finished := true; ended := Spins |}
    end
  else if time.Second <? Ticks (f m) then
    match Timer m with
    | None =>
        {| meeting := m; started := []; awaited_Finished := false; ended := Panics |}
    | Some gs =>
        {| meeting := m; started := gs; awaited_Finished := false; ended := Exits 0 |}
    end
  else
    let cost := Cost (HourlyRate (f m)) (MeetingDuration (f m)) in
    let w1 := DisplayCost cost (w m) in
    {| meeting := with_w m (fmt.Fprintln w1 EmptyString);
       started := []; awaited_Finished := false; ended := Returns |}.

(** [func RunCLI(m *Meeting)]; [None] where the rate collector is still
    reading after [fuel] lines. *)
Definition RunCLI (fuel : nat) (m : Meeting) : option Run :=
  match collect_rate fuel m with
  | Some m' => Some (run_session m')
  | None => None
  end.

End Driver.

(** The end of the interactive branch of [RunCLI], from the meeting as the
    goroutines have left it when the loop sees [Finished]:
    [fmt.Fprintln(m.w)] and [os.Exit(0)]. *)
Definition after_Finished (m : Meeting) : Run :=
  {| meeting := with_w m (fmt.Fprintln (w m) EmptyString);
     started := []; awaited_Finished := true; ended := Exits 0 |}.

(** [NewMeeting(f, WithInput(r), WithOutput(w))] with a fresh writer. *)
Definition NewMeeting (flags : Flags) (input : Reader) : Meeting :=
  {| r := input; w := []; f := flags; Finished := false |}.

(** What the rate collector makes of its lines: the values of those that
    parse, their sum in reading order, and the writes of one pass. *)
Definition parsed_values (ParseFloat : string -> float * option strconv.error)
    (lines : list string) : list float :=
  flat_map (fun line => match ParseFloat line with
                        | (_, Some _) => []
                        | (v, None) => [v]
                        end) lines.

Definition sum_from (start : float) (values : list float) : float :=
  fold_left PrimFloat.add values start.

Definition fails_to_parse (ParseFloat : string -> float * option strconv.error)
    (line : string) : bool :=
  match ParseFloat line with
  | (_, Some _) => true
  | (_, None) => false
  end.

Definition writes_for_line (ParseFloat : string -> float * option strconv.error)
    (line : string) : list string :=
  ([prompt_next; prompt_quit] ++
   (if fails_to_parse ParseFloat line then [prompt_retry line] else []))%list.

Definition not_sentinel (line : string) : Prop := is_sentinel line = false.

(** The writes of [k] passes over an exhausted input. *)
Definition idle_writes (k : nat) : list string :=
  List.concat (repeat [prompt_next; prompt_quit; prompt_retry EmptyString] k).

(** A line of [n] bytes, and one that fills the buffer of a scanner. *)
Fixpoint filled (n : nat) : string :=
  match n with
  | O => EmptyString
  | Datatypes.S n' => String "x" (filled n')
  end.

Definition long_line : string := filled (Z.to_nat bufio.MaxScanTokenSize).

(** The last byte of a text. *)
Fixpoint last_char (s : string) : option ascii :=
  match s with
  | EmptyString => None
  | String c EmptyString => Some c
  | String _ s' => last_char s'
  end.

(** A text that ends with a point and two decimal digits. *)
Definition two_decimals (s : string) : Prop :=
  exists (int : string) (d1 d2 : ascii),
    s = int ++ "." ++ String d1 (String d2 EmptyString) /\
    strconv.is_digit d1 = true /\ strconv.is_digit d2 = true.

(** The number a text of decimal digits spells. *)
Definition read_number (s : string) : option Z :=
  match NilZero.uint_of_string s with
  | Some d => Some (Z.of_N (N.of_uint d))
  | None => None
  end.

(** The text before the first point of a text, and the text after it. *)
Fixpoint split_point (s : string) : option (string * string) :=
  match s with
  | EmptyString => None
  | String c s' =>
      if strconv.code c =? 46 then Some (EmptyString, s')
      else
        match split_point s' with
        | Some (before, after) => Some (String c before, after)
        | None => None
        end
  end.

(** The amount a text spells after its sign, in hundredths: digits, a
    point and two digits. *)
Definition amount_of (negative : bool) (body : string) : option (bool * Z) :=
  match split_point body with
  | Some (whole, decimals) =>
      if (String.length decimals =? 2)%nat then
        match read_number whole, read_number decimals with
        | Some a, Some b => Some (negative, 100 * a + b)
        | _, _ => None
        end
      else None
  | None => None
  end.

(** The amount a text spells, as a sign and a number of hundredths: a
    minus sign or none, then the amount. *)
Definition amount_shown (s : string) : option (bool * Z) :=
  match s with
  | String c s' => if strconv.code c =? 45 then amount_of true s' else amount_of false s
  | EmptyString => None
  end.

(** [h] hundredths is the amount nearest to the magnitude [m * 2^e]: no
    other number of hundredths is nearer, and [h] is even where another is
    as near. *)
Definition nearest_hundredths (m : positive) (e : Z) (h : Z) : Prop :=
  let num := 100 * Z.pos m * 2 ^ Z.max e 0 in
  let den := 2 ^ Z.max (- e) 0 in
  Z.abs (2 * (num - h * den)) <= den /\
  (Z.abs (2 * (num - h * den)) = den -> Z.even h = true).

Fixpoint digits_only (s : string) : bool :=
  match s with
  | EmptyString => true
  | String c s' => strconv.is_digit c && digits_only s'
  end.

(** The configurations of the end-to-end examples, and a configuration
    without a rate. *)
Definition flags_ticks_500ms : Flags :=
  {| HourlyRate := 100; MeetingDuration := time.Hour; Ticks := 500 * time.Millisecond |}.

Definition flags_ticks_2s : Flags :=
  {| HourlyRate := 100; MeetingDuration := time.Hour; Ticks := 2 * time.Second |}.

Definition flags_no_rate : Flags :=
  {| HourlyRate := 0; MeetingDuration := time.Hour; Ticks := time.Nanosecond |}.

(** The input lines [100], [foo], [50], [q]. *)
Definition input_100_foo_50_q : Reader :=
  "100" ++ LF ++ "foo" ++ LF ++ "50" ++ LF ++ "q" ++ LF.

(** ** Construction *)

(** [type MeetingOpt func(m *Meeting) *Meeting]: what an option does to the
    meeting it is given.  [NewMeeting] drops what the option returns. *)
Definition MeetingOpt := Meeting -> Meeting.

(** [func WithInput(r io.Reader) MeetingOpt] *)
Definition WithInput (r' : Reader) : MeetingOpt := fun m => with_r m r'.

(** [func WithOutput(w io.Writer) MeetingOpt] *)
Definition WithOutput (w' : Writer) : MeetingOpt := fun m => with_w m w'.

(** [func NewMeeting(f Flags, opts ...MeetingOpt) *Meeting], with the
    standard streams of the process as [Stdin] and [Stdout]. *)
Definition NewMeeting_opts (Stdin : Reader) (Stdout : Writer)
    (flags : Flags) (opts : list MeetingOpt) : Meeting :=
  fold_left (fun m opt => opt m) opts
            {| r := Stdin; w := Stdout; f := flags; Finished := false |}.

(** The two options of the package, and the readers and writers a list of
    them names, in order. *)
Inductive stream_option :=
| input_option (r' : Reader)
| output_option (w' : Writer).

Definition option_of (o : stream_option) : MeetingOpt :=
  match o with
  | input_option r' => WithInput r'
  | output_option w' => WithOutput w'
  end.

Definition inputs_of (os : list stream_option) : list Reader :=
  flat_map (fun o => match o with input_option r' => [r'] | _ => [] end) os.

Definition outputs_of (os : list stream_option) : list Writer :=
  flat_map (fun o => match o with output_option w' => [w'] | _ => [] end) os.

(** ** Line ends *)

(** The text of [lines], each followed by the line end [eol]. *)
Definition unlines (eol : string) (lines : list string) : string :=
  String.concat EmptyString (map (fun line => line ++ eol) lines).

Fixpoint has_LF (s : string) : bool :=
  match s with
  | EmptyString => false
  | String c s' => (strconv.code c =? 10) || has_LF s'
  end.

(** A line as a scanner delivers it: no line feed inside, no carriage
    return at its end, and short enough to fit the buffer of the scanner
    with a carriage return after it. *)
Definition plain_line (line : string) : Prop :=
  has_LF line = false /\
  match last_char line with Some c => strconv.code c <> 13 | None => True end /\
  Z.of_nat (String.length line) + 1 < bufio.MaxScanTokenSize.

(** ** The ticking goroutine *)

(** What the [select] of [Timer2] receives: a value on [done], or a tick
    [t] of the ticker, given here by [t.Sub(now)], the time since [Timer2]
    began. *)
Inductive received :=
| from_done
| from_ticker (elapsed : time.Duration).

(** [case t := <-ticker.C]: one running cost displayed. *)
Definition Timer2_tick (m : Meeting) (elapsed : time.Duration) : Meeting :=
  let d := elapsed in
  let runningCost := Cost (HourlyRate (f m)) d in
  with_w m (DisplayCost runningCost (w m)).

(** [func Timer2(m *Meeting, done chan bool, ticker *time.Ticker)] over the
    values its [select] receives, in order: the meeting afterwards, and
    whether [Timer2] has returned. *)
Fixpoint Timer2 (events : list received) (m : Meeting) : Meeting * bool :=
  match events with
  | [] => (m, false)
  | from_done :: _ => (m, true)
  | from_ticker elapsed :: events' => Timer2 events' (Timer2_tick m elapsed)
  end.

(** The ticks received before [done] delivers. *)
Fixpoint ticks_before_done (events : list received) : list time.Duration :=
  match events with
  | [] => []
  | from_done :: _ => []
  | from_ticker elapsed :: events' => elapsed :: ticks_before_done events'
  end.

Definition is_done (e : received) : bool :=
  match e with from_done => true | from_ticker _ => false end.

(** ** Scanning tokens *)

Module utf8.

Definition RuneError : Z := 65533.

(** [p[n:]] *)
Fixpoint drop (n : nat) (p : string) : string :=
  match n, p with
  | Datatypes.S n', String _ p' => drop n' p'
  | _, _ => p
  end.

Definition chr (b : Z) : string := String (ascii_of_N (Z.to_N b)) EmptyString.

(** The table [first] with [acceptRanges], for a byte that leads a
    sequence: the size of the sequence and the range of its second byte. *)
Definition first (p0 : Z) : option (nat * Z * Z) :=
  if (194 <=? p0) && (p0 <=? 223) then Some (2%nat, 128, 191)
  else if p0 =? 224 then Some (3%nat, 160, 191)
  else if (225 <=? p0) && (p0 <=? 236) then Some (3%nat, 128, 191)
  else if p0 =? 237 then Some (3%nat, 128, 159)
  else if (238 <=? p0) && (p0 <=? 239) then Some (3%nat, 128, 191)
  else if p0 =? 240 then Some (4%nat, 144, 191)
  else if (241 <=? p0) && (p0 <=? 243) then Some (4%nat, 128, 191)
  else if p0 =? 244 then Some (4%nat, 128, 143)
  else None.

(** A continuation byte, [locb <= b <= hicb]. *)
Definition continuation (b : Z) : bool := (128 <=? b) && (b <=? 191).

(** [DecodeRune(p)]: the first rune of [p] and its width in bytes;
    [(RuneError, 1)] for an encoding that is invalid or cut short. *)
Definition DecodeRune (p : string) : Z * nat :=
  match p with
  | EmptyString => (RuneError, 0%nat)
  | String c0 p1 =>
      let p0 := strconv.code c0 in
      if p0 <? 128 then (p0, 1%nat)
      else
        match first p0 with
        | None => (RuneError, 1%nat)
        | Some (sz, lo, hi) =>
            if (String.length p <? sz)%nat then (RuneError, 1%nat)
            else
              match p1 with
              | EmptyString => (RuneError, 1%nat)
              | String c1 p2 =>
                  let b1 := strconv.code c1 in
                  if (b1 <? lo) || (hi <? b1) then (RuneError, 1%nat)
                  else if (sz <=? 2)%nat then
                    (Z.lor (Z.shiftl (Z.land p0 31) 6) (Z.land b1 63), 2%nat)
                  else
                    match p2 with
                    | EmptyString => (RuneError, 1%nat)
                    | String c2 p3 =>
                        let b2 := strconv.code c2 in
                        if negb (continuation b2) then (RuneError, 1%nat)
                        else if (sz <=? 3)%nat then
                          (Z.lor (Z.lor (Z.shiftl (Z.land p0 15) 12)
                                        (Z.shiftl (Z.land b1 63) 6))
                                 (Z.land b2 63), 3%nat)
                        else
                          match p3 with
                          | EmptyString => (RuneError, 1%nat)
                          | String c3 _ =>
                              let b3 := strconv.code c3 in
                              if negb (continuation b3) then (RuneError, 1%nat)
                              else
                                (Z.lor (Z.lor (Z.lor (Z.shiftl (Z.land p0 7) 18)
                                                     (Z.shiftl (Z.land b1 63) 12))
                                              (Z.shiftl (Z.land b2 63) 6))
                                       (Z.land b3 63), 4%nat)
                          end
                    end
              end
        end
  end.

Definition three_bytes (r : Z) : string :=
  chr (Z.lor 224 (Z.shiftr r 12)) ++
  chr (Z.lor 128 (Z.land (Z.shiftr r 6) 63)) ++
  chr (Z.lor 128 (Z.land r 63)).

(** [AppendRune(p, r)] for a rune that is not negative. *)
Definition AppendRune (p : string) (r : Z) : string :=
  if r <=? 127 then p ++ chr r
  else if r <=? 2047 then
    p ++ chr (Z.lor 192 (Z.shiftr r 6)) ++ chr (Z.lor 128 (Z.land r 63))
  else if (1114111 <? r) || ((55296 <=? r) && (r <=? 57343)) then
    p ++ three_bytes RuneError
  else if r <=? 65535 then p ++ three_bytes r
  else
    p ++ chr (Z.lor 240 (Z.shiftr r 18)) ++
         chr (Z.lor 128 (Z.land (Z.shiftr r 12) 63)) ++
         chr (Z.lor 128 (Z.land (Z.shiftr r 6) 63)) ++
         chr (Z.lor 128 (Z.land r 63)).

End utf8.

(** The scanning half of [fmt]. *)
Module scan.

(** [isSpace]: the runes of the table [space]. *)
Definition isSpace (r : Z) : bool :=
  ((9 <=? r) && (r <=? 13)) || (r =? 32) || (r =? 133) || (r =? 160) ||
  (r =? 5760) || ((8192 <=? r) && (r <=? 8202)) ||
  ((8232 <=? r) && (r <=? 8233)) || (r =? 8239) || (r =? 8287) || (r =? 12288).

(** [SkipSpace], where a newline counts as space: what is left of [s]
    after its leading white space.  [fuel] bounds the runes read. *)
Fixpoint SkipSpace (fuel : nat) (s : string) : string :=
  match fuel with
  | O => s
  | Datatypes.S fuel' =>
      match s with
      | EmptyString => s
      | _ =>
          let '(r, size) := utf8.DecodeRune s in
          if isSpace r then SkipSpace fuel' (utf8.drop size s) else s
      end
  end.

(** [token(true, notSpace)] after the space is skipped: the runes up to the
    next white space, written to [buf], and what is left of the reader.
    The rune that ends the token is put back where the reader can take it
    back ([unreads]: it implements [io.RuneScanner]); otherwise it is
    lost with the scan state. *)
Fixpoint token (unreads : bool) (fuel : nat) (s buf : string) : string * string :=
  match fuel with
  | O => (buf, s)
  | Datatypes.S fuel' =>
      match s with
      | EmptyString => (buf, s)
      | _ =>
          let '(r, size) := utf8.DecodeRune s in
          if isSpace r then (buf, if unreads then s else utf8.drop size s)
          else token unreads fuel' (utf8.drop size s) (utf8.AppendRune buf r)
      end
  end.

(** [fmt.Fscan(r, &v)] for a string [v]: the reader and the variable
    afterwards, and whether a token was stored.  At the end of the input
    the variable keeps its value. *)
Definition Fscan (unreads : bool) (r : Reader) (v : string) : Reader * string * bool :=
  match SkipSpace (String.length r) r with
  | EmptyString => (EmptyString, v, false)
  | s =>
      let '(t, rest) := token unreads (String.length s) s EmptyString in
      (rest, t, true)
  end.

(** Every token [Fscan] will deliver from [r], in order. *)
Fixpoint tokens (unreads : bool) (fuel : nat) (r : Reader) : list string :=
  match fuel with
  | O => []
  | Datatypes.S fuel' =>
      match Fscan unreads r EmptyString with
      | (r', t, true) => t :: tokens unreads fuel' r'
      | (_, _, false) => []
      end
  end.

Definition Tokens (unreads : bool) (r : Reader) : list string :=
  tokens unreads (Datatypes.S (String.length r)) r.

End scan.

(** Two inputs that differ in leading white space only. *)
Definition same_after_space (r1 r2 : Reader) : Prop :=
  scan.SkipSpace (String.length r1) r1 = scan.SkipSpace (String.length r2) r2.

(** ** The interactive termination strategy *)

(** What a termination strategy does once it has decided to end the
    session, in order. *)
Inductive effect :=
| send_done
| stop_ticker
| set_Finished.

(** The variables of [UserInputStrategy] that live across iterations. *)
Record listening := {
  pending : Reader;
  userInput : string
}.

(** One pass through the body of the [for] loop of [UserInputStrategy]. *)
Definition UserInputStrategy_body (unreads : bool) (st : listening) : flow listening :=
  let '(r', v', _) := scan.Fscan unreads (pending st) (userInput st) in
  let st' := {| pending := r'; userInput := v' |} in
  if is_sentinel v' then Break st' else Continue st'.

(** [func UserInputStrategy(m *Meeting, done chan bool, ticker *time.Ticker)]:
    the meeting it leaves and what it did after its loop, or [None] where
    [fuel] passes do not reach the [break].  The send on [done] is taken
    to find [Timer2] receiving. *)
Definition UserInputStrategy (unreads : bool) (fuel : nat) (m : Meeting)
    : option (Meeting * list effect) :=
  match loop (UserInputStrategy_body unreads) fuel
             {| pending := r m; userInput := EmptyString |} with
  | Some st =>
      Some ({| r := pending st; w := w m; f := f m; Finished := true |},
            [send_done; stop_ticker; set_Finished])
  | None => None
  end.

(** ** Command-line flags *)

(** [time.ParseDuration], of [time/format.go]. *)
Module duration.

(** [leadingInt]: the number the leading digits of [s] spell and the rest of
    [s]; [None] where the number passes 2^63. *)
Fixpoint leadingInt (s : string) (x : Z) : option (Z * string) :=
  match s with
  | EmptyString => Some (x, s)
  | String c s' =>
      if negb (strconv.is_digit c) then Some (x, s)
      else if 2 ^ 63 / 10 <? x then None
      else
        let x' := x * 10 + (strconv.code c - 48) in
        if 2 ^ 63 <? x' then None else leadingInt s' x'
  end.

(** [leadingFraction]: as [leadingInt], with the power of ten of the digits
    taken; digits that would overflow are dropped. *)
Fixpoint leadingFraction (s : string) (x : Z) (scale : float) (overflow : bool)
    : Z * float * string :=
  match s with
  | EmptyString => (x, scale, s)
  | String c s' =>
      if negb (strconv.is_digit c) then (x, scale, s)
      else if overflow then leadingFraction s' x scale true
      else if (2 ^ 63 - 1) / 10 <? x then leadingFraction s' x scale true
      else
        let y := x * 10 + (strconv.code c - 48) in
        if 2 ^ 63 <? y then leadingFraction s' x scale true
        else leadingFraction s' y (scale * 10)%float false
  end.

(** The unit: the bytes before the next point or digit. *)
Fixpoint unit_text (s : string) : string * string :=
  match s with
  | EmptyString => (EmptyString, s)
  | String c s' =>
      if (strconv.code c =? 46) || strconv.is_digit c then (EmptyString, s)
      else let '(u, rest) := unit_text s' in (String c u, rest)
  end.

Definition micro_sign : string := utf8.chr 194 ++ utf8.chr 181.
Definition greek_mu : string := utf8.chr 206 ++ utf8.chr 188.

Definition unitMap (u : string) : option Z :=
  if String.eqb u "ns" then Some time.Nanosecond
  else if String.eqb u "us" then Some time.Microsecond
  else if String.eqb u (micro_sign ++ "s") then Some time.Microsecond
  else if String.eqb u (greek_mu ++ "s") then Some time.Microsecond
  else if String.eqb u "ms" then Some time.Millisecond
  else if String.eqb u "s" then Some time.Second
  else if String.eqb u "m" then Some time.Minute
  else if String.eqb u "h" then Some time.Hour
  else None.

(** [float64(x)] for an unsigned integer. *)
Definition float64_of_uint64 (x : Z) : float :=
  SF2Prim (binary_normalize prec emax x 0 false).

(** [uint64(x)] for a number within range: the fraction is dropped. *)
Definition uint64_of_float64 (x : float) : Z :=
  match Prim2SF x with
  | S754_finite false m e =>
      if 0 <=? e then Z.pos m * 2 ^ e else Z.pos m / 2 ^ (- e)
  | _ => 0
  end.

(** The loop over the terms of a duration, each a number with its unit,
    added to [d]; [None] for an error. *)
Fixpoint terms (fuel : nat) (s : string) (d : Z) : option Z :=
  match fuel, s with
  | _, EmptyString => Some d
  | O, _ => None
  | Datatypes.S fuel', String c _ =>
      if negb ((strconv.code c =? 46) || strconv.is_digit c) then None
      else
        match leadingInt s 0 with
        | None => None
        | Some (v, s1) =>
            let pre := negb (String.length s =? String.length s1)%nat in
            let '(f, scale, s2, post) :=
              match s1 with
              | String c1 t =>
                  if strconv.code c1 =? 46 then
                    let '(f, scale, s2) := leadingFraction t 0 1%float false in
                    (f, scale, s2, negb (String.length t =? String.length s2)%nat)
                  else (0, 1%float, s1, false)
              | EmptyString => (0, 1%float, s1, false)
              end in
            if negb pre && negb post then None
            else
              let '(u, s3) := unit_text s2 in
              match u with
              | EmptyString => None
              | _ =>
                  match unitMap u with
                  | None => None
                  | Some unit =>
                      if 2 ^ 63 / unit <? v then None
                      else
                        let v1 := v * unit in
                        let v2 :=
                          if 0 <? f then
                            v1 + uint64_of_float64
                                   (float64_of_uint64 f * (float64_of_uint64 unit / scale))%float
                          else v1 in
                        if (0 <? f) && (2 ^ 63 <? v2) then None
                        else
                          let d' := (d + v2) mod 2 ^ 64 in
                          if 2 ^ 63 <? d' then None else terms fuel' s3 d'
                  end
              end
        end
  end.

(** [func ParseDuration(s string) (Duration, error)]: the duration, and
    whether the error is not nil. *)
Definition ParseDuration (s : string) : time.Duration * bool :=
  let '(neg, s1) :=
    match s with
    | String c t =>
        if (strconv.code c =? 45) || (strconv.code c =? 43)
        then (strconv.code c =? 45, t) else (false, s)
    | EmptyString => (false, s)
    end in
  if String.eqb s1 "0" then (0, false)
  else if String.eqb s1 EmptyString then (0, true)
  else
    match terms (String.length s1) s1 0 with
    | None => (0, true)
    | Some d =>
        if neg then (time.wrap64 (- time.wrap64 d), false)
        else if 2 ^ 63 - 1 <? d then (0, true)
        else (d, false)
    end.

End duration.

Module flag.

(** The errors of [FlagSet.Parse]: [ErrHelp], and the four [failf]
    builds. *)
Inductive error :=
| ErrHelp
| bad_flag_syntax (arg : string)
| not_defined (name : string)
| needs_an_argument (name : string)
| invalid_value (value name : string).

(** The name before the first [=] and the value after it. *)
Fixpoint cut_at_equals (s : string) : string * option string :=
  match s with
  | EmptyString => (EmptyString, None)
  | String c s' =>
      if strconv.code c =? 61 then (EmptyString, Some s')
      else let '(name, value) := cut_at_equals s' in (String c name, value)
  end.

(** [for i := 1; i < len(name); i++ { if name[i] == '=' ... } ]: the
    first byte is never the [=]. *)
Definition name_and_value (name : string) : string * option string :=
  match name with
  | EmptyString => (EmptyString, None)
  | String c rest => let '(name', value) := cut_at_equals rest in (String c name', value)
  end.

Definition is_dash (c : ascii) : bool := strconv.code c =? 45.

(** [len(name) == 0 || name[0] == '-' || name[0] == '='] *)
Definition bad_name (name : string) : bool :=
  match name with
  | EmptyString => true
  | String c _ => is_dash c || (strconv.code c =? 61)
  end.

Section FlagSet.

(** The variables the flags of a set write to. *)
Variable V : Type.

(** [f.formal]: for the name of a flag of the set, its [Value.Set], which
    gives the variables afterwards and whether it returned an error.  No
    flag is boolean. *)
Variable formal : string -> option (string -> V -> V * bool).

(** [FlagSet.Parse(arguments)] with
    [ContinueOnError]: the variables and the arguments left, or the
    error. What [Parse] prints on an error is left out. *)
Fixpoint Parse (args : list string) (v : V) : V * list string + error :=
  match args with
  | [] => inl (v, [])
  | s :: rest =>
      match s with
      | String c0 (String c1 tail) =>
          if negb (is_dash c0) then inl (v, args)
          else if is_dash c1 && String.eqb tail EmptyString then inl (v, rest)
          else
            let name := if is_dash c1 then tail else String c1 tail in
            if bad_name name then inr (bad_flag_syntax s)
            else
              let '(name, value) := name_and_value name in
              match formal name with
              | None =>
                  if String.eqb name "help" || String.eqb name "h"
                  then inr ErrHelp else inr (not_defined name)
              | Some set =>
                  match value with
                  | Some value =>
                      let '(v', failed) := set value v in
                      if failed then inr (invalid_value value name)
                      else Parse rest v'
                  | None =>
                      match rest with
                      | [] => inr (needs_an_argument name)
                      | value :: rest' =>
                          let '(v', failed) := set value v in
                          if failed then inr (invalid_value value name)
                          else Parse rest' v'
                      end
                  end
              end
      | _ => inl (v, args)
      end
  end.

End FlagSet.

End flag.

Definition failed {E : Type} (err : option E) : bool :=
  match err with Some _ => true | None => false end.

Section FlagParsing.

(** [strconv.ParseFloat(s, 64)] and [time.ParseDuration(s)], which the
    values of the flags call. *)
Variable ParseFloat : string -> float * option strconv.error.
Variable ParseDuration : string -> time.Duration * bool.

(** The three flags of [ParseFlags], each writing its variable. *)
Definition formal_flags (name : string) : option (string -> Flags -> Flags * bool) :=
  if String.eqb name "rate" then
    Some (fun value v =>
            let '(x, err) := ParseFloat value in
            ({| HourlyRate := x; MeetingDuration := MeetingDuration v; Ticks := Ticks v |},
             failed err))
  else if String.eqb name "duration" then
    Some (fun value v =>
            let '(d, err) := ParseDuration value in
            ({| HourlyRate := HourlyRate v; MeetingDuration := d; Ticks := Ticks v |}, err))
  else if String.eqb name "ticks" then
    Some (fun value v =>
            let '(d, err) := ParseDuration value in
            ({| HourlyRate := HourlyRate v; MeetingDuration := MeetingDuration v; Ticks := d |},
             err))
  else None.

(** The defaults the flags are declared with: [0.0], [0.0] and [1.0], the
    last a nanosecond. *)
Definition flag_defaults : Flags :=
  {| HourlyRate := 0; MeetingDuration := 0; Ticks := 1 |}.

(** [Flags{}] *)
Definition zero_Flags : Flags :=
  {| HourlyRate := 0; MeetingDuration := 0; Ticks := 0 |}.

(** [func ParseFlags(args []string) (Flags, error)] *)
Definition ParseFlags (args : list string) : Flags * option flag.error :=
  match flag.Parse Flags formal_flags args flag_defaults with
  | inr err => (zero_Flags, Some err)
  | inl (v, _) => (v, None)
  end.

End FlagParsing.

(** ** Vocabulary of the further properties *)

(** Two states of the rate collector that have the same lines ahead, the
    same writes behind and the same sum. *)
Definition same_progress (st1 st2 : collecting) : Prop :=
  bufio.Texts (scanner st1) = bufio.Texts (scanner st2) /\
  out st1 = out st2 /\ rate st1 = rate st2.

(** Two calls of [GetRate] that return the same rate with the same writes,
    or do not return. *)
Definition same_outcome (a b : option (float * Meeting)) : Prop :=
  match a, b with
  | Some (rate1, m1), Some (rate2, m2) => rate1 = rate2 /\ w m1 = w m2
  | None, None => True
  | _, _ => False
  end.

(** The flags of [ParseFlags] and the ways to give one a value on the
    command line: one or two dashes, the value after an equals sign or as
    the next argument. *)
Inductive flag_name := rate_flag | duration_flag | ticks_flag.

Definition flag_text (n : flag_name) : string :=
  match n with
  | rate_flag => "rate"
  | duration_flag => "duration"
  | ticks_flag => "ticks"
  end.

Record assignment := {
  to : flag_name;
  two_dashes : bool;
  inline : bool;
  text : string
}.

Definition flag_head (a : assignment) : string :=
  (if two_dashes a then "--" else "-") ++ flag_text (to a).

Definition render (a : assignment) : list string :=
  if inline a then [flag_head a ++ "=" ++ text a] else [flag_head a; text a].

(** An argument at which [Parse] stops: one that is no flag, or the
    terminator [--]. *)
Definition stops (arg : string) : bool :=
  match arg with
  | String c0 (String c1 tail) =>
      negb (flag.is_dash c0) || (flag.is_dash c1 && String.eqb tail EmptyString)
  | _ => true
  end.

Definition nothing_or_stop (rest : list string) : Prop :=
  match rest with
  | [] => True
  | arg :: _ => stops arg = true
  end.

Fixpoint has_equals (s : string) : bool :=
  match s with
  | EmptyString => false
  | String c s' => (strconv.code c =? 61) || has_equals s'
  end.

Section Assignments.

Variable ParseFloat : string -> float * option strconv.error.
Variable ParseDuration : string -> time.Duration * bool.

(** The value of an assignment parses. *)
Definition accepted (a : assignment) : bool :=
  match to a with
  | rate_flag => negb (failed (snd (ParseFloat (text a))))
  | _ => negb (snd (ParseDuration (text a)))
  end.

(** The flags after an assignment. *)
Definition assign (v : Flags) (a : assignment) : Flags :=
  match to a with
  | rate_flag =>
      {| HourlyRate := fst (ParseFloat (text a));
         MeetingDuration := MeetingDuration v; Ticks := Ticks v |}
  | duration_flag =>
      {| HourlyRate := HourlyRate v;
         MeetingDuration := fst (ParseDuration (text a)); Ticks := Ticks v |}
  | ticks_flag =>
      {| HourlyRate := HourlyRate v; MeetingDuration := MeetingDuration v;
         Ticks := fst (ParseDuration (text a)) |}
  end.

(** The values a list of assignments gives to one flag, in order. *)
Definition rates_given (asg : list assignment) : list float :=
  flat_map (fun a => match to a with
                     | rate_flag => [fst (ParseFloat (text a))]
                     | _ => []
                     end) asg.

Definition durations_given (asg : list assignment) : list time.Duration :=
  flat_map (fun a => match to a with
                     | duration_flag => [fst (ParseDuration (text a))]
                     | _ => []
                     end) asg.

Definition ticks_given (asg : list assignment) : list time.Duration :=
  flat_map (fun a => match to a with
                     | ticks_flag => [fst (ParseDuration (text a))]
                     | _ => []
                     end) asg.

End Assignments.

(** ** The interactive session as a whole *)

(** The interactive branch of [RunCLI] from the moment it spins, with its
    two goroutines: [UserInputStrategy] reads the tokens of the reader;
    [Timer2] displays the ticks it receives before the value on [done],
    which [ticks] lists by the time elapsed at each; then [RunCLI] sees
    [Finished] and ends.  The two goroutines share no field of the
    meeting: one writes, the other reads and sets [Finished].  [None]
    where no token ends the strategy within [fuel] passes: [RunCLI] spins
    on. *)
Definition interactive_session (unreads : bool) (ticks : list time.Duration)
    (fuel : nat) (m : Meeting) : option Run :=
  match UserInputStrategy unreads fuel m with
  | Some (m1, _) =>
      let '(m2, _) := Timer2 (map from_ticker ticks ++ [from_done]) m1 in
      Some (after_Finished m2)
  | None => None
  end.

(** An interactive configuration: no duration, a tick every second, and a
    rate that costs a dollar a second. *)
Definition flags_interactive : Flags :=
  {| HourlyRate := 3600; MeetingDuration := 0; Ticks := time.Second |}.

(** Three assignments on a command line: [-rate=100], [--duration 1h] and
    [-rate 9.95]. *)
Definition rate_100_duration_1h_rate_9_95 : list assignment :=
  [ {| to := rate_flag; two_dashes := false; inline := true; text := "100" |};
    {| to := duration_flag; two_dashes := true; inline := false; text := "1h" |};
    {| to := rate_flag; two_dashes := false; inline := false; text := "9.95" |} ].

(** ** Binary64 vocabulary *)

(** [0 <= x], as Go compares: true of both zeros, false of a NaN. *)
Definition nonneg (x : float) : Prop := (0 <=? x)%float = true.

(** [x] is the binary64 number whose value is the whole number [k]. *)
Definition is_integer (x : float) (k : Z) : Prop :=
  match Prim2SF x with
  | S754_zero _ => k = 0
  | S754_finite s m e => e <= 0 /\ (if s then Z.neg m else Z.pos m) = k * 2 ^ (- e)
  | _ => False
  end.

(** A rate that is a number of ordinary size: its magnitude lies between
    [2^-700] and [2^700]. *)
Definition ordinary (x : float) : Prop :=
  (0x1p-700 <=? abs x)%float = true /\ (abs x <=? 0x1p+700)%float = true.

(** A number or an infinity of sign [s], or a zero. *)
Definition signed (s : bool) (x : spec_float) : Prop :=
  match x with
  | S754_zero _ => True
  | S754_infinity s' | S754_finite s' _ _ => s' = s
  | S754_nan => False
  end.

(** A number of sign [s] with an exponent of [L] at least, a zero, or the
    infinity of sign [s]. *)
Definition above (L : Z) (s : bool) (x : spec_float) : Prop :=
  match x with
  | S754_zero _ => True
  | S754_infinity s' => s' = s
  | S754_finite s' _ e => s' = s /\ L <= e
  | S754_nan => False
  end.

(** The binary64 number of a whole number with at most 53 binary digits:
    the mantissa filled to 53 digits. *)
Definition SF_of_int (i : Z) : spec_float :=
  match i with
  | Z0 => S754_zero false
  | Z.pos p =>
      S754_finite false (Z.to_pos (Z.pos p * 2 ^ (53 - Z.pos (digits2_pos p))))
                  (Z.pos (digits2_pos p) - 53)
  | Z.neg p =>
      S754_finite true (Z.to_pos (Z.pos p * 2 ^ (53 - Z.pos (digits2_pos p))))
                  (Z.pos (digits2_pos p) - 53)
  end.

(** [x * 2^k] for [0 <= k], with the overflow to infinity. *)
Definition SFscale (k : Z) (x : spec_float) : spec_float :=
  match x with
  | S754_finite s m e =>
      if e + k <=? emax - prec then S754_finite s m (e + k) else S754_infinity s
  | _ => x
  end.

(** * Verification *)

Set Warnings "-inexact-float".

(** ** Binary64 arithmetic *)

Lemma fexp_eq (x : Z) : fexp prec emax x = Z.max (x - 53) (-1074).
Proof. reflexivity. Qed.

Lemma shr_1_nonneg (mrs : shr_record) : 0 <= shr_m mrs -> 0 <= shr_m (shr_1 mrs).
Proof. destruct mrs as [[|[p|p|]|p] r0 s0]; simpl; lia. Qed.

Lemma iter_shr_1_nonneg (p : positive) :
  forall mrs, 0 <= shr_m mrs -> 0 <= shr_m (iter_pos shr_1 p mrs).
Proof.
  induction p as [p IH|p IH|]; intros mrs H; simpl.
  - apply IH, IH, shr_1_nonneg, H.
  - apply IH, IH, H.
  - apply shr_1_nonneg, H.
Qed.

Lemma shr_nonneg (mrs : shr_record) (e n : Z) :
  0 <= shr_m mrs -> 0 <= shr_m (fst (shr mrs e n)).
Proof. destruct n; simpl; auto using iter_shr_1_nonneg. Qed.

Lemma shr_record_of_loc_m (m : Z) (l : location) : shr_m (shr_record_of_loc m l) = m.
Proof. destruct l as [|[| |]]; reflexivity. Qed.

Lemma shr_fexp_nonneg (m e : Z) (l : location) :
  0 <= m -> 0 <= shr_m (fst (shr_fexp prec emax m e l)).
Proof. intros H. apply shr_nonneg. rewrite shr_record_of_loc_m. exact H. Qed.

Lemma round_nearest_even_nonneg (m : Z) (l : location) :
  0 <= m -> 0 <= round_nearest_even m l.
Proof. destruct l as [|[| |]]; simpl; try lia. destruct (Z.even m); lia. Qed.

Lemma binary_round_aux_signed (s : bool) (m e : Z) (l : location) :
  0 <= m -> signed s (binary_round_aux prec emax s m e l).
Proof.
  intros H. unfold binary_round_aux.
  pose proof (shr_fexp_nonneg m e l H) as H1.
  destruct (shr_fexp prec emax m e l) as [mrs' e'].
  pose proof (shr_fexp_nonneg _ e' loc_Exact
                (round_nearest_even_nonneg _ (loc_of_shr_record mrs') H1)) as H2.
  destruct (shr_fexp prec emax _ e' loc_Exact) as [mrs'' e''].
  simpl in H2. destruct (shr_m mrs'') as [|p|p]; [exact I| |lia].
  destruct (Z.leb e'' (emax - prec)); reflexivity.
Qed.

Lemma binary_round_signed (s : bool) (m : positive) (e : Z) :
  signed s (binary_round prec emax s m e).
Proof.
  unfold binary_round. destruct (shl_align _ _ _) as [mz ez].
  apply binary_round_aux_signed. lia.
Qed.

Lemma SFadd_signed (s : bool) (x y : spec_float) :
  signed s x -> signed s y -> signed s (SF64add x y).
Proof.
  destruct x as [sx|sx| |sx mx ex], y as [sy|sy| |sy my ey]; simpl;
    try tauto; try (intros; subst; try destruct s; try destruct sx; try destruct sy; simpl; tauto).
  intros -> ->. unfold SF64add, SFadd.
  destruct s; simpl; apply binary_round_signed.
Qed.

Lemma nonneg_signed (x : float) : nonneg x <-> signed false (Prim2SF x).
Proof.
  unfold nonneg. rewrite FloatAxioms.leb_spec. change (Prim2SF 0) with (S754_zero false).
  destruct (Prim2SF x) as [s|[|]| |[|] m e]; simpl; unfold SFleb; simpl;
    intuition congruence.
Qed.

Lemma add_nonneg (a b : float) : nonneg a -> nonneg b -> nonneg (a + b)%float.
Proof.
  rewrite !nonneg_signed, FloatAxioms.add_spec. apply SFadd_signed.
Qed.

(** ** Binary digits *)

Lemma digits2_pos_bounds (p : positive) :
  2 ^ (Z.pos (digits2_pos p) - 1) <= Z.pos p < 2 ^ Z.pos (digits2_pos p).
Proof.
  induction p as [p IH|p IH|]; cbn [digits2_pos]; [| |simpl; lia];
    rewrite Pos2Z.inj_succ;
    replace (Z.succ (Z.pos (digits2_pos p)) - 1) with (Z.succ (Z.pos (digits2_pos p) - 1)) by lia;
    rewrite !Z.pow_succ_r by lia; lia.
Qed.

Lemma digits2_pos_le (p : positive) (n : Z) :
  Z.pos p < 2 ^ n -> Z.pos (digits2_pos p) <= n.
Proof.
  intros H. destruct (Z.le_gt_cases (Z.pos (digits2_pos p)) n) as [|Hgt]; [assumption|].
  pose proof (digits2_pos_bounds p) as [Hlo _].
  assert (0 <= n) by (destruct n; try lia; simpl in H; lia).
  assert (2 ^ n <= 2 ^ (Z.pos (digits2_pos p) - 1)) by (apply Z.pow_le_mono_r; lia).
  lia.
Qed.

Lemma iter_xO_value (p q : positive) :
  Z.pos (Pos.iter xO p q) = Z.pos p * 2 ^ Z.pos q.
Proof.
  induction q as [|q IH] using Pos.peano_ind.
  - simpl. lia.
  - rewrite Pos.iter_succ, Pos2Z.inj_succ, Z.pow_succ_r by lia.
    rewrite Pos2Z.inj_xO, IH. lia.
Qed.

Lemma digits2_pos_iter_xO (p q : positive) :
  digits2_pos (Pos.iter xO p q) = (digits2_pos p + q)%positive.
Proof.
  induction q as [|q IH] using Pos.peano_ind.
  - simpl. lia.
  - rewrite Pos.iter_succ. cbn [digits2_pos]. rewrite IH. lia.
Qed.

(** ** Rounding what needs none *)

Lemma loc_of_shr_record_of_loc (m : Z) (l : location) :
  loc_of_shr_record (shr_record_of_loc m l) = l.
Proof. destruct l as [|[| |]]; reflexivity. Qed.

Lemma binary_round_aux_canonical (s : bool) (m : positive) (e : Z) :
  bounded prec emax m e = true ->
  binary_round_aux prec emax s (Z.pos m) e loc_Exact = S754_finite s m e.
Proof.
  unfold bounded, canonical_mantissa. intros H.
  apply andb_prop in H. destruct H as [Hc Hb]. apply Z.eqb_eq in Hc.
  unfold binary_round_aux, shr_fexp. cbn [Zdigits2 shr_record_of_loc].
  rewrite Hc, Z.sub_diag. cbn [shr shr_m loc_of_shr_record round_nearest_even Zdigits2
                                shr_record_of_loc].
  rewrite Hc, Z.sub_diag. cbn [shr shr_m]. rewrite Hb. reflexivity.
Qed.

Lemma binary_round_small (s : bool) (p : positive) :
  Z.pos p < 2 ^ 53 ->
  binary_round prec emax s p 0 =
    S754_finite s (Z.to_pos (Z.pos p * 2 ^ (53 - Z.pos (digits2_pos p))))
                (Z.pos (digits2_pos p) - 53).
Proof.
  intros H. pose proof (digits2_pos_le p 53 H) as Hd.
  unfold binary_round, shl_align. rewrite Z.add_0_r, fexp_eq.
  replace (Z.max (Z.pos (digits2_pos p) - 53) (-1074)) with (Z.pos (digits2_pos p) - 53) by lia.
  rewrite Z.sub_0_r.
  destruct (Z.pos (digits2_pos p) - 53) as [|q|q] eqn:E; [|lia|].
  - replace (53 - Z.pos (digits2_pos p)) with 0 by lia.
    rewrite Z.mul_1_r. cbn [Z.to_pos].
    apply binary_round_aux_canonical. unfold bounded, canonical_mantissa.
    rewrite fexp_eq. apply andb_true_intro. split; [apply Z.eqb_eq; lia | reflexivity].
  - replace (53 - Z.pos (digits2_pos p)) with (Z.pos q) by lia.
    rewrite <- iter_xO_value. cbn [Z.to_pos].
    apply binary_round_aux_canonical. unfold bounded, canonical_mantissa.
    rewrite fexp_eq, digits2_pos_iter_xO. apply andb_true_intro.
    split; [apply Z.eqb_eq | apply Z.leb_le; unfold emax, prec]; lia.
Qed.

Lemma Prim2SF_float64_of_int (i : Z) :
  - 2 ^ 53 < i < 2 ^ 53 ->
  Prim2SF (time.float64_of_int i) = SF_of_int i.
Proof.
  intros H. unfold time.float64_of_int.
  assert (Hw : forall z, 0 <= z < 2 ^ 53 -> Uint63.to_Z (Uint63.of_Z z) = z).
  { intros z Hz. rewrite Uint63.of_Z_spec. apply Z.mod_small.
    change wB with (2 ^ 63). split; [lia|].
    apply Z.lt_trans with (2 ^ 53); [lia | reflexivity]. }
  destruct i as [|p|p].
  - reflexivity.
  - change (Z.pos p <? 0) with false. cbv iota.
    rewrite FloatAxioms.of_uint63_spec, Hw by lia. cbn [binary_normalize].
    apply binary_round_small. lia.
  - change (Z.neg p <? 0) with true. cbv iota.
    rewrite FloatAxioms.opp_spec, FloatAxioms.of_uint63_spec. cbn [Z.opp]. rewrite Hw by lia.
    cbn [binary_normalize]. rewrite binary_round_small by lia. reflexivity.
Qed.

(** ** Scaling by a power of two *)

Lemma Zdigits2_nonneg (m : Z) : 0 <= Zdigits2 m.
Proof. destruct m; simpl; lia. Qed.

Lemma shr_nonpos (mrs : shr_record) (e n : Z) : n <= 0 -> shr mrs e n = (mrs, e).
Proof. destruct n; [reflexivity | lia | reflexivity]. Qed.

Lemma shr_pos (mrs : shr_record) (e n : Z) :
  0 < n -> shr mrs e n = (iter_pos shr_1 (Z.to_pos n) mrs, e + n).
Proof. destruct n; [lia | reflexivity | lia]. Qed.

(** The shift of [shr_fexp], away from the subnormal range. *)
Lemma shr_fexp_normal (m e : Z) (l : location) :
  -1074 <= e ->
  shr_fexp prec emax m e l =
    shr (shr_record_of_loc m l) e (Z.max (Zdigits2 m - 53) 0) /\
  snd (shr_fexp prec emax m e l) = e + Z.max (Zdigits2 m - 53) 0.
Proof.
  intros He. unfold shr_fexp. rewrite fexp_eq.
  pose proof (Zdigits2_nonneg m) as Hd.
  destruct (Z.le_gt_cases (Zdigits2 m) 53) as [H|H].
  - replace (Z.max (Zdigits2 m - 53) 0) with 0 by lia.
    rewrite (shr_nonpos _ e (_ - e)) by lia. split; [reflexivity | simpl; lia].
  - replace (Z.max (Zdigits2 m - 53) 0) with (Zdigits2 m - 53) by lia.
    replace (Z.max (Zdigits2 m + e - 53) (-1074) - e) with (Zdigits2 m - 53) by lia.
    split; [reflexivity|]. rewrite shr_pos by lia. reflexivity.
Qed.

Lemma shr_fexp_shift (m e : Z) (l : location) (k : Z) :
  0 <= k -> -1074 <= e ->
  shr_fexp prec emax m (e + k) l =
    (fst (shr_fexp prec emax m e l), snd (shr_fexp prec emax m e l) + k).
Proof.
  intros Hk He.
  destruct (shr_fexp_normal m e l He) as [E1 _].
  destruct (shr_fexp_normal m (e + k) l ltac:(lia)) as [E2 _].
  rewrite E1, E2. destruct (Z.max (Zdigits2 m - 53) 0) as [|p|p]; simpl;
    try reflexivity. f_equal. lia.
Qed.

Lemma binary_round_aux_shift (s : bool) (m e : Z) (l : location) (k : Z) :
  0 <= k -> -1074 <= e ->
  binary_round_aux prec emax s m (e + k) l =
    SFscale k (binary_round_aux prec emax s m e l).
Proof.
  intros Hk He. unfold binary_round_aux.
  rewrite (shr_fexp_shift m e l k Hk He).
  pose proof (proj2 (shr_fexp_normal m e l He)) as He'.
  destruct (shr_fexp prec emax m e l) as [mrs' e']. cbn [fst snd] in *.
  assert (He'' : -1074 <= e') by lia.
  rewrite (shr_fexp_shift _ e' loc_Exact k Hk He'').
  destruct (shr_fexp prec emax _ e' loc_Exact) as [mrs'' e'']. cbn [fst snd].
  destruct (shr_m mrs'') as [|p|p]; try reflexivity.
  destruct (Z.leb_spec e'' (emax - prec)) as [H1|H1]; cbn [SFscale];
    destruct (Z.leb_spec (e'' + k) (emax - prec)) as [H2|H2];
    try reflexivity; unfold emax, prec in *; lia.
Qed.

(** ** The shape of a rounded result *)

Lemma digits2_pos_ge (p : positive) (n : Z) :
  2 ^ (n - 1) <= Z.pos p -> n <= Z.pos (digits2_pos p).
Proof.
  intros H. destruct (Z.le_gt_cases n (Z.pos (digits2_pos p))) as [|Hgt]; [assumption|].
  pose proof (digits2_pos_bounds p) as [_ Hhi].
  assert (2 ^ Z.pos (digits2_pos p) <= 2 ^ (n - 1)) by (apply Z.pow_le_mono_r; lia).
  lia.
Qed.

Lemma shr_1_digits (mrs : shr_record) :
  0 <= shr_m mrs ->
  Zdigits2 (shr_m (shr_1 mrs)) = Z.max 0 (Zdigits2 (shr_m mrs) - 1).
Proof.
  destruct mrs as [[|[p|p|]|p] r0 s0]; cbn [shr_1 shr_m Zdigits2 digits2_pos]; intros H;
    try rewrite Pos2Z.inj_succ; lia.
Qed.

Lemma iter_shr_1_digits (p : positive) :
  forall mrs, 0 <= shr_m mrs ->
    Zdigits2 (shr_m (iter_pos shr_1 p mrs)) = Z.max 0 (Zdigits2 (shr_m mrs) - Z.pos p).
Proof.
  induction p as [p IH|p IH|]; intros mrs H; cbn [iter_pos].
  - rewrite IH by (apply iter_shr_1_nonneg, shr_1_nonneg, H).
    rewrite IH by (apply shr_1_nonneg, H).
    rewrite shr_1_digits by exact H. lia.
  - rewrite IH by (apply iter_shr_1_nonneg, H).
    rewrite IH by exact H. lia.
  - apply shr_1_digits, H.
Qed.

Lemma Zdigits2_pos_inv (x : Z) :
  0 <= x -> 0 < Zdigits2 x -> exists p, x = Z.pos p.
Proof. destruct x as [|p|p]; simpl; try lia. intros _ _. exists p. reflexivity. Qed.

Lemma round_nearest_even_bounds (m : Z) (l : location) :
  m <= round_nearest_even m l <= m + 1.
Proof. destruct l as [|[| |]]; simpl; try lia. destruct (Z.even m); lia. Qed.

(** Rounding a mantissa of at least 53 digits, above the subnormal range:
    the result is a number with its exponent raised by the digits dropped
    (one more after a carry), or an infinity when that exponent is too
    large. *)
Lemma binary_round_aux_normal (s : bool) (m : positive) (e : Z) (l : location) :
  53 <= Z.pos (digits2_pos m) -> -1074 <= e ->
  exists m' e',
    binary_round_aux prec emax s (Z.pos m) e l =
      (if e' <=? 971 then S754_finite s m' e' else S754_infinity s) /\
    Z.pos (digits2_pos m) + e - 53 <= e' <= Z.pos (digits2_pos m) + e - 52.
Proof.
  intros Hd He. unfold binary_round_aux.
  destruct (shr_fexp_normal (Z.pos m) e l He) as [E1 E1'].
  destruct (shr_fexp prec emax (Z.pos m) e l) as [mrs' e'] eqn:E0.
  cbn [snd] in E1'. cbn [Zdigits2] in *.
  remember (Z.pos (digits2_pos m)) as D eqn:ED.
  assert (H1 : 0 <= shr_m mrs' /\ Zdigits2 (shr_m mrs') = 53).
  { apply (f_equal fst) in E1. cbn [fst] in E1. subst mrs'.
    destruct (Z.eq_dec D 53) as [Heq|Hne].
    - replace (Z.max (D - 53) 0) with 0 by lia. cbn [shr fst].
      rewrite shr_record_of_loc_m. cbn [Zdigits2]. lia.
    - replace (Z.max (D - 53) 0) with (D - 53) by lia.
      rewrite shr_pos by lia. cbn [fst]. split.
      + apply iter_shr_1_nonneg. rewrite shr_record_of_loc_m. lia.
      + rewrite iter_shr_1_digits by (rewrite shr_record_of_loc_m; lia).
        rewrite shr_record_of_loc_m. cbn [Zdigits2].
        rewrite Z2Pos.id by lia. lia. }
  destruct H1 as [H1 H1d].
  destruct (Zdigits2_pos_inv _ H1 ltac:(lia)) as [m1 Em1].
  pose proof (round_nearest_even_bounds (shr_m mrs') (loc_of_shr_record mrs')) as Hr.
  remember (round_nearest_even (shr_m mrs') (loc_of_shr_record mrs')) as m2 eqn:Em2.
  rewrite Em1 in H1d, Hr. cbn [Zdigits2] in H1d.
  destruct (Zdigits2_pos_inv m2 ltac:(lia)) as [p2 Ep2].
  { destruct m2; simpl; lia. }
  pose proof (digits2_pos_bounds m1) as Hb1. rewrite H1d in Hb1.
  assert (Hd2 : 53 <= Z.pos (digits2_pos p2) <= 54).
  { split.
    - apply digits2_pos_ge. lia.
    - apply digits2_pos_le. change (2 ^ 54) with (2 * 2 ^ 53). lia. }
  remember (Z.pos (digits2_pos p2)) as D2 eqn:ED2.
  assert (He' : -1074 <= e') by lia.
  destruct (shr_fexp_normal m2 e' loc_Exact He') as [E2 E2'].
  destruct (shr_fexp prec emax m2 e' loc_Exact) as [mrs'' e''] eqn:E3.
  cbn [snd] in E2'. rewrite Ep2 in E2, E2'. cbn [Zdigits2] in E2, E2'.
  rewrite <- ED2 in E2, E2'.
  assert (H2 : 0 <= shr_m mrs'' /\ 0 < Zdigits2 (shr_m mrs'')).
  { apply (f_equal fst) in E2. cbn [fst] in E2. subst mrs''.
    destruct (Z.eq_dec D2 53) as [Heq|Hne].
    - replace (Z.max (D2 - 53) 0) with 0 by lia. cbn [shr fst shr_record_of_loc shr_m Zdigits2]. lia.
    - replace (Z.max (D2 - 53) 0) with (D2 - 53) by lia.
      rewrite shr_pos by lia. cbn [fst]. split.
      + apply iter_shr_1_nonneg. cbn [shr_record_of_loc shr_m]. lia.
      + rewrite iter_shr_1_digits by (cbn [shr_record_of_loc shr_m]; lia).
        cbn [shr_record_of_loc shr_m Zdigits2].
        rewrite Z2Pos.id, <- ED2 by lia. lia. }
  destruct (Zdigits2_pos_inv _ (proj1 H2) (proj2 H2)) as [m'' Em''].
  rewrite Em''. exists m'', e''. split; [reflexivity|]. lia.
Qed.

(** ** Products and quotients of numbers *)

Lemma digits2_pos_mul (a b : positive) :
  Z.pos (digits2_pos a) + Z.pos (digits2_pos b) - 1 <= Z.pos (digits2_pos (a * b)) /\
  Z.pos (digits2_pos (a * b)) <= Z.pos (digits2_pos a) + Z.pos (digits2_pos b).
Proof.
  pose proof (digits2_pos_bounds a) as [Ha1 Ha2].
  pose proof (digits2_pos_bounds b) as [Hb1 Hb2].
  remember (Z.pos (digits2_pos a)) as da eqn:Eda.
  remember (Z.pos (digits2_pos b)) as db eqn:Edb.
  assert (0 < da) by lia. assert (0 < db) by lia.
  assert (H2a : 0 < 2 ^ (da - 1)) by (apply Z.pow_pos_nonneg; lia).
  assert (H2b : 0 < 2 ^ (db - 1)) by (apply Z.pow_pos_nonneg; lia).
  split.
  - apply digits2_pos_ge. rewrite Pos2Z.inj_mul.
    replace (da + db - 1 - 1) with ((da - 1) + (db - 1)) by lia.
    rewrite Z.pow_add_r by lia. apply Z.mul_le_mono_nonneg; lia.
  - apply digits2_pos_le. rewrite Pos2Z.inj_mul, Z.pow_add_r by lia.
    apply Z.mul_lt_mono_nonneg; lia.
Qed.

(** The product of two numbers, the first with a full mantissa, above the
    subnormal range. *)
Lemma SFmul_normal (sx sy : bool) (mx my : positive) (ex ey : Z) :
  digits2_pos mx = 53%positive ->
  -1074 <= ex + ey ->
  exists m' e',
    SF64mul (S754_finite sx mx ex) (S754_finite sy my ey) =
      (if e' <=? 971 then S754_finite (xorb sx sy) m' e'
       else S754_infinity (xorb sx sy)) /\
    ex + ey <= e' <= ex + ey + Z.pos (digits2_pos my) + 1.
Proof.
  intros Hdx He. unfold SF64mul, SFmul.
  pose proof (digits2_pos_mul mx my) as [Hlo Hhi]. rewrite Hdx in Hlo, Hhi.
  destruct (binary_round_aux_normal (xorb sx sy) (mx * my) (ex + ey) loc_Exact)
    as (m' & e' & E & Hb); [lia | lia |].
  exists m', e'. split; [exact E | lia].
Qed.

Lemma SFmul_scale_l (sx sy : bool) (mx my : positive) (ex ey k : Z) :
  0 <= k -> -1074 <= ex + ey ->
  SF64mul (S754_finite sx mx (ex + k)) (S754_finite sy my ey) =
    SFscale k (SF64mul (S754_finite sx mx ex) (S754_finite sy my ey)).
Proof.
  intros Hk He. unfold SF64mul, SFmul.
  replace (ex + k + ey) with (ex + ey + k) by lia.
  apply binary_round_aux_shift; assumption.
Qed.

Lemma SFmul_scale_r (sx sy : bool) (mx my : positive) (ex ey k : Z) :
  0 <= k -> -1074 <= ex + ey ->
  SF64mul (S754_finite sx mx ex) (S754_finite sy my (ey + k)) =
    SFscale k (SF64mul (S754_finite sx mx ex) (S754_finite sy my ey)).
Proof.
  intros Hk He. unfold SF64mul, SFmul.
  replace (ex + (ey + k)) with (ex + ey + k) by lia.
  apply binary_round_aux_shift; assumption.
Qed.

Lemma div_eucl_div_mod (a b : Z) : Z.div_eucl a b = (a / b, a mod b).
Proof. unfold Z.div, Z.modulo. destruct (Z.div_eucl a b). reflexivity. Qed.

(** The exponent a quotient is computed at, and the mantissa it then has,
    for a quotient above the subnormal range. *)
Lemma SFdiv_core_normal (mx my : positive) (ex ey : Z) :
  let dx := Z.pos (digits2_pos mx) in
  let dy := Z.pos (digits2_pos my) in
  dx <= 53 -> dy <= 53 ->
  -1074 <= dx + ex - (dy + ey) - 53 ->
  SFdiv_core_binary prec emax (Z.pos mx) ex (Z.pos my) ey =
    (Z.pos mx * 2 ^ (53 + dy - dx) / Z.pos my,
     dx + ex - (dy + ey) - 53,
     new_location (Z.pos my) (Z.pos mx * 2 ^ (53 + dy - dx) mod Z.pos my)).
Proof.
  intros dx dy Hdx Hdy HE. unfold SFdiv_core_binary. cbn [Zdigits2].
  fold dx dy. rewrite fexp_eq.
  pose proof (Pos2Z.is_pos (digits2_pos mx)). pose proof (Pos2Z.is_pos (digits2_pos my)).
  replace (Z.min (Z.max (dx + ex - (dy + ey) - 53) (-1074)) (ex - ey))
    with (dx + ex - (dy + ey) - 53) by lia.
  replace (ex - ey - (dx + ex - (dy + ey) - 53)) with (53 + dy - dx) by lia.
  remember (53 + dy - dx) as sh eqn:Esh.
  destruct sh as [|p|p]; try lia.
  rewrite Z.shiftl_mul_pow2 by lia. rewrite div_eucl_div_mod. reflexivity.
Qed.

Lemma SFdiv_quotient_digits (mx my : positive) :
  let dx := Z.pos (digits2_pos mx) in
  let dy := Z.pos (digits2_pos my) in
  dx <= 53 ->
  exists q, Z.pos mx * 2 ^ (53 + dy - dx) / Z.pos my = Z.pos q /\
            53 <= Z.pos (digits2_pos q) <= 54.
Proof.
  intros dx dy Hdx.
  pose proof (digits2_pos_bounds mx) as [Hx1 Hx2].
  pose proof (digits2_pos_bounds my) as [Hy1 Hy2].
  fold dx in Hx1, Hx2. fold dy in Hy1, Hy2.
  assert (0 < dx) by (unfold dx; lia). assert (0 < dy) by (unfold dy; lia).
  set (sh := 53 + dy - dx).
  assert (Hsh : 0 < 2 ^ sh) by (apply Z.pow_pos_nonneg; lia).
  assert (Hlo : 2 ^ 52 <= Z.pos mx * 2 ^ sh / Z.pos my).
  { apply Z.div_le_lower_bound; [lia|].
    apply Z.le_trans with (2 ^ dy * 2 ^ 52); [apply Z.mul_le_mono_nonneg_r; lia|].
    apply Z.le_trans with (2 ^ (dx - 1) * 2 ^ sh); [|apply Z.mul_le_mono_nonneg_r; lia].
    rewrite <- !Z.pow_add_r by lia. apply Z.pow_le_mono_r; lia. }
  assert (Hhi : Z.pos mx * 2 ^ sh / Z.pos my < 2 ^ 54).
  { apply Z.div_lt_upper_bound; [lia|].
    apply Z.lt_le_trans with (2 ^ dx * 2 ^ sh); [apply Z.mul_lt_mono_pos_r; lia|].
    apply Z.le_trans with (2 ^ (dy - 1) * 2 ^ 54); [|apply Z.mul_le_mono_nonneg_r; lia].
    rewrite <- !Z.pow_add_r by lia. apply Z.pow_le_mono_r; lia. }
  destruct (Z.pos mx * 2 ^ sh / Z.pos my) as [|q|q] eqn:E; try lia.
  exists q. split; [reflexivity|]. split.
  - apply digits2_pos_ge. exact Hlo.
  - apply digits2_pos_le. exact Hhi.
Qed.

(** The quotient of two numbers, above the subnormal range. *)
Lemma SFdiv_normal (sx sy : bool) (mx my : positive) (ex ey : Z) :
  let dx := Z.pos (digits2_pos mx) in
  let dy := Z.pos (digits2_pos my) in
  dx <= 53 -> dy <= 53 ->
  -1074 <= dx + ex - (dy + ey) - 53 ->
  exists m' e',
    SF64div (S754_finite sx mx ex) (S754_finite sy my ey) =
      (if e' <=? 971 then S754_finite (xorb sx sy) m' e'
       else S754_infinity (xorb sx sy)) /\
    dx + ex - (dy + ey) - 53 <= e' <= dx + ex - (dy + ey) - 51.
Proof.
  intros dx dy Hdx Hdy HE. unfold SF64div, SFdiv.
  rewrite (SFdiv_core_normal mx my ex ey Hdx Hdy HE). fold dx dy.
  destruct (SFdiv_quotient_digits mx my Hdx) as (q & Eq & Hq). fold dx dy in Eq.
  rewrite Eq.
  destruct (binary_round_aux_normal (xorb sx sy) q (dx + ex - (dy + ey) - 53)
              (new_location (Z.pos my) (Z.pos mx * 2 ^ (53 + dy - dx) mod Z.pos my)))
    as (m' & e' & E & Hb); [lia | lia |].
  exists m', e'. split; [exact E | lia].
Qed.

Lemma SFdiv_scale (sx sy : bool) (mx my : positive) (ex ey k : Z) :
  let dx := Z.pos (digits2_pos mx) in
  let dy := Z.pos (digits2_pos my) in
  0 <= k -> dx <= 53 -> dy <= 53 ->
  -1074 <= dx + ex - (dy + ey) - 53 ->
  SF64div (S754_finite sx mx (ex + k)) (S754_finite sy my ey) =
    SFscale k (SF64div (S754_finite sx mx ex) (S754_finite sy my ey)).
Proof.
  intros dx dy Hk Hdx Hdy HE. unfold SF64div, SFdiv.
  rewrite (SFdiv_core_normal mx my ex ey Hdx Hdy HE).
  rewrite (SFdiv_core_normal mx my (ex + k) ey Hdx Hdy) by (fold dx dy; lia).
  fold dx dy.
  replace (dx + (ex + k) - (dy + ey) - 53) with (dx + ex - (dy + ey) - 53 + k) by lia.
  apply binary_round_aux_shift; assumption.
Qed.

(** ** Valid numbers *)

Lemma bounded_inv (m : positive) (e : Z) :
  bounded prec emax m e = true ->
  Z.pos (digits2_pos m) <= 53 /\ -1074 <= e <= 971 /\
  (-1074 < e -> digits2_pos m = 53%positive).
Proof.
  unfold bounded, canonical_mantissa. rewrite fexp_eq. intros H.
  apply andb_prop in H. destruct H as [Hc Hb].
  apply Z.eqb_eq in Hc. apply Z.leb_le in Hb. unfold emax, prec in Hb.
  repeat split; lia.
Qed.

Lemma Prim2SF_finite_inv (x : float) (s : bool) (m : positive) (e : Z) :
  Prim2SF x = S754_finite s m e ->
  Z.pos (digits2_pos m) <= 53 /\ -1074 <= e <= 971 /\
  (-1074 < e -> digits2_pos m = 53%positive).
Proof.
  intros H. pose proof (Prim2SF_valid x) as Hv. rewrite H in Hv. apply bounded_inv, Hv.
Qed.

(** ** Doubling *)

Lemma iter_shr_1_52 (m : positive) :
  iter_pos shr_1 52
    {| shr_m := Z.pos (Pos.iter xO m 52); shr_r := false; shr_s := false |} =
  {| shr_m := Z.pos m; shr_r := false; shr_s := false |}.
Proof. reflexivity. Qed.

Lemma SFmul_one_finite (s : bool) (m : positive) (e : Z) :
  digits2_pos m = 53%positive -> -1022 <= e <= 971 ->
  binary_round_aux prec emax s (Z.pos (4503599627370496 * m)) (e - 52) loc_Exact =
    S754_finite s m e.
Proof.
  intros Hd He. change (4503599627370496 * m)%positive with (Pos.iter xO m 52).
  unfold binary_round_aux.
  destruct (shr_fexp_normal (Z.pos (Pos.iter xO m 52)) (e - 52) loc_Exact ltac:(lia))
    as [E1 _].
  rewrite E1. cbn [Zdigits2]. rewrite digits2_pos_iter_xO, Hd.
  change (Z.max (Z.pos (53 + 52) - 53) 0) with 52.
  cbn [shr shr_record_of_loc]. rewrite iter_shr_1_52.
  cbn [shr_m loc_of_shr_record round_nearest_even].
  destruct (shr_fexp_normal (Z.pos m) (e - 52 + 52) loc_Exact ltac:(lia)) as [E2 _].
  rewrite E2. cbn [Zdigits2]. rewrite Hd. change (Z.max (53 - 53) 0) with 0.
  cbn [shr shr_record_of_loc shr_m].
  replace (e - 52 + 52) with e by lia.
  destruct (Z.leb_spec e (emax - prec)) as [_|H]; [reflexivity|].
  unfold emax, prec in H. lia.
Qed.

(** Multiplying a number by two raises its exponent. *)
Lemma SFmul_two (x : spec_float) :
  valid_binary x = true ->
  (forall s m e, x = S754_finite s m e -> -1022 <= e) ->
  SF64mul (Prim2SF 2) x = SFscale 1 x.
Proof.
  intros Hv He. change (Prim2SF 2) with (S754_finite false 4503599627370496 (-51)).
  destruct x as [s|s| |s m e]; try reflexivity.
  pose proof (He s m e eq_refl) as He'.
  destruct (bounded_inv m e Hv) as (_ & Hb & Hd).
  unfold SF64mul, SFmul. cbn [xorb].
  replace (-51 + e) with (e - 52 + 1) by lia.
  rewrite binary_round_aux_shift by lia.
  rewrite SFmul_one_finite by (try apply Hd; lia). reflexivity.
Qed.

(** ** Comparisons *)

Lemma SFeqb_refl (x : spec_float) : x <> S754_nan -> SFeqb x x = true.
Proof.
  destruct x as [s|s| |s m e]; intros H; try congruence; unfold SFeqb; simpl.
  - reflexivity.
  - destruct s; reflexivity.
  - destruct s; rewrite Z.compare_refl, Pos.compare_cont_refl; reflexivity.
Qed.

Lemma eqb_of_Prim2SF (a b : float) :
  Prim2SF a = Prim2SF b -> Prim2SF a <> S754_nan -> (a =? b)%float = true.
Proof.
  intros E H. rewrite FloatAxioms.eqb_spec, <- E. apply SFeqb_refl, H.
Qed.

(** A float whose magnitude lies between two positive numbers is a number
    with its exponent between theirs. *)
Lemma magnitude_between (lo hi x : float) (mlo mhi : positive) (elo ehi : Z) :
  Prim2SF lo = S754_finite false mlo elo ->
  Prim2SF hi = S754_finite false mhi ehi ->
  (lo <=? abs x)%float = true ->
  (abs x <=? hi)%float = true ->
  exists s m e, Prim2SF x = S754_finite s m e /\ elo <= e <= ehi.
Proof.
  intros Hlo Hhi H1 H2.
  rewrite FloatAxioms.leb_spec, FloatAxioms.abs_spec, Hlo in H1.
  rewrite FloatAxioms.leb_spec, FloatAxioms.abs_spec, Hhi in H2.
  destruct (Prim2SF x) as [s|s| |s m e]; try discriminate.
  exists s, m, e. split; [reflexivity|].
  unfold SFleb, SFcompare in H1, H2. cbn [SFabs] in H1, H2.
  destruct (Z.compare_spec elo e), (Z.compare_spec e ehi); try discriminate; lia.
Qed.

(** ** The seconds of a duration *)

Lemma above_weaken (L L' : Z) (s : bool) (x : spec_float) :
  L' <= L -> above L s x -> above L' s x.
Proof. destruct x; simpl; intuition lia. Qed.

Lemma above_not_nan (L : Z) (s : bool) (x : spec_float) : above L s x -> x <> S754_nan.
Proof. destruct x; simpl; intuition discriminate. Qed.

Lemma shr_fexp_snd_ge (m e : Z) (l : location) : e <= snd (shr_fexp prec emax m e l).
Proof. unfold shr_fexp, shr. destruct (_ - e); simpl; lia. Qed.

Lemma binary_round_aux_above (s : bool) (m e : Z) (l : location) :
  0 <= m -> above e s (binary_round_aux prec emax s m e l).
Proof.
  intros H. unfold binary_round_aux.
  pose proof (shr_fexp_nonneg m e l H) as H1.
  pose proof (shr_fexp_snd_ge m e l) as G1.
  destruct (shr_fexp prec emax m e l) as [mrs' e'].
  pose proof (shr_fexp_nonneg _ e' loc_Exact
                (round_nearest_even_nonneg _ (loc_of_shr_record mrs') H1)) as H2.
  pose proof (shr_fexp_snd_ge (round_nearest_even (shr_m mrs') (loc_of_shr_record mrs'))
                e' loc_Exact) as G2.
  destruct (shr_fexp prec emax _ e' loc_Exact) as [mrs'' e''].
  cbn [fst snd] in *. destruct (shr_m mrs'') as [|p|p]; [exact I| |lia].
  destruct (Z.leb e'' (emax - prec)); simpl; [split; [reflexivity | lia] | reflexivity].
Qed.

Lemma binary_round_above (s : bool) (m : positive) (e : Z) :
  above (e - 52) s (binary_round prec emax s m e).
Proof.
  unfold binary_round, shl_align. rewrite fexp_eq.
  pose proof (Pos2Z.is_pos (digits2_pos m)).
  destruct (Z.max (Z.pos (digits2_pos m) + e - 53) (-1074) - e) as [|p|p] eqn:E;
    (eapply above_weaken; [|apply binary_round_aux_above; lia]); lia.
Qed.

Lemma SFadd_above (L : Z) (s : bool) (x y : spec_float) :
  above L s x -> above L s y -> above (L - 52) s (SF64add x y).
Proof.
  destruct x as [sx|sx| |sx mx ex], y as [sy|sy| |sy my ey]; cbn [above];
    intros Hx Hy; try contradiction;
    try solve [ destruct sx, sy; cbn; intuition (subst; cbn; try reflexivity; try congruence; lia) ].
  destruct Hx as [-> Hx], Hy as [-> Hy]. unfold SF64add, SFadd.
  destruct s; cbn [cond_Zopp Z.opp Z.add binary_normalize];
    (eapply above_weaken; [|apply binary_round_above]); lia.
Qed.

Lemma SF_of_int_above (i : Z) : above (-52) (i <? 0) (SF_of_int i).
Proof.
  destruct i as [|p|p]; cbn [SF_of_int above]; [exact I| |];
    (split; [reflexivity | pose proof (Pos2Z.is_pos (digits2_pos p)); lia]).
Qed.

Lemma wrap64_in_range (z : Z) : time.in_int64 z -> time.wrap64 z = z.
Proof.
  unfold time.in_int64, time.min_int64, time.max_int64, time.wrap64. intros H.
  rewrite Z.mod_small; lia.
Qed.

Lemma quot_rem_Second (d : Z) :
  time.in_int64 d ->
  - 2 ^ 53 < Z.quot d time.Second < 2 ^ 53 /\
  - 2 ^ 53 < Z.rem d time.Second < 2 ^ 53 /\
  (0 <= d -> 0 <= Z.quot d time.Second /\ 0 <= Z.rem d time.Second) /\
  (d < 0 -> Z.quot d time.Second <= 0 /\ Z.rem d time.Second <= 0).
Proof.
  unfold time.in_int64, time.min_int64, time.max_int64.
  change time.Second with 1000000000. intros H.
  pose proof (Z.quot_rem' d 1000000000) as E.
  destruct (Z.le_gt_cases 0 d) as [Hd|Hd].
  - pose proof (Z.rem_bound_pos d 1000000000 Hd ltac:(lia)).
    pose proof (Z.quot_pos d 1000000000 Hd ltac:(lia)). lia.
  - pose proof (Z.rem_bound_pos (- d) 1000000000 ltac:(lia) ltac:(lia)) as Hr.
    pose proof (Z.quot_pos (- d) 1000000000 ltac:(lia) ltac:(lia)) as Hq.
    rewrite Z.rem_opp_l in Hr by lia. rewrite Z.quot_opp_l in Hq by lia. lia.
Qed.

Lemma Prim2SF_1e9 : Prim2SF 1e9 = S754_finite false 8388608000000000 (-23).
Proof. reflexivity. Qed.

Lemma Prim2SF_60 : Prim2SF 60 = S754_finite false 8444249301319680 (-47).
Proof. reflexivity. Qed.

(** A quotient by a constant with a full mantissa. *)
Lemma div_constant (x c : float) (s : bool) (m mc : positive) (e ec : Z) :
  Prim2SF x = S754_finite s m e ->
  Prim2SF c = S754_finite false mc ec ->
  digits2_pos mc = 53%positive ->
  -1074 < e ->
  -1074 <= e - ec - 53 ->
  e - ec - 51 <= 971 ->
  exists m' e',
    Prim2SF (x / c) = S754_finite s m' e' /\ e - ec - 53 <= e' <= e - ec - 51.
Proof.
  intros Hx Hc Hdc He Hlo Hhi.
  destruct (Prim2SF_finite_inv x s m e Hx) as (_ & Hb & Hd).
  destruct (Prim2SF_finite_inv c false mc ec Hc) as (_ & Hbc & _).
  assert (Hdx : digits2_pos m = 53%positive) by (apply Hd; lia).
  rewrite FloatAxioms.div_spec, Hx, Hc.
  destruct (SFdiv_normal s false m mc e ec) as (m' & e' & E & Hb');
    rewrite ?Hdx, ?Hdc; try lia.
  rewrite Hdx, Hdc in Hb'. rewrite xorb_false_r in E.
  exists m', e'. split; [|lia].
  rewrite E. destruct (Z.leb_spec e' 971); [reflexivity | lia].
Qed.

Lemma Seconds_above (d : time.Duration) :
  time.in_int64 d -> above (-134) (d <? 0) (Prim2SF (time.Seconds d)).
Proof.
  intros Hd. destruct (quot_rem_Second d Hd) as (Hq & Hn & Hpos & Hneg).
  unfold time.Seconds. cbv zeta. rewrite FloatAxioms.add_spec.
  change (-134) with (-82 - 52). apply SFadd_above.
  - rewrite Prim2SF_float64_of_int by exact Hq.
    apply above_weaken with (-52); [lia|].
    pose proof (SF_of_int_above (Z.quot d time.Second)) as H.
    destruct (Z.quot d time.Second) as [|p|p] eqn:E; [exact I| |];
      destruct (Z.ltb_spec d 0); try lia; exact H.
  - pose proof (Prim2SF_float64_of_int (Z.rem d time.Second) Hn) as En.
    destruct (Z.rem d time.Second) as [|p|p] eqn:E.
    + rewrite FloatAxioms.div_spec, En. exact I.
    + destruct (div_constant _ 1e9 _ _ _ _ _ En Prim2SF_1e9 eq_refl) as (m' & e' & E' & Hb);
        pose proof (Pos2Z.is_pos (digits2_pos p));
        pose proof (digits2_pos_le p 53 ltac:(lia)); try lia.
      rewrite E'. cbn [above]. destruct (Z.ltb_spec d 0); [lia|]. split; [reflexivity | lia].
    + destruct (div_constant _ 1e9 _ _ _ _ _ En Prim2SF_1e9 eq_refl) as (m' & e' & E' & Hb);
        pose proof (Pos2Z.is_pos (digits2_pos p));
        pose proof (digits2_pos_le p 53 ltac:(lia)); try lia.
      rewrite E'. cbn [above]. destruct (Z.ltb_spec d 0); [|lia]. split; [reflexivity | lia].
Qed.

(** ** Whole seconds *)

Lemma SFscale_finite (s : bool) (m : positive) (e : Z) :
  e + 1 <= 971 -> SFscale 1 (S754_finite s m e) = S754_finite s m (e + 1).
Proof.
  intros H. cbn [SFscale].
  destruct (Z.leb_spec (e + 1) (emax - prec)) as [_|Hov]; [reflexivity|].
  unfold emax, prec in Hov. lia.
Qed.


Lemma float64_of_int_is_integer (k : Z) :
  - 2 ^ 53 < k < 2 ^ 53 -> is_integer (time.float64_of_int k) k.
Proof.
  intros H. unfold is_integer. rewrite Prim2SF_float64_of_int by exact H.
  destruct k as [|p|p]; cbn [SF_of_int]; [reflexivity| |];
    pose proof (digits2_pos_le p 53 ltac:(lia)) as Hd;
    pose proof (Pos2Z.is_pos (digits2_pos p));
    (split; [lia|]);
    replace (- (Z.pos (digits2_pos p) - 53)) with (53 - Z.pos (digits2_pos p)) by lia;
    assert (0 < 2 ^ (53 - Z.pos (digits2_pos p))) by (apply Z.pow_pos_nonneg; lia).
  - rewrite Z2Pos.id by lia. reflexivity.
  - rewrite <- Pos2Z.opp_pos, Z2Pos.id by lia. lia.
Qed.

Lemma Seconds_whole (k : Z) :
  - 2 ^ 53 < k < 2 ^ 53 ->
  time.Seconds (k * time.Second) = time.float64_of_int k.
Proof.
  intros H. unfold time.Seconds. cbv zeta.
  rewrite Z.quot_mul, Z.rem_mul by discriminate.
  change (time.float64_of_int 0 / 1e9)%float with 0%float.
  apply Prim2SF_inj. rewrite FloatAxioms.add_spec, Prim2SF_float64_of_int by exact H.
  destruct k; reflexivity.
Qed.

Lemma double_mantissa (p : positive) :
  Z.pos p < 2 ^ 52 ->
  Z.to_pos (Z.pos p~0 * 2 ^ (53 - Z.pos (Pos.succ (digits2_pos p)))) =
  Z.to_pos (Z.pos p * 2 ^ (53 - Z.pos (digits2_pos p))).
Proof.
  intros H. pose proof (digits2_pos_le p 52 H) as Hd.
  pose proof (Pos2Z.is_pos (digits2_pos p)).
  f_equal. rewrite Pos2Z.inj_succ, Pos2Z.inj_xO.
  replace (53 - Z.pos (digits2_pos p))
    with (Z.succ (53 - Z.succ (Z.pos (digits2_pos p)))) by lia.
  rewrite Z.pow_succ_r by lia. ring.
Qed.

Lemma SF_of_int_double (k : Z) :
  - 2 ^ 52 < k < 2 ^ 52 -> SF_of_int (2 * k) = SFscale 1 (SF_of_int k).
Proof.
  intros H. destruct k as [|p|p]; [reflexivity| |];
    pose proof (Pos2Z.is_pos (digits2_pos p));
    pose proof (digits2_pos_le p 52 ltac:(lia));
    [change (2 * Z.pos p) with (Z.pos p~0) | change (2 * Z.neg p) with (Z.neg p~0)];
    cbn [SF_of_int digits2_pos];
    rewrite SFscale_finite, double_mantissa by lia;
    rewrite Pos2Z.inj_succ; f_equal; lia.
Qed.

(** ** Doubling a rate or a duration *)

Lemma mul_two_scale (x : float) :
  (forall s m e, Prim2SF x = S754_finite s m e -> -1022 <= e) ->
  Prim2SF (2 * x) = SFscale 1 (Prim2SF x).
Proof.
  intros H. rewrite FloatAxioms.mul_spec. apply SFmul_two; [apply Prim2SF_valid | exact H].
Qed.

Lemma ordinary_exponent (x : float) :
  ordinary x -> exists s m e, Prim2SF x = S754_finite s m e /\ -752 <= e <= 648.
Proof.
  intros [H1 H2].
  apply (magnitude_between 0x1p-700 0x1p+700 x 4503599627370496 4503599627370496);
    [reflexivity | reflexivity | exact H1 | exact H2].
Qed.

(** The rate per second of a rate that is a number with room around it. *)
Lemma per_second (x : float) (s : bool) (m : positive) (e : Z) :
  Prim2SF x = S754_finite s m e -> -1000 <= e <= 960 ->
  exists m2 e2,
    Prim2SF (x / 60 / 60) = S754_finite s m2 e2 /\ e - 12 <= e2 <= e - 8.
Proof.
  intros Hx He.
  destruct (div_constant x 60 s m _ e _ Hx Prim2SF_60 eq_refl) as (m1 & e1 & E1 & H1);
    try lia.
  destruct (div_constant (x / 60) 60 s m1 _ e1 _ E1 Prim2SF_60 eq_refl)
    as (m2 & e2 & E2 & H2); try lia.
  exists m2, e2. split; [exact E2 | lia].
Qed.

Lemma div_60_double (x y : float) (s : bool) (m : positive) (e : Z) :
  Prim2SF x = S754_finite s m e -> -1000 <= e <= 960 ->
  Prim2SF y = SFscale 1 (Prim2SF x) ->
  Prim2SF (y / 60) = SFscale 1 (Prim2SF (x / 60)).
Proof.
  intros Hx He Hy.
  destruct (Prim2SF_finite_inv x s m e Hx) as (_ & _ & Hd).
  rewrite !FloatAxioms.div_spec, Hy, Hx, Prim2SF_60, SFscale_finite by lia.
  apply (SFdiv_scale s false m 8444249301319680 e (-47) 1); rewrite ?Hd by lia;
    cbn [digits2_pos]; lia.
Qed.

Lemma per_second_double (x : float) (s : bool) (m : positive) (e : Z) :
  Prim2SF x = S754_finite s m e -> -900 <= e <= 900 ->
  Prim2SF (2 * x / 60 / 60) = SFscale 1 (Prim2SF (x / 60 / 60)).
Proof.
  intros Hx He.
  destruct (div_constant x 60 s m _ e _ Hx Prim2SF_60 eq_refl) as (m1 & e1 & E1 & H1);
    try lia.
  apply (div_60_double (x / 60) (2 * x / 60) s m1 e1 E1); [lia|].
  apply (div_60_double x (2 * x) s m e Hx); [lia|].
  apply mul_two_scale. intros s' m' e' E. rewrite Hx in E. injection E as _ _ <-. lia.
Qed.

Lemma SFscale_not_nan (x : spec_float) : x <> S754_nan -> SFscale 1 x <> S754_nan.
Proof.
  destruct x as [s|s| |s m e]; cbn [SFscale]; try congruence.
  intros _. destruct (e + 1 <=? emax - prec); discriminate.
Qed.

(** A product and its double. *)
Lemma mul_above (p t : float) (s st : bool) (m : positive) (e L : Z) :
  Prim2SF p = S754_finite s m e ->
  above L st (Prim2SF t) ->
  above (e + L) (xorb s st) (Prim2SF (p * t)).
Proof.
  intros Hp Ht. rewrite FloatAxioms.mul_spec, Hp.
  destruct (Prim2SF t) as [s'|s'| |s' m' e']; cbn [above] in Ht; try contradiction.
  - exact I.
  - subst s'. reflexivity.
  - destruct Ht as [-> Ht]. unfold SF64mul, SFmul.
    eapply above_weaken; [|apply binary_round_aux_above; lia]. lia.
Qed.

Lemma mul_double_l (p p2 t : float) (s st : bool) (m : positive) (e L : Z) :
  Prim2SF p = S754_finite s m e ->
  above L st (Prim2SF t) ->
  -1022 <= e + L -> e + 1 <= 971 ->
  Prim2SF p2 = SFscale 1 (Prim2SF p) ->
  (p2 * t =? 2 * (p * t))%float = true.
Proof.
  intros Hp Ht HL He E.
  pose proof (mul_above p t s st m e L Hp Ht) as Hpt.
  assert (H2 : Prim2SF (2 * (p * t)) = SFscale 1 (Prim2SF (p * t))).
  { apply mul_two_scale. intros s' m' e' E'. rewrite E' in Hpt. cbn [above] in Hpt. lia. }
  assert (H1 : Prim2SF (p2 * t) = SFscale 1 (Prim2SF (p * t))).
  { rewrite !FloatAxioms.mul_spec, E, Hp, SFscale_finite by lia.
    destruct (Prim2SF t) as [s'|s'| |s' m' e']; cbn [above] in Ht; try contradiction;
      try reflexivity.
    apply SFmul_scale_l; lia. }
  apply eqb_of_Prim2SF.
  - rewrite H1, H2. reflexivity.
  - rewrite H1. apply SFscale_not_nan. eapply above_not_nan, Hpt.
Qed.

Lemma mul_double_r (p t t2 : float) (s st : bool) (m : positive) (e L : Z) :
  Prim2SF p = S754_finite s m e ->
  above L st (Prim2SF t) ->
  (forall s' m' e', Prim2SF t = S754_finite s' m' e' -> e' + 1 <= 971) ->
  -1022 <= e + L ->
  Prim2SF t2 = SFscale 1 (Prim2SF t) ->
  (p * t2 =? 2 * (p * t))%float = true.
Proof.
  intros Hp Ht Hu HL E.
  pose proof (mul_above p t s st m e L Hp Ht) as Hpt.
  assert (H2 : Prim2SF (2 * (p * t)) = SFscale 1 (Prim2SF (p * t))).
  { apply mul_two_scale. intros s' m' e' E'. rewrite E' in Hpt. cbn [above] in Hpt. lia. }
  assert (H1 : Prim2SF (p * t2) = SFscale 1 (Prim2SF (p * t))).
  { rewrite !FloatAxioms.mul_spec, E, Hp.
    destruct (Prim2SF t) as [s'|s'| |s' m' e']; cbn [above] in Ht; try contradiction;
      try reflexivity.
    rewrite SFscale_finite by (apply (Hu s' m' e' eq_refl)).
    apply SFmul_scale_r; lia. }
  apply eqb_of_Prim2SF.
  - rewrite H1, H2. reflexivity.
  - rewrite H1. apply SFscale_not_nan. eapply above_not_nan, Hpt.
Qed.

(** ** The cost function *)

Lemma in_int64_whole_seconds (k : Z) :
  time.in_int64 (2 * (k * time.Second)) -> - 2 ^ 52 < k < 2 ^ 52.
Proof.
  unfold time.in_int64, time.min_int64, time.max_int64.
  change time.Second with 1000000000. lia.
Qed.

(** C8, as the code has it.  In binary64 the cost is linear only up to
    rounding.  Doubling the rate doubles the cost exactly for every rate of
    ordinary size (a number with magnitude between [2^-700] and [2^700])
    and every duration; doubling the duration doubles the cost exactly when
    the duration is a whole number of seconds whose double still fits an
    [int64]. *)
Theorem Cost_doubles :
  (forall (r : float) (d : time.Duration),
      ordinary r -> time.in_int64 d ->
      (Cost (2 * r) d =? 2 * Cost r d)%float = true) /\
  (forall (r : float) (k : Z),
      ordinary r -> time.in_int64 (2 * (k * time.Second)) ->
      (Cost r (time.mul 2 (k * time.Second)) =? 2 * Cost r (k * time.Second))%float = true).
Proof.
  split.
  - intros r d Hr Hd.
    destruct (ordinary_exponent r Hr) as (s & m & e & Hx & He).
    destruct (per_second r s m e Hx ltac:(lia)) as (m2 & e2 & E2 & H2).
    unfold Cost. cbv zeta.
    apply (mul_double_l (r / 60 / 60) (2 * r / 60 / 60) (time.Seconds d)
             s (d <? 0) m2 e2 (-134) E2 (Seconds_above d Hd)); try lia.
    apply (per_second_double r s m e Hx). lia.
  - intros r k Hr Hk.
    pose proof (in_int64_whole_seconds k Hk) as Hk'.
    destruct (ordinary_exponent r Hr) as (s & m & e & Hx & He).
    destruct (per_second r s m e Hx ltac:(lia)) as (m2 & e2 & E2 & H2).
    unfold time.mul. rewrite (wrap64_in_range _ Hk).
    replace (2 * (k * time.Second)) with (2 * k * time.Second) by ring.
    unfold Cost. cbv zeta. rewrite !Seconds_whole by lia.
    apply (mul_double_r (r / 60 / 60) (time.float64_of_int k) (time.float64_of_int (2 * k))
             s (k <? 0) m2 e2 (-52) E2).
    + rewrite Prim2SF_float64_of_int by lia. apply SF_of_int_above.
    + intros s' m' e' E. rewrite Prim2SF_float64_of_int in E by lia.
      apply (f_equal (fun x => match x with S754_finite _ _ e0 => e0 | _ => 0 end)) in E.
      destruct k as [|p|p]; cbn [SF_of_int] in E; cbv beta iota in E;
        try (pose proof (digits2_pos_le p 52 ltac:(lia))); lia.
    + lia.
    + rewrite !Prim2SF_float64_of_int by lia. apply SF_of_int_double. lia.
Qed.

Lemma Cost_doubles_witness :
  (Cost (2 * 100) time.Hour =? 2 * Cost 100 time.Hour)%float = true /\
  (Cost 100 (time.mul 2 (1800 * time.Second)) =? 2 * Cost 100 (1800 * time.Second))%float = true.
Proof.
  split.
  - apply (proj1 Cost_doubles); [split; reflexivity | split; discriminate].
  - apply (proj2 Cost_doubles); [split; reflexivity | split; discriminate].
Defined.

(** Linearity as the specification words it fails on the code: doubling
    559ms does not double the cost at rate 100 (the seconds of 1118ms are
    not twice those of 559ms once rounded), and doubling the largest finite
    rate gives an infinite cost. *)
Lemma Cost_is_not_linear :
  (Cost 100 (time.mul 2 (559 * time.Millisecond))
     =? 2 * Cost 100 (559 * time.Millisecond))%float = false /\
  (Cost (2 * 0x1.fffffffffffffp+1023) time.Second
     =? 2 * Cost 0x1.fffffffffffffp+1023 time.Second)%float = false.
Proof. split; reflexivity. Qed.

(** C1, as the code has it.  [Cost] is a function of its two arguments: the
    binary64 product of the rate per second, [hourlyRate / 60 / 60], and
    [duration.Seconds()], every operation rounded to the nearest binary64.
    For a whole number of seconds the seconds factor is that number,
    exactly.  [Cost(150, 1h)] is 150; [Cost(9.95, 30min)] is
    4.9750000000000005, the binary64 next above 4.975. *)
Theorem Cost_is_rounded_product :
  (forall (r : float) (d : time.Duration),
      Cost r d = (r / 60 / 60 * time.Seconds d)%float) /\
  (forall k : Z,
      time.in_int64 (k * time.Second) -> is_integer (time.Seconds (k * time.Second)) k) /\
  Cost 150 time.Hour = 150%float /\
  Cost 9.95 (30 * time.Minute) = 4.9750000000000005%float /\
  4.9750000000000005%float = next_up 4.975.
Proof.
  split; [reflexivity|]. split; [|repeat split].
  intros k Hk.
  assert (Hk' : - 2 ^ 53 < k < 2 ^ 53).
  { unfold time.in_int64, time.min_int64, time.max_int64 in Hk.
    change time.Second with 1000000000 in Hk. lia. }
  rewrite Seconds_whole by exact Hk'. apply float64_of_int_is_integer, Hk'.
Qed.

Lemma Cost_is_rounded_product_witness :
  is_integer (time.Seconds (3600 * time.Second)) 3600.
Proof.
  apply (proj1 (proj2 Cost_is_rounded_product) 3600). split; discriminate.
Defined.

(** The formula of the specification fails on the code: [Cost(9.95, 30min)]
    is not 4.975, and [5 / 60 / 60] is not [5 / 3600]. *)
Lemma Cost_is_not_the_formula :
  (Cost 9.95 (30 * time.Minute) =? 4.975)%float = false /\
  (Cost 5 time.Second =? cost_formula 5 time.Second)%float = false.
Proof. split; reflexivity. Qed.

(** C4, on the code.  A duration under one second does not cost 0: half a
    second at 3600 an hour costs 0.5, against the comment above [Cost]. *)
Theorem Cost_below_one_second_is_not_zero :
  500 * time.Millisecond < time.Second /\
  Cost 3600 (500 * time.Millisecond) = 0.5%float /\
  (Cost 3600 (500 * time.Millisecond) =? 0)%float = false.
Proof. repeat split. Qed.

(** ** The scanner *)

Lemma lines_from_scan_line (data : string) :
  forall (taken : Z) (acc : string),
    acc <> EmptyString \/ data <> EmptyString ->
    bufio.lines_from taken acc data =
      match bufio.scan_line taken acc data with
      | inl (t, rest) => bufio.dropCR t :: bufio.lines_from 0 EmptyString rest
      | inr chunk => [EmptyString; bufio.dropCR chunk]
      end.
Proof.
  induction data as [|c data IH]; intros taken acc H; simpl.
  - destruct acc; [destruct H; congruence | reflexivity].
  - destruct (strconv.code c =? 10); [reflexivity|].
    destruct (bufio.MaxScanTokenSize <=? taken + 1); [reflexivity|].
    apply IH. left. destruct acc; discriminate.
Qed.

Lemma Lines_nil (data : string) :
  bufio.Lines data = [] -> data = EmptyString.
Proof.
  destruct data as [|c data]; [reflexivity|]. unfold bufio.Lines.
  rewrite lines_from_scan_line by (right; discriminate).
  destruct (bufio.scan_line 0 EmptyString (String c data)) as [[t rest]|chunk]; discriminate.
Qed.

(** The bytes of a full buffer are some. *)
Lemma scan_line_chunk (data : string) :
  forall (taken : Z) (acc chunk : string),
    bufio.scan_line taken acc data = inr chunk -> chunk <> EmptyString.
Proof.
  induction data as [|c data IH]; intros taken acc chunk; simpl; [discriminate|].
  destruct (strconv.code c =? 10); [discriminate|].
  destruct (bufio.MaxScanTokenSize <=? taken + 1); [|apply IH].
  intros H. injection H as <-. destruct acc; discriminate.
Qed.

(** [Scan] delivers the texts of the scanner in order, then empty tokens. *)
Lemma Scan_next (sc : bufio.Scanner) (line : string) (rest : list string) :
  bufio.Texts sc = line :: rest ->
  bufio.Text (snd (bufio.Scan sc)) = line /\
  bufio.Texts (snd (bufio.Scan sc)) = rest.
Proof.
  unfold bufio.Texts, bufio.Scan, bufio.Lines.
  destruct (bufio.failed sc), (bufio.buf sc) as [|c data] eqn:E; try discriminate.
  - intros H. injection H as <- <-. split; reflexivity.
  - rewrite lines_from_scan_line by (right; discriminate).
    pose proof (scan_line_chunk (String c data) 0 EmptyString) as Hchunk.
    destruct (bufio.scan_line 0 EmptyString (String c data)) as [[t rest']|chunk].
    + intros H. injection H as <- <-. split; reflexivity.
    + intros H. injection H as <- <-. specialize (Hchunk chunk eq_refl).
      cbn [snd bufio.Text bufio.token bufio.failed bufio.buf].
      destruct chunk; [contradiction | split; reflexivity].
Qed.

Lemma Scan_end (sc : bufio.Scanner) :
  bufio.Texts sc = [] ->
  bufio.Text (snd (bufio.Scan sc)) = EmptyString /\
  bufio.Texts (snd (bufio.Scan sc)) = [].
Proof.
  unfold bufio.Texts, bufio.Scan.
  destruct (bufio.failed sc) eqn:F.
  - destruct (bufio.buf sc); [|discriminate]. intros _. split; reflexivity.
  - intros H. apply Lines_nil in H. rewrite H. split; reflexivity.
Qed.

Lemma Texts_NewScanner (r0 : Reader) : bufio.Texts (bufio.NewScanner r0) = bufio.Lines r0.
Proof. reflexivity. Qed.

(** ** Loops *)

Lemma loop_S {S : Type} (body : S -> flow S) (n : nat) (s : S) :
  loop body (Datatypes.S n) s =
    match body s with
    | Break s' => Some s'
    | Continue s' => loop body n s'
    end.
Proof. reflexivity. Qed.

Lemma passes_S {S : Type} (body : S -> flow S) (n : nat) (s : S) :
  passes body (Datatypes.S n) s =
    match body s with
    | Break s' => Break s'
    | Continue s' => passes body n s'
    end.
Proof. reflexivity. Qed.

Lemma loop_passes {S : Type} (body : S -> flow S) (n : nat) (s : S) :
  loop body n s =
    match passes body n s with
    | Continue _ => None
    | Break s' => Some s'
    end.
Proof.
  revert s. induction n as [|n IH]; intros s; simpl; [reflexivity|].
  destruct (body s); [apply IH | reflexivity].
Qed.

Lemma passes_add {S : Type} (body : S -> flow S) (a b : nat) (s : S) :
  passes body (a + b) s =
    match passes body a s with
    | Continue s' => passes body b s'
    | Break s' => Break s'
    end.
Proof.
  revert s. induction a as [|a IH]; intros s; simpl; [reflexivity|].
  destruct (body s); [apply IH | reflexivity].
Qed.

Lemma loop_more_fuel {S : Type} (body : S -> flow S) (n k : nat) (s s' : S) :
  loop body n s = Some s' -> loop body (n + k) s = Some s'.
Proof.
  revert s. induction n as [|n IH]; intros s; simpl; [discriminate|].
  destruct (body s); [apply IH | trivial].
Qed.

(** ** The rate collector *)

Section RateCollectorFacts.

Variable ParseFloat : string -> float * option strconv.error.

Let body := GetRate_body ParseFloat.

Lemma Fprint_twice (o : Writer) (a b : string) :
  fmt.Fprint (fmt.Fprint o a) b = (o ++ [a; b])%list.
Proof. unfold fmt.Fprint. rewrite <- app_assoc. reflexivity. Qed.

Lemma body_sentinel (st : collecting) (s : string) (post : list string) :
  bufio.Texts (scanner st) = s :: post ->
  is_sentinel s = true ->
  body st = Break {| scanner := snd (bufio.Scan (scanner st));
                     out := (out st ++ [prompt_next; prompt_quit])%list;
                     rate := rate st |}.
Proof.
  intros HL Hs. destruct (Scan_next _ _ _ HL) as [Ht _].
  unfold body, GetRate_body. cbv zeta. rewrite Ht, Hs, !Fprint_twice. reflexivity.
Qed.

Lemma body_line (st : collecting) (line : string) :
  bufio.Text (snd (bufio.Scan (scanner st))) = line ->
  not_sentinel line ->
  body st = Continue {| scanner := snd (bufio.Scan (scanner st));
                        out := (out st ++ writes_for_line ParseFloat line)%list;
                        rate := sum_from (rate st) (parsed_values ParseFloat [line]) |}.
Proof.
  intros Ht Hs. unfold body, GetRate_body. cbv zeta. rewrite Ht, Hs, !Fprint_twice.
  unfold writes_for_line, fails_to_parse, parsed_values, sum_from. simpl.
  destruct (ParseFloat line) as [v [e|]]; simpl.
  - unfold fmt.Fprint. rewrite <- app_assoc. reflexivity.
  - reflexivity.
Qed.

Lemma sum_from_app (start : float) (xs ys : list float) :
  sum_from start (xs ++ ys) = sum_from (sum_from start xs) ys.
Proof. apply fold_left_app. Qed.

Lemma parsed_values_cons (line : string) (lines : list string) :
  parsed_values ParseFloat (line :: lines) =
    (parsed_values ParseFloat [line] ++ parsed_values ParseFloat lines)%list.
Proof. unfold parsed_values. simpl. rewrite app_nil_r. reflexivity. Qed.

(** The loop reads the lines before the first sentinel and leaves at it. *)
Lemma loop_until_sentinel (pre : list string) :
  forall (st : collecting) (s : string) (post : list string),
    bufio.Texts (scanner st) = (pre ++ s :: post)%list ->
    Forall not_sentinel pre ->
    is_sentinel s = true ->
    exists st',
      loop body (Datatypes.S (List.length pre)) st = Some st' /\
      rate st' = sum_from (rate st) (parsed_values ParseFloat pre) /\
      out st' = (out st ++ flat_map (writes_for_line ParseFloat) pre
                        ++ [prompt_next; prompt_quit])%list /\
      bufio.Texts (scanner st') = post.
Proof.
  induction pre as [|line pre IH]; intros st s post HL Hpre Hs.
  - simpl in HL. eexists. simpl. rewrite (body_sentinel _ _ _ HL Hs).
    split; [reflexivity|]. simpl. repeat split.
    apply (Scan_next _ _ _ HL).
  - simpl in HL. inversion Hpre as [|? ? Hline Hpre']; subst.
    destruct (Scan_next _ _ _ HL) as [Ht HL'].
    cbn [List.length]. rewrite loop_S, (body_line _ _ Ht Hline).
    match goal with |- context [loop body _ ?x] => set (st1 := x) end.
    destruct (IH st1 s post HL' Hpre' Hs) as (st' & Hloop & Hrate & Hout & Hrest).
    subst st1.
    exists st'. split; [exact Hloop|].
    cbn [scanner out rate] in *. repeat split.
    + rewrite Hrate, (parsed_values_cons line pre), sum_from_app. reflexivity.
    + rewrite Hout. cbn [flat_map]. rewrite <- !app_assoc. reflexivity.
    + exact Hrest.
Qed.

(** Without a sentinel every pass continues: over the lines first, then
    over the empty token of the exhausted scanner. *)
Lemma body_without_sentinel (st : collecting) :
  Forall not_sentinel (bufio.Texts (scanner st)) ->
  exists st',
    body st = Continue st' /\
    Forall not_sentinel (bufio.Texts (scanner st')).
Proof.
  intros HF. destruct (bufio.Texts (scanner st)) as [|line rest] eqn:HL.
  - destruct (Scan_end _ HL) as [Ht HL'].
    eexists. split.
    + apply (body_line st EmptyString Ht). reflexivity.
    + cbn [scanner]. rewrite HL'. constructor.
  - inversion HF as [|? ? Hline Hrest]; subst.
    destruct (Scan_next _ _ _ HL) as [Ht HL'].
    eexists. split.
    + apply (body_line st _ Ht Hline).
    + cbn [scanner]. rewrite HL'. exact Hrest.
Qed.

Lemma loop_without_sentinel (fuel : nat) :
  forall st : collecting,
    Forall not_sentinel (bufio.Texts (scanner st)) ->
    loop body fuel st = None.
Proof.
  induction fuel as [|fuel IH]; intros st HF; [reflexivity|].
  destruct (body_without_sentinel st HF) as (st' & Hb & HF').
  rewrite loop_S, Hb. apply IH, HF'.
Qed.

(** The passes over the lines of a text without a sentinel. *)
Lemma passes_over_lines (lines : list string) :
  forall st : collecting,
    bufio.Texts (scanner st) = lines ->
    Forall not_sentinel lines ->
    exists st',
      passes body (List.length lines) st = Continue st' /\
      bufio.Texts (scanner st') = [] /\
      rate st' = sum_from (rate st) (parsed_values ParseFloat lines) /\
      out st' = (out st ++ flat_map (writes_for_line ParseFloat) lines)%list.
Proof.
  induction lines as [|line lines IH]; intros st HL HF.
  - exists st. simpl. rewrite app_nil_r. auto.
  - inversion HF as [|? ? Hline HF']; subst.
    destruct (Scan_next _ _ _ HL) as [Ht HL'].
    cbn [List.length]. rewrite passes_S, (body_line _ _ Ht Hline).
    match goal with |- context [passes body _ ?x] => set (st1 := x) end.
    destruct (IH st1 HL' HF') as (st' & Hp & Hend & Hrate & Hout).
    subst st1.
    exists st'. cbn [scanner out rate] in *. repeat split; try assumption.
    + rewrite Hrate, (parsed_values_cons line lines), sum_from_app. reflexivity.
    + rewrite Hout. cbn [flat_map]. rewrite <- !app_assoc. reflexivity.
Qed.

Lemma passes_at_end (k : nat) :
  forall st : collecting,
    bufio.Texts (scanner st) = [] ->
    fails_to_parse ParseFloat EmptyString = true ->
    exists st',
      passes body k st = Continue st' /\
      bufio.Texts (scanner st') = [] /\
      rate st' = rate st /\
      out st' = (out st ++ idle_writes k)%list.
Proof.
  induction k as [|k IH]; intros st HL Hfail.
  - exists st. unfold idle_writes. simpl. rewrite app_nil_r. auto.
  - destruct (Scan_end _ HL) as [Ht HL'].
    rewrite passes_S, (body_line st EmptyString Ht) by reflexivity.
    match goal with |- context [passes body _ ?x] => set (st1 := x) end.
    destruct (IH st1) as (st' & Hp & Hend & Hrate & Hout); [| exact Hfail |].
    + subst st1. cbn [scanner]. exact HL'.
    + subst st1. exists st'. cbn [scanner out rate] in *. repeat split; try assumption.
      * rewrite Hrate. unfold parsed_values, fails_to_parse in *. simpl.
        destruct (ParseFloat EmptyString) as [v [e|]]; [reflexivity | discriminate].
      * rewrite Hout. unfold writes_for_line. rewrite Hfail.
        unfold idle_writes. simpl. rewrite <- !app_assoc. reflexivity.
Qed.

End RateCollectorFacts.

(** ** Retry prompts *)

Lemma retry_prompts_app (a b : Writer) :
  retry_prompts (a ++ b)%list = (retry_prompts a + retry_prompts b)%nat.
Proof. unfold retry_prompts. rewrite filter_app, length_app. reflexivity. Qed.

Lemma is_retry_prompt_retry (line : string) :
  is_retry_prompt (prompt_retry line) = true.
Proof.
  unfold is_retry_prompt, prompt_retry. simpl.
  match goal with |- String.prefix EmptyString ?x = true => destruct x; reflexivity end.
Qed.

Lemma retry_prompts_line (ParseFloat : string -> float * option strconv.error) (line : string) :
  retry_prompts (writes_for_line ParseFloat line) =
    if fails_to_parse ParseFloat line then 1%nat else 0%nat.
Proof.
  unfold writes_for_line. rewrite retry_prompts_app.
  destruct (fails_to_parse ParseFloat line); [|reflexivity].
  unfold retry_prompts at 2. cbn [filter]. rewrite is_retry_prompt_retry. reflexivity.
Qed.

Lemma retry_prompts_lines (ParseFloat : string -> float * option strconv.error)
    (lines : list string) :
  retry_prompts (flat_map (writes_for_line ParseFloat) lines) =
    List.length (filter (fails_to_parse ParseFloat) lines).
Proof.
  induction lines as [|line lines IH]; [reflexivity|].
  cbn [flat_map filter]. rewrite retry_prompts_app, retry_prompts_line, IH.
  destruct (fails_to_parse ParseFloat line); reflexivity.
Qed.

Lemma retry_prompts_idle (k : nat) : retry_prompts (idle_writes k) = k.
Proof.
  induction k as [|k IH]; [reflexivity|].
  unfold idle_writes in *. cbn [repeat List.concat].
  rewrite retry_prompts_app, IH. reflexivity.
Qed.

Lemma GetRate_collects (ParseFloat : string -> float * option strconv.error)
    (m : Meeting) (pre post : list string) (s : string) (fuel : nat) :
  bufio.Lines (r m) = (pre ++ s :: post)%list ->
  Forall not_sentinel pre ->
  is_sentinel s = true ->
  (List.length pre < fuel)%nat ->
  exists st,
    loop (GetRate_body ParseFloat) fuel (GetRate_init m) = Some st /\
    rate st = sum_from 0 (parsed_values ParseFloat pre) /\
    out st = (w m ++ [prompt_intro]
                  ++ flat_map (writes_for_line ParseFloat) pre
                  ++ [prompt_next; prompt_quit])%list.
Proof.
  intros HL Hpre Hs Hfuel.
  destruct (loop_until_sentinel ParseFloat pre (GetRate_init m) s post HL Hpre Hs)
    as (st & Hloop & Hrate & Hout & _).
  exists st.
  replace fuel with (Datatypes.S (List.length pre) + (fuel - Datatypes.S (List.length pre)))%nat
    by lia.
  split; [apply loop_more_fuel, Hloop|]. split; [exact Hrate|].
  rewrite Hout. cbn [GetRate_init out]. unfold fmt.Fprint.
  rewrite <- !app_assoc. reflexivity.
Qed.

Lemma GetRate_never_returns (ParseFloat : string -> float * option strconv.error)
    (unread : bufio.Scanner -> Reader) (m : Meeting) :
  Forall not_sentinel (bufio.Lines (r m)) ->
  forall fuel : nat, GetRate ParseFloat unread fuel m = None.
Proof.
  intros HF fuel. unfold GetRate.
  rewrite (loop_without_sentinel ParseFloat fuel (GetRate_init m) HF). reflexivity.
Qed.

(** C5. With a sentinel line among the lines its scanner delivers,
    [GetRate] reads the lines up to the first line equal to [q] or [Q] and
    returns the sum of those that parse; each line that does not parse
    costs exactly one retry prompt and leaves the sum alone, and the call
    returns a rate, never an error.  The lines [100], [foo], [50], [q] give
    150 with one retry prompt; the single line [Q] gives 0.  (A line of
    [MaxScanTokenSize] bytes or more is not delivered, nor any line after
    it: [bufio.Lines].) *)
Theorem GetRate_sums_until_sentinel :
  (forall (ParseFloat : string -> float * option strconv.error)
          (unread : bufio.Scanner -> Reader) (m : Meeting)
          (pre post : list string) (s : string) (fuel : nat),
      bufio.Lines (r m) = (pre ++ s :: post)%list ->
      Forall not_sentinel pre ->
      is_sentinel s = true ->
      (List.length pre < fuel)%nat ->
      exists m',
        GetRate ParseFloat unread fuel m =
          Some (sum_from 0 (parsed_values ParseFloat pre), m') /\
        w m' = (w m ++ [prompt_intro]
                    ++ flat_map (writes_for_line ParseFloat) pre
                    ++ [prompt_next; prompt_quit])%list /\
        retry_prompts (w m') =
          (retry_prompts (w m)
           + List.length (filter (fails_to_parse ParseFloat) pre))%nat) /\
  (forall (unread : bufio.Scanner -> Reader) (flags : Flags),
      exists m',
        GetRate strconv.ParseFloat unread 4 (NewMeeting flags input_100_foo_50_q)
          = Some (150%float, m') /\
        retry_prompts (w m') = 1%nat) /\
  (forall (unread : bufio.Scanner -> Reader) (flags : Flags),
      exists m',
        GetRate strconv.ParseFloat unread 1 (NewMeeting flags "Q") = Some (0%float, m') /\
        retry_prompts (w m') = 0%nat).
Proof.
  split; [|split].
  - intros PF unread m pre post s fuel HL Hpre Hs Hfuel.
    destruct (GetRate_collects PF m pre post s fuel HL Hpre Hs Hfuel)
      as (st & Hloop & Hrate & Hout).
    unfold GetRate. rewrite Hloop.
    eexists. split; [rewrite Hrate; reflexivity|].
    cbn [w with_r with_w]. rewrite Hout. split; [reflexivity|].
    rewrite !retry_prompts_app, retry_prompts_lines. cbn. lia.
  - intros unread flags. eexists. split; vm_compute; reflexivity.
  - intros unread flags. eexists. split; vm_compute; reflexivity.
Qed.

Lemma GetRate_sums_until_sentinel_witness :
  exists m',
    GetRate strconv.ParseFloat bufio.buf 3
      (NewMeeting flags_no_rate ("7.5" ++ LF ++ "x" ++ LF ++ "Q" ++ LF ++ "9")) =
      Some (sum_from 0 (parsed_values strconv.ParseFloat ["7.5"; "x"]), m') /\
    retry_prompts (w m') = 1%nat.
Proof.
  destruct (proj1 GetRate_sums_until_sentinel strconv.ParseFloat bufio.buf
              (NewMeeting flags_no_rate ("7.5" ++ LF ++ "x" ++ LF ++ "Q" ++ LF ++ "9"))
              ["7.5"; "x"] ["9"] "Q" 3%nat)
    as (m' & HG & _ & Hn).
  - reflexivity.
  - repeat constructor.
  - reflexivity.
  - simpl. lia.
  - exists m'. split; [exact HG | exact Hn].
Defined.

(** *** A line that does not fit the buffer *)

Lemma string_app_assoc (a b c : string) : (a ++ b) ++ c = a ++ b ++ c.
Proof. induction a as [|x a IH]; simpl; [reflexivity | rewrite IH; reflexivity]. Qed.

Lemma lines_from_filled (n : nat) :
  forall (taken : Z) (acc rest : string),
    (0 < n)%nat ->
    taken + Z.of_nat n = bufio.MaxScanTokenSize ->
    bufio.lines_from taken acc (filled n ++ rest) =
      [EmptyString; bufio.dropCR (acc ++ filled n)].
Proof.
  induction n as [|n IH]; intros taken acc rest Hn Ht; [lia|].
  cbn [filled append bufio.lines_from].
  change (strconv.code "x" =? 10) with false. cbv iota.
  destruct (Z.leb_spec bufio.MaxScanTokenSize (taken + 1)) as [H|H].
  - assert (n = 0%nat) by lia. subst n. reflexivity.
  - rewrite IH by lia. rewrite string_app_assoc. reflexivity.
Qed.

Lemma Lines_long_line (rest : string) :
  bufio.Lines (long_line ++ rest) = [EmptyString; bufio.dropCR long_line].
Proof.
  unfold bufio.Lines, long_line. apply lines_from_filled.
  - unfold bufio.MaxScanTokenSize. lia.
  - unfold bufio.MaxScanTokenSize. lia.
Qed.

Lemma not_sentinel_long_line : not_sentinel (bufio.dropCR long_line).
Proof.
  unfold long_line.
  assert (H : (2 <= Z.to_nat bufio.MaxScanTokenSize)%nat)
    by (unfold bufio.MaxScanTokenSize; lia).
  destruct (Z.to_nat bufio.MaxScanTokenSize) as [|[|n]]; [lia | lia |].
  reflexivity.
Qed.

(** The claim as worded, for every input stream, fails on the code: a
    line of [MaxScanTokenSize] bytes does not fit the buffer of the
    scanner, which then delivers neither that line nor the sentinel line
    after it, and [GetRate] never returns. *)
Lemma GetRate_misses_sentinel_after_long_line :
  ~ (exists fuel result,
       GetRate strconv.ParseFloat bufio.buf fuel
         (NewMeeting flags_no_rate (long_line ++ LF ++ "q" ++ LF)) = Some result).
Proof.
  intros (fuel & result & H).
  rewrite GetRate_never_returns in H; [discriminate|].
  cbn [NewMeeting r]. rewrite Lines_long_line.
  constructor; [reflexivity|]. constructor; [apply not_sentinel_long_line | constructor].
Qed.

(** C10. When the lines the scanner delivers hold no sentinel, [GetRate]
    never returns.  Every read after the last of them yields the empty
    line, which is no sentinel; where it does not parse (as with
    [strconv.ParseFloat]), each further pass writes the prompts and one
    more retry prompt and leaves the sum as it was. *)
Theorem GetRate_without_sentinel_never_returns
    (ParseFloat : string -> float * option strconv.error)
    (unread : bufio.Scanner -> Reader) (m : Meeting) :
  Forall not_sentinel (bufio.Lines (r m)) ->
  (forall fuel : nat, GetRate ParseFloat unread fuel m = None) /\
  (fails_to_parse ParseFloat EmptyString = true ->
   forall k : nat,
      exists st,
        passes (GetRate_body ParseFloat)
               (List.length (bufio.Lines (r m)) + k) (GetRate_init m) = Continue st /\
        bufio.Texts (scanner st) = [] /\
        bufio.Text (snd (bufio.Scan (scanner st))) = EmptyString /\
        rate st = sum_from 0 (parsed_values ParseFloat (bufio.Lines (r m))) /\
        out st = (w m ++ [prompt_intro]
                      ++ flat_map (writes_for_line ParseFloat) (bufio.Lines (r m))
                      ++ idle_writes k)%list /\
        retry_prompts (out st) =
          (retry_prompts (w m)
           + List.length (filter (fails_to_parse ParseFloat) (bufio.Lines (r m)))
           + k)%nat).
Proof.
  intros HF. split; [apply GetRate_never_returns, HF|].
  intros Hfail k.
  destruct (passes_over_lines ParseFloat _ (GetRate_init m) eq_refl HF)
    as (st0 & Hp0 & Hend0 & Hrate0 & Hout0).
  destruct (passes_at_end ParseFloat k st0 Hend0 Hfail)
    as (st & Hp & Hend & Hrate & Hout).
  exists st. rewrite passes_add.
  cbn [GetRate_init scanner] in Hp0. rewrite Texts_NewScanner in Hp0. rewrite Hp0.
  split; [exact Hp|]. split; [exact Hend|].
  split; [apply (Scan_end _ Hend)|].
  split; [rewrite Hrate, Hrate0; reflexivity|].
  assert (Ho : out st = (w m ++ [prompt_intro]
                    ++ flat_map (writes_for_line ParseFloat) (bufio.Lines (r m))
                    ++ idle_writes k)%list).
  { rewrite Hout, Hout0. cbn [GetRate_init out]. unfold fmt.Fprint.
    rewrite <- !app_assoc. reflexivity. }
  split; [exact Ho|].
  rewrite Ho, !retry_prompts_app, retry_prompts_lines, retry_prompts_idle. cbn. lia.
Qed.

Lemma GetRate_without_sentinel_never_returns_witness :
  Forall not_sentinel (bufio.Lines ("100" ++ LF ++ "foo")) /\
  GetRate strconv.ParseFloat bufio.buf 1000
    (NewMeeting flags_no_rate ("100" ++ LF ++ "foo")) = None /\
  exists st,
    passes (GetRate_body strconv.ParseFloat) (2 + 3)
           (GetRate_init (NewMeeting flags_no_rate ("100" ++ LF ++ "foo"))) = Continue st /\
    rate st = 100%float /\
    retry_prompts (out st) = 4%nat.
Proof.
  assert (H1 : Forall not_sentinel (bufio.Lines ("100" ++ LF ++ "foo")))
    by (repeat constructor).
  split; [exact H1|].
  destruct (GetRate_without_sentinel_never_returns strconv.ParseFloat bufio.buf
              (NewMeeting flags_no_rate ("100" ++ LF ++ "foo")) H1) as [Hnever Hpasses].
  split; [exact (Hnever 1000%nat)|].
  destruct (Hpasses eq_refl 3%nat) as (st & Hp & _ & _ & Hrate & _ & Hn).
  exists st. split; [exact Hp|]. split; [exact Hrate | exact Hn].
Defined.

(** ** The ticking session *)

(** C6. A session that [Timer] starts runs exactly one termination
    strategy: the interactive one when the meeting's duration is zero, the
    fixed-duration one otherwise.  ([time.NewTicker] panics on a tick
    interval that is not positive; no session starts then.) *)
Theorem Timer_starts_one_strategy (m : Meeting) :
  0 < Ticks (f m) ->
  exists gs,
    Timer m = Some gs /\
    List.length (filter is_strategy gs) = 1%nat /\
    (MeetingDuration (f m) = 0 ->
       filter is_strategy gs = [go_UserInputStrategy]) /\
    (MeetingDuration (f m) <> 0 ->
       filter is_strategy gs = [go_FixedTimeStrategy (MeetingDuration (f m))]).
Proof.
  intros Hticks. unfold Timer.
  destruct (Z.leb_spec (Ticks (f m)) 0) as [H|_]; [lia|].
  eexists. split; [reflexivity|].
  destruct (Z.eqb_spec (MeetingDuration (f m)) 0) as [H0|H0]; cbn.
  - split; [reflexivity|]. split; [reflexivity | contradiction].
  - split; [reflexivity|]. split; [contradiction | reflexivity].
Qed.

Lemma Timer_starts_one_strategy_witness :
  exists gs,
    Timer (NewMeeting flags_ticks_2s EmptyString) = Some gs /\
    filter is_strategy gs = [go_FixedTimeStrategy time.Hour].
Proof.
  destruct (Timer_starts_one_strategy (NewMeeting flags_ticks_2s EmptyString))
    as (gs & HT & _ & _ & Hfixed).
  - reflexivity.
  - exists gs. split; [exact HT|]. apply Hfixed. discriminate.
Defined.

(** ** The display *)

Lemma append_assoc (a b c : string) : (a ++ b) ++ c = a ++ b ++ c.
Proof. induction a as [|x a IH]; simpl; [reflexivity | rewrite IH; reflexivity]. Qed.

Lemma append_nil_r (a : string) : a ++ EmptyString = a.
Proof. induction a as [|x a IH]; simpl; [reflexivity | rewrite IH; reflexivity]. Qed.

Lemma written_cons (chunk : string) (o : Writer) :
  written (chunk :: o) = chunk ++ written o.
Proof.
  unfold written. destruct o as [|x o]; simpl; [rewrite append_nil_r|]; reflexivity.
Qed.

Lemma written_app (a b : Writer) : written (a ++ b)%list = written a ++ written b.
Proof.
  induction a as [|x a IH]; [reflexivity|].
  rewrite <- app_comm_cons, !written_cons, IH, append_assoc. reflexivity.
Qed.

Lemma last_char_app (a b : string) :
  b <> EmptyString -> last_char (a ++ b) = last_char b.
Proof.
  intros Hb. induction a as [|c a IH]; [reflexivity|].
  simpl. rewrite IH. destruct (a ++ b) eqn:E; [|reflexivity].
  destruct a; simpl in E; [contradiction | discriminate].
Qed.

Lemma digits_of_digit (n : Z) :
  0 <= n < 10 ->
  exists d, fmt.digits_of n = String d EmptyString /\ strconv.is_digit d = true.
Proof.
  intros H. rewrite <- (Z2Nat.id n) by lia.
  assert (Hk : (Z.to_nat n < 10)%nat) by lia.
  revert Hk. generalize (Z.to_nat n) as k. intros k Hk.
  do 10 (destruct k as [|k]; [eexists; split; reflexivity|]).
  lia.
Qed.

Lemma two_digits_shape (c : Z) :
  0 <= c < 100 ->
  exists d1 d2,
    fmt.two_digits c = String d1 (String d2 EmptyString) /\
    strconv.is_digit d1 = true /\ strconv.is_digit d2 = true.
Proof.
  intros H. unfold fmt.two_digits.
  destruct (digits_of_digit (c / 10)) as (d1 & E1 & H1).
  { split; [apply Z.div_pos; lia | apply Z.div_lt_upper_bound; lia]. }
  destruct (digits_of_digit (c mod 10)) as (d2 & E2 & H2).
  { apply Z.mod_pos_bound. lia. }
  exists d1, d2. rewrite E1, E2. auto.
Qed.

(** [%.2f] of a number ends with a point and two digits. *)
Lemma f2_number (x : float) :
  match Prim2SF x with
  | S754_nan => fmt.f2 x = "NaN"
  | S754_infinity false => fmt.f2 x = "+Inf"
  | S754_infinity true => fmt.f2 x = "-Inf"
  | _ => two_decimals (fmt.f2 x)
  end.
Proof.
  unfold fmt.f2. destruct (Prim2SF x) as [s|[|]| |s m e]; try reflexivity.
  - exists (fmt.sign_text s ++ "0"), "0"%char, "0"%char.
    split; [|split; reflexivity]. destruct s; reflexivity.
  - destruct (two_digits_shape (fmt.hundredths m e mod 100)) as (d1 & d2 & E & H1 & H2).
    { apply Z.mod_pos_bound. lia. }
    exists (fmt.sign_text s ++ fmt.digits_of (fmt.hundredths m e / 100)), d1, d2.
    split; [|split; assumption]. rewrite E.
    rewrite append_assoc. reflexivity.
Qed.

Lemma last_char_f2 (x : float) :
  exists c, last_char (fmt.f2 x) = Some c /\ strconv.code c <> 10.
Proof.
  pose proof (f2_number x) as H.
  destruct (Prim2SF x) as [s|[|]| |s m e];
    try (rewrite H; eexists; split; [reflexivity | discriminate]).
  - destruct H as (int & d1 & d2 & E & _ & H2). rewrite E.
    rewrite last_char_app by discriminate. exists d2. split; [reflexivity|].
    unfold strconv.is_digit in H2. apply andb_prop in H2. lia.
  - destruct H as (int & d1 & d2 & E & _ & H2). rewrite E.
    rewrite last_char_app by discriminate. exists d2. split; [reflexivity|].
    unfold strconv.is_digit in H2. apply andb_prop in H2. lia.
Qed.

(** *** The amount shown *)

Lemma digits_only_uint (d : Decimal.uint) : digits_only (NilEmpty.string_of_uint d) = true.
Proof. induction d; cbn [NilEmpty.string_of_uint digits_only]; try rewrite IHd; reflexivity. Qed.

Lemma digits_only_digits_of (n : Z) : digits_only (fmt.digits_of n) = true.
Proof.
  unfold fmt.digits_of, NilZero.string_of_uint.
  destruct (N.to_uint (Z.to_N n)); try reflexivity; apply (digits_only_uint (_ _)).
Qed.

Lemma read_number_digits_of (n : Z) : 0 <= n -> read_number (fmt.digits_of n) = Some n.
Proof.
  intros H. unfold read_number, fmt.digits_of.
  rewrite NilZero.usu.
  - rewrite DecimalN.Unsigned.of_to, Z2N.id by exact H. reflexivity.
  - destruct (Z.to_N n); [discriminate | apply DecimalPos.Unsigned.to_uint_nonnil].
Qed.

Lemma read_number_two_digits (c : Z) :
  0 <= c < 100 ->
  read_number (fmt.two_digits c) = Some c /\ String.length (fmt.two_digits c) = 2%nat.
Proof.
  intros H. rewrite <- (Z2Nat.id c) by lia.
  assert (Hk : (Z.to_nat c < 100)%nat) by lia.
  revert Hk. generalize (Z.to_nat c) as k. intros k Hk.
  do 100 (destruct k as [|k]; [split; reflexivity|]).
  lia.
Qed.

Lemma split_point_digits (a b : string) :
  digits_only a = true -> split_point (a ++ "." ++ b) = Some (a, b).
Proof.
  induction a as [|c a IH]; [reflexivity|].
  cbn [digits_only append split_point] in *. intros H. apply andb_prop in H.
  destruct H as [Hc Ha].
  unfold strconv.is_digit in Hc. apply andb_prop in Hc. destruct Hc as [Hc _].
  destruct (Z.eqb_spec (strconv.code c) 46) as [E|_]; [rewrite E in Hc; discriminate|].
  rewrite (IH Ha). reflexivity.
Qed.

Lemma digits_of_head (n : Z) :
  exists c rest, fmt.digits_of n = String c rest /\ strconv.is_digit c = true.
Proof.
  pose proof (digits_only_digits_of n) as H.
  assert (Hne : fmt.digits_of n <> EmptyString).
  { unfold fmt.digits_of, NilZero.string_of_uint.
    destruct (Z.to_N n) as [|p]; [discriminate|]. cbn [N.to_uint].
    destruct (Pos.to_uint p); discriminate. }
  destruct (fmt.digits_of n) as [|c rest]; [contradiction|].
  cbn [digits_only] in H. apply andb_prop in H. exists c, rest. split; [reflexivity | apply H].
Qed.

(** What a sign, a whole part and two decimals spell. *)
Lemma amount_of_decimal (negative : bool) (h : Z) :
  0 <= h ->
  amount_of negative (fmt.digits_of (h / 100) ++ "." ++ fmt.two_digits (h mod 100))
    = Some (negative, h).
Proof.
  intros H.
  assert (Hq : 0 <= h / 100) by (apply Z.div_pos; lia).
  assert (Hr : 0 <= h mod 100 < 100) by (apply Z.mod_pos_bound; lia).
  destruct (read_number_two_digits _ Hr) as [Hread Hlen].
  unfold amount_of. rewrite split_point_digits by apply digits_only_digits_of.
  rewrite Hlen, read_number_digits_of, Hread by exact Hq. cbn [Nat.eqb].
  f_equal. f_equal. pose proof (Z.div_mod h 100 ltac:(lia)). lia.
Qed.

Lemma amount_shown_decimal (s : bool) (h : Z) :
  0 <= h ->
  amount_shown (fmt.sign_text s ++ fmt.digits_of (h / 100) ++ "."
                  ++ fmt.two_digits (h mod 100)) = Some (s, h).
Proof.
  intros H. destruct s; cbn [fmt.sign_text append].
  - unfold amount_shown. change (strconv.code "-" =? 45) with true. cbv iota.
    apply amount_of_decimal, H.
  - rewrite <- (amount_of_decimal false h H).
    destruct (digits_of_head (h / 100)) as (c & rest & Ec & Hc).
    rewrite Ec. cbn [append]. unfold amount_shown.
    unfold strconv.is_digit in Hc. apply andb_prop in Hc. destruct Hc as [Hc _].
    destruct (Z.eqb_spec (strconv.code c) 45) as [E|_]; [rewrite E in Hc; discriminate|].
    reflexivity.
Qed.

Lemma round_half_even_nearest (num den : Z) :
  0 <= num -> 0 < den ->
  let h := fmt.round_half_even num den in
  0 <= h /\
  Z.abs (2 * (num - h * den)) <= den /\
  (Z.abs (2 * (num - h * den)) = den -> Z.even h = true).
Proof.
  intros Hn Hd. unfold fmt.round_half_even.
  pose proof (Z.div_mod num den ltac:(lia)) as E.
  pose proof (Z.mod_pos_bound num den Hd) as Hr.
  assert (Hq : 0 <= num / den) by (apply Z.div_pos; lia).
  remember (num / den) as q. remember (num mod den) as rm.
  assert (E1 : num - q * den = rm) by lia.
  assert (E2 : num - (q + 1) * den = rm - den) by lia.
  cbv zeta. destruct (Z.compare_spec (2 * rm) den) as [Heq|Hlt|Hgt].
  - destruct (Z.even q) eqn:Ev.
    + rewrite E1. split; [lia|]. split; [lia | intros _; exact Ev].
    + rewrite E2. split; [lia|]. split; [lia|]. intros _.
      rewrite Z.even_add, Ev. reflexivity.
  - rewrite E1. split; [lia|]. split; lia.
  - rewrite E2. split; [lia|]. split; lia.
Qed.

Lemma hundredths_nearest (m : positive) (e : Z) :
  0 <= fmt.hundredths m e /\ nearest_hundredths m e (fmt.hundredths m e).
Proof.
  unfold fmt.hundredths, nearest_hundredths. cbv zeta.
  destruct (Z.leb_spec 0 e) as [He|He].
  - replace (Z.max e 0) with e by lia. replace (Z.max (- e) 0) with 0 by lia.
    assert (0 < 2 ^ e) by (apply Z.pow_pos_nonneg; lia).
    rewrite Z.pow_0_r. split; [nia|]. split; [|intros Habs]; lia.
  - replace (Z.max e 0) with 0 by lia. replace (Z.max (- e) 0) with (- e) by lia.
    rewrite Z.pow_0_r, Z.mul_1_r.
    assert (Hden : 0 < 2 ^ (- e)) by (apply Z.pow_pos_nonneg; lia).
    pose proof (round_half_even_nearest (Z.pos m * 100) (2 ^ (- e)) ltac:(lia) Hden) as H.
    cbv zeta in H. replace (100 * Z.pos m) with (Z.pos m * 100) by lia. exact H.
Qed.

(** [%.2f] of a number spells the hundredths nearest to it. *)
Lemma f2_amount (x : float) :
  match Prim2SF x with
  | S754_zero s => amount_shown (fmt.f2 x) = Some (s, 0)
  | S754_finite s m e =>
      exists h, nearest_hundredths m e h /\ amount_shown (fmt.f2 x) = Some (s, h)
  | _ => amount_shown (fmt.f2 x) = None
  end.
Proof.
  unfold fmt.f2. destruct (Prim2SF x) as [s|[|]| |s m e]; try reflexivity.
  - destruct s; reflexivity.
  - destruct (hundredths_nearest m e) as [H0 Hn].
    exists (fmt.hundredths m e). split; [exact Hn|].
    apply amount_shown_decimal, H0.
Qed.

Lemma not_two_decimals_short (a b c : ascii) :
  strconv.code a <> 46 ->
  ~ two_decimals (String a (String b (String c EmptyString))).
Proof.
  intros Ha (whole & d1 & d2 & E & _).
  destruct whole as [|x [|y [|z whole]]]; cbn [append] in E.
  - injection E as E _. rewrite E in Ha. apply Ha. reflexivity.
  - discriminate.
  - discriminate.
  - injection E as _ _ _ E. destruct whole; discriminate.
Qed.

(** C7, as the code has it.  [DisplayCost] issues one write, which adds to
    the output the text that the format
    [\rThe total current cost of this meeting is $%.2f] gives for the cost
    and nothing else: a carriage return first, no line feed at the end.
    For a cost that is a number the amount has two decimals and spells the
    hundredths nearest to the cost (the even one of two that are as near),
    with the sign of the cost; for a cost that is no number the text is
    [NaN], [+Inf] or [-Inf], without decimals. *)
Theorem DisplayCost_writes_running_cost (cost : float) (o : Writer) :
  DisplayCost cost o = (o ++ [running_cost cost])%list /\
  written (DisplayCost cost o) = written o ++ running_cost cost /\
  running_cost cost =
    CR ++ "The total current cost of this meeting is $" ++ fmt.f2 cost /\
  (exists c, last_char (running_cost cost) = Some c /\ strconv.code c <> 10) /\
  match Prim2SF cost with
  | S754_nan => fmt.f2 cost = "NaN"
  | S754_infinity false => fmt.f2 cost = "+Inf"
  | S754_infinity true => fmt.f2 cost = "-Inf"
  | S754_zero s =>
      two_decimals (fmt.f2 cost) /\ amount_shown (fmt.f2 cost) = Some (s, 0)
  | S754_finite s m e =>
      two_decimals (fmt.f2 cost) /\
      exists h, nearest_hundredths m e h /\ amount_shown (fmt.f2 cost) = Some (s, h)
  end /\
  (fmt.f2 100 = "100.00" /\ fmt.f2 4.9750000000000005 = "4.98" /\
   fmt.f2 0.125 = "0.12" /\ fmt.f2 0.375 = "0.38" /\ fmt.f2 (-2.5) = "-2.50" /\
   fmt.f2 0.004 = "0.00" /\ fmt.f2 1e21 = "1000000000000000000000.00").
Proof.
  split; [reflexivity|].
  split; [unfold DisplayCost, fmt.Fprint; rewrite written_app; reflexivity|].
  split; [reflexivity|]. split.
  - destruct (last_char_f2 cost) as (c & Hc & Hn). exists c. split; [|exact Hn].
    assert (Hne : fmt.f2 cost <> EmptyString)
      by (intros E; rewrite E in Hc; discriminate).
    unfold running_cost. rewrite last_char_app.
    + rewrite last_char_app by exact Hne. exact Hc.
    + discriminate.
  - split; [|repeat split; vm_compute; reflexivity].
    pose proof (f2_number cost) as H1. pose proof (f2_amount cost) as H2.
    destruct (Prim2SF cost) as [s|[|]| |s m e]; try exact H1; split; assumption.
Qed.

(** The claim as worded fails on the code for a cost that is no number:
    the text is then [NaN] or [+Inf], without decimals.  Such a cost is
    reached by entering [nan] or [inf] as a rate. *)
Lemma DisplayCost_of_no_number :
  running_cost nan = CR ++ "The total current cost of this meeting is $NaN" /\
  ~ two_decimals (fmt.f2 nan) /\
  amount_shown (fmt.f2 nan) = None /\
  strconv.ParseFloat "inf" = (infinity, None) /\
  running_cost (Cost infinity time.Hour) =
    CR ++ "The total current cost of this meeting is $+Inf".
Proof.
  split; [reflexivity|]. split; [apply not_two_decimals_short; discriminate|].
  split; [reflexivity|]. split; reflexivity.
Qed.

(** ** The session driver *)

Lemma first_sentinel (lines : list string) :
  existsb is_sentinel lines = true ->
  exists pre s post,
    lines = (pre ++ s :: post)%list /\ Forall not_sentinel pre /\ is_sentinel s = true.
Proof.
  induction lines as [|line lines IH]; simpl; [discriminate|].
  destruct (is_sentinel line) eqn:E; simpl; intros H.
  - exists [], line, lines. auto.
  - destruct (IH H) as (pre & s & post & -> & Hpre & Hs).
    exists (line :: pre), s, post. repeat split; [constructor|]; assumption.
Qed.

Section DriverFacts.

Variable ParseFloat : string -> float * option strconv.error.
Variable unread : bufio.Scanner -> Reader.

Lemma collect_rate_given (fuel : nat) (m : Meeting) :
  (HourlyRate (f m) =? 0)%float = false ->
  collect_rate ParseFloat unread fuel m = Some m.
Proof. intros H. unfold collect_rate. rewrite H. reflexivity. Qed.

(** The driver settles the rate whenever one is given or the scanner
    delivers a sentinel line; the duration and the tick interval stay as
    they were. *)
Lemma collect_rate_settles (m : Meeting) :
  (HourlyRate (f m) =? 0)%float = false \/
  existsb is_sentinel (bufio.Lines (r m)) = true ->
  exists fuel0 m',
    (forall fuel, (fuel0 <= fuel)%nat -> collect_rate ParseFloat unread fuel m = Some m') /\
    MeetingDuration (f m') = MeetingDuration (f m) /\
    Ticks (f m') = Ticks (f m).
Proof.
  destruct (HourlyRate (f m) =? 0)%float eqn:E.
  - intros [H|H]; [discriminate|].
    destruct (first_sentinel _ H) as (pre & s & post & HL & Hpre & Hs).
    destruct (GetRate_collects ParseFloat m pre post s _ HL Hpre Hs (Nat.lt_succ_diag_r _))
      as (st0 & Hloop0 & _).
    exists (Datatypes.S (List.length pre)),
           (with_HourlyRate (with_r (with_w m (out st0)) (unread (scanner st0))) (rate st0)).
    split; [|split; reflexivity].
    intros fuel Hfuel. unfold collect_rate, GetRate. rewrite E.
    replace fuel with (Datatypes.S (List.length pre) + (fuel - Datatypes.S (List.length pre)))%nat
      by lia.
    rewrite (loop_more_fuel _ _ _ _ _ Hloop0). reflexivity.
  - intros _. exists 0%nat, m. split; [|split; reflexivity].
    intros fuel _. apply collect_rate_given, E.
Qed.

Lemma collect_rate_never_returns (m : Meeting) :
  (HourlyRate (f m) =? 0)%float = true ->
  Forall not_sentinel (bufio.Lines (r m)) ->
  forall fuel : nat, RunCLI ParseFloat unread fuel m = None.
Proof.
  intros Hzero HF fuel. unfold RunCLI, collect_rate.
  rewrite Hzero, (GetRate_never_returns ParseFloat unread m HF). reflexivity.
Qed.

End DriverFacts.

(** C3, as the code has it.  With a meeting duration other than zero, and
    the rate settled (one is given, or the scanner of the rate collector
    delivers a sentinel line, so that [GetRate] returns): a tick interval
    above one second makes [RunCLI] start the ticking session with the
    fixed-duration strategy and exit at once, with status 0, without
    waiting for it and without writing; any other interval makes it compute
    the cost of the whole duration once, display it once, start nothing
    and return. *)
Theorem RunCLI_fixed_duration
    (ParseFloat : string -> float * option strconv.error)
    (unread : bufio.Scanner -> Reader) (m : Meeting) :
  MeetingDuration (f m) <> 0 ->
  (HourlyRate (f m) =? 0)%float = false \/
  existsb is_sentinel (bufio.Lines (r m)) = true ->
  exists fuel0 m',
    (forall fuel, (fuel0 <= fuel)%nat -> collect_rate ParseFloat unread fuel m = Some m') /\
    (time.Second < Ticks (f m) ->
     forall fuel, (fuel0 <= fuel)%nat ->
       RunCLI ParseFloat unread fuel m =
         Some {| meeting := m';
                 started := [go_Timer2 (Ticks (f m));
                             go_FixedTimeStrategy (MeetingDuration (f m))];
                 awaited_Finished := false;
                 ended := Exits 0 |}) /\
    (Ticks (f m) <= time.Second ->
     forall fuel, (fuel0 <= fuel)%nat ->
       RunCLI ParseFloat unread fuel m =
         Some {| meeting :=
                   with_w m' (w m' ++ [running_cost
                                         (Cost (HourlyRate (f m')) (MeetingDuration (f m)));
                                       LF])%list;
                 started := [];
                 awaited_Finished := false;
                 ended := Returns |}).
Proof.
  intros Hdur Hrate.
  destruct (collect_rate_settles ParseFloat unread m Hrate) as (fuel0 & m' & Hc & Hd & Ht).
  exists fuel0, m'. split; [exact Hc|].
  assert (Hd0 : (MeetingDuration (f m') =? 0) = false) by (apply Z.eqb_neq; lia).
  split; intros Hticks fuel Hfuel; unfold RunCLI; rewrite (Hc fuel Hfuel);
    unfold run_session; rewrite Hd0, Ht.
  - destruct (Z.ltb_spec time.Second (Ticks (f m))) as [_|H]; [|lia].
    unfold Timer. rewrite Hd0, Ht, Hd.
    destruct (Z.leb_spec (Ticks (f m)) 0) as [H|_];
      [unfold time.Second, time.Millisecond, time.Microsecond, time.Nanosecond in *; lia|].
    reflexivity.
  - destruct (Z.ltb_spec time.Second (Ticks (f m))) as [H|_]; [lia|].
    unfold DisplayCost, fmt.Fprintln, fmt.Fprint. rewrite Hd, <- app_assoc. reflexivity.
Qed.

Lemma RunCLI_fixed_duration_witness :
  exists fuel run,
    RunCLI strconv.ParseFloat bufio.buf fuel (NewMeeting flags_no_rate input_100_foo_50_q)
      = Some run /\
    started run = [] /\ ended run = Returns.
Proof.
  destruct (RunCLI_fixed_duration strconv.ParseFloat bufio.buf
              (NewMeeting flags_no_rate input_100_foo_50_q))
    as (fuel0 & m' & _ & _ & Hshot).
  - discriminate.
  - right. reflexivity.
  - exists fuel0. eexists. split.
    + apply Hshot; [discriminate | apply Nat.le_refl].
    + split; reflexivity.
Defined.

(** The claim without the condition on the rate fails on the code: with a
    duration of one hour, no rate, and an input in which no sentinel line
    follows the line [100], [RunCLI] never leaves the rate collector; it
    neither starts a session nor displays a cost. *)
Lemma RunCLI_without_rate_never_ends :
  MeetingDuration flags_no_rate <> 0 /\
  ~ (exists fuel run,
       RunCLI strconv.ParseFloat bufio.buf fuel (NewMeeting flags_no_rate ("100" ++ LF))
         = Some run).
Proof.
  split; [discriminate|]. intros (fuel & run & H).
  rewrite collect_rate_never_returns in H; [discriminate | reflexivity | repeat constructor].
Qed.

(** C2, as the code has it.  With rate 100 and duration one hour: a tick
    interval of 500ms is not above one second, so [RunCLI] displays $100.00
    once, starts no ticking and returns; a tick interval of 2s is above one
    second, so it starts the ticking session with the fixed-duration
    strategy and exits with status 0 without displaying anything. *)
Theorem RunCLI_end_to_end
    (ParseFloat : string -> float * option strconv.error)
    (unread : bufio.Scanner -> Reader)
    (fuel : nat) (input : Reader) :
  RunCLI ParseFloat unread fuel (NewMeeting flags_ticks_500ms input) =
    Some {| meeting :=
              {| r := input;
                 w := [CR ++ "The total current cost of this meeting is $100.00"; LF];
                 f := flags_ticks_500ms;
                 Finished := false |};
            started := [];
            awaited_Finished := false;
            ended := Returns |} /\
  RunCLI ParseFloat unread fuel (NewMeeting flags_ticks_2s input) =
    Some {| meeting := NewMeeting flags_ticks_2s input;
            started := [go_Timer2 (2 * time.Second); go_FixedTimeStrategy time.Hour];
            awaited_Finished := false;
            ended := Exits 0 |}.
Proof. split; reflexivity. Qed.

(** The end-to-end examples as the specification words them fail on the
    code: at 500ms no ticking session starts, and at 2s a session does
    start and nothing is displayed. *)
Lemma RunCLI_end_to_end_as_specified_fails :
  ~ (exists run,
       RunCLI strconv.ParseFloat bufio.buf 0 (NewMeeting flags_ticks_500ms EmptyString)
         = Some run /\
       started run <> []) /\
  ~ (exists run,
       RunCLI strconv.ParseFloat bufio.buf 0 (NewMeeting flags_ticks_2s EmptyString)
         = Some run /\
       (started run = [] \/ w (meeting run) <> [])).
Proof.
  split; intros (run & H & H1); vm_compute in H; injection H as <-;
    simpl in *; [congruence | destruct H1; congruence].
Qed.

(** The rate the driver substitutes can be negative: the lines [-5], [q]
    make it -5. *)
Lemma RunCLI_collects_negative_rate :
  exists run,
    RunCLI strconv.ParseFloat bufio.buf 2
      (NewMeeting flags_no_rate ("-5" ++ LF ++ "q" ++ LF))
      = Some run /\
    HourlyRate (f (meeting run)) = (-5)%float /\
    (0 <=? HourlyRate (f (meeting run)))%float = false.
Proof. eexists. split; [vm_compute; reflexivity|]. split; reflexivity. Qed.

(** ** The rate the driver substitutes *)

Lemma sum_from_nonneg (values : list float) :
  forall start : float,
    nonneg start -> Forall nonneg values -> nonneg (sum_from start values).
Proof.
  induction values as [|v values IH]; intros start Hs Hv; [exact Hs|].
  inversion Hv as [|? ? Hv1 Hv2]; subst.
  apply IH; [apply add_nonneg; assumption | assumption].
Qed.

Lemma parsed_values_nonneg (ParseFloat : string -> float * option strconv.error)
    (lines : list string) :
  (forall line v, In line lines -> ParseFloat line = (v, None) -> nonneg v) ->
  Forall nonneg (parsed_values ParseFloat lines).
Proof.
  intros H. unfold parsed_values. apply Forall_flat_map, Forall_forall.
  intros line Hin. pose proof (H line) as Hl.
  destruct (ParseFloat line) as [v [e|]]; constructor; [|constructor].
  apply (Hl v Hin eq_refl).
Qed.

Lemma run_session_flags (m : Meeting) : f (meeting (run_session m)) = f m.
Proof.
  unfold run_session, Timer.
  destruct (MeetingDuration (f m) =? 0) eqn:Ed; cbn [with_w f w].
  - rewrite ?Ed. destruct (Ticks (f m) <=? 0); reflexivity.
  - destruct (time.Second <? Ticks (f m)); [|reflexivity].
    rewrite ?Ed. destruct (Ticks (f m) <=? 0); reflexivity.
Qed.

(** C9, as the code has it.  No rate is validated.  Where the rate is zero
    and the scanner delivers a sentinel line, the statement
    [m.f.HourlyRate = m.GetRate()] of the driver sets the rate to the sum
    the rate collector returns, and [RunCLI] goes on with that rate; it is
    not below zero whenever every line that parses, among those before the
    sentinel, gives a value that is not below zero. *)
Theorem RunCLI_substituted_rate
    (ParseFloat : string -> float * option strconv.error)
    (unread : bufio.Scanner -> Reader) (m : Meeting)
    (pre post : list string) (s : string) (fuel : nat) :
  (HourlyRate (f m) =? 0)%float = true ->
  bufio.Lines (r m) = (pre ++ s :: post)%list ->
  Forall not_sentinel pre ->
  is_sentinel s = true ->
  (List.length pre < fuel)%nat ->
  exists m',
    collect_rate ParseFloat unread fuel m = Some m' /\
    RunCLI ParseFloat unread fuel m = Some (run_session m') /\
    HourlyRate (f m') = sum_from 0 (parsed_values ParseFloat pre) /\
    HourlyRate (f (meeting (run_session m'))) = HourlyRate (f m') /\
    ((forall line v, In line pre -> ParseFloat line = (v, None) -> nonneg v) ->
     nonneg (HourlyRate (f m'))).
Proof.
  intros Hzero HL Hpre Hs Hfuel.
  destruct (GetRate_collects ParseFloat m pre post s fuel HL Hpre Hs Hfuel)
    as (st & Hloop & Hrate & _).
  unfold RunCLI, collect_rate, GetRate. rewrite Hzero, Hloop.
  eexists. split; [reflexivity|]. split; [reflexivity|].
  rewrite run_session_flags. cbn [with_HourlyRate f HourlyRate]. rewrite Hrate.
  split; [reflexivity|]. split; [reflexivity|]. intros Hvalues.
  apply sum_from_nonneg; [reflexivity | apply parsed_values_nonneg, Hvalues].
Qed.

Lemma RunCLI_substituted_rate_witness :
  exists m',
    collect_rate strconv.ParseFloat bufio.buf 4
      (NewMeeting flags_no_rate input_100_foo_50_q) = Some m' /\
    nonneg (HourlyRate (f m')).
Proof.
  destruct (RunCLI_substituted_rate strconv.ParseFloat bufio.buf
              (NewMeeting flags_no_rate input_100_foo_50_q)
              ["100"; "foo"; "50"] [] "q" 4)
    as (m' & Hc & _ & _ & _ & Hnonneg).
  - reflexivity.
  - reflexivity.
  - repeat constructor.
  - reflexivity.
  - simpl. lia.
  - exists m'. split; [exact Hc|]. apply Hnonneg.
    intros line v [<-|[<-|[<-|[]]]] E; vm_compute in E; try discriminate;
      injection E as <-; reflexivity.
Defined.

(** * Further properties of the code *)

(** ** The cost of rates and durations of either sign *)

(** ** Opposites *)

Lemma binary_round_aux_opp (s : bool) (m e : Z) (l : location) :
  binary_round_aux prec emax (negb s) m e l = SFopp (binary_round_aux prec emax s m e l).
Proof.
  unfold binary_round_aux.
  destruct (shr_fexp prec emax m e l) as [mrs' e'].
  destruct (shr_fexp prec emax _ e' loc_Exact) as [mrs'' e''].
  destruct (shr_m mrs''); try reflexivity.
  destruct (Z.leb _ _); reflexivity.
Qed.

Lemma SFdiv_opp_l (x y : spec_float) : SF64div (SFopp x) y = SFopp (SF64div x y).
Proof.
  destruct x as [sx|sx| |sx mx ex], y as [sy|sy| |sy my ey];
    try reflexivity; try (destruct sx, sy; reflexivity).
  unfold SF64div, SFdiv, SFopp at 1.
  destruct (SFdiv_core_binary prec emax (Z.pos mx) ex (Z.pos my) ey) as [[mz ez] lz].
  rewrite <- binary_round_aux_opp. destruct sx, sy; reflexivity.
Qed.

Lemma SFmul_opp_l (x y : spec_float) : SF64mul (SFopp x) y = SFopp (SF64mul x y).
Proof.
  destruct x as [sx|sx| |sx mx ex], y as [sy|sy| |sy my ey];
    try reflexivity; try (destruct sx, sy; reflexivity).
  unfold SF64mul, SFmul, SFopp at 1.
  rewrite <- binary_round_aux_opp. destruct sx, sy; reflexivity.
Qed.

Lemma Cost_opp_rate (r : float) (d : time.Duration) :
  Cost (- r) d = (- Cost r d)%float.
Proof.
  apply Prim2SF_inj. unfold Cost. cbv zeta.
  rewrite FloatAxioms.opp_spec, !FloatAxioms.mul_spec, !FloatAxioms.div_spec, FloatAxioms.opp_spec.
  rewrite !SFdiv_opp_l, SFmul_opp_l. reflexivity.
Qed.

(** ** Sums of numbers *)

Lemma shl_align_value (m : positive) (e e' : Z) :
  e' <= e -> Z.pos (fst (shl_align m e e')) = Z.pos m * 2 ^ (e - e').
Proof.
  intros H. unfold shl_align. destruct (e' - e) as [|q|q] eqn:E; cbn [fst]; try lia.
  - replace (e - e') with 0 by lia. lia.
  - rewrite iter_xO_value. f_equal. f_equal. lia.
Qed.

(** Rounding a mantissa whose leading digit lies above the subnormal
    range: a number whose exponent is set by that digit, or an infinity. *)
Lemma binary_round_number (s : bool) (m : positive) (e : Z) :
  -1074 <= e -> -1074 <= Z.pos (digits2_pos m) + e - 53 ->
  exists m' e',
    binary_round prec emax s m e =
      (if e' <=? 971 then S754_finite s m' e' else S754_infinity s) /\
    Z.pos (digits2_pos m) + e - 53 <= e' <= Z.pos (digits2_pos m) + e - 52.
Proof.
  intros He Hd. unfold binary_round, shl_align. rewrite fexp_eq.
  remember (Z.pos (digits2_pos m)) as D eqn:ED.
  replace (Z.max (D + e - 53) (-1074)) with (D + e - 53) by lia.
  destruct (D + e - 53 - e) as [|q|q] eqn:E.
  - destruct (binary_round_aux_normal s m e loc_Exact) as (m' & e' & E' & Hb); try lia.
    exists m', e'. split; [exact E' | lia].
  - destruct (binary_round_aux_normal s m e loc_Exact) as (m' & e' & E' & Hb); try lia.
    exists m', e'. split; [exact E' | lia].
  - destruct (binary_round_aux_normal s (Pos.iter xO m q) (D + e - 53) loc_Exact)
      as (m' & e' & E' & Hb).
    + rewrite digits2_pos_iter_xO, Pos2Z.inj_add. lia.
    + lia.
    + rewrite digits2_pos_iter_xO, Pos2Z.inj_add in Hb.
      exists m', e'. split; [exact E' | lia].
Qed.

(** The sum of two numbers of one sign with full mantissas. *)
Lemma SFadd_number (s : bool) (ma mb : positive) (ea eb : Z) :
  digits2_pos ma = 53%positive -> digits2_pos mb = 53%positive ->
  -1074 <= ea -> -1074 <= eb ->
  exists m' e',
    SF64add (S754_finite s ma ea) (S754_finite s mb eb) =
      (if e' <=? 971 then S754_finite s m' e' else S754_infinity s) /\
    Z.max ea eb <= e' <= Z.max ea eb + 2.
Proof.
  intros Ha Hb Hea Heb. unfold SF64add, SFadd. cbv zeta.
  pose proof (shl_align_value ma ea (Z.min ea eb) ltac:(lia)) as Va.
  pose proof (shl_align_value mb eb (Z.min ea eb) ltac:(lia)) as Vb.
  pose proof (digits2_pos_bounds ma) as Ba. rewrite Ha in Ba.
  pose proof (digits2_pos_bounds mb) as Bb. rewrite Hb in Bb.
  change (2 ^ (53 - 1)) with 4503599627370496 in Ba, Bb.
  change (2 ^ 53) with 9007199254740992 in Ba, Bb.
  remember (Z.pos (fst (shl_align ma ea (Z.min ea eb)))) as a eqn:Ea.
  remember (Z.pos (fst (shl_align mb eb (Z.min ea eb)))) as b eqn:Eb.
  set (k := Z.max ea eb - Z.min ea eb).
  assert (Hk : 0 <= k) by (unfold k; lia).
  assert (Hpow : 0 < 2 ^ k) by (apply Z.pow_pos_nonneg; lia).
  assert (Hsum : 4503599627370496 * 2 ^ k <= a + b < 18014398509481984 * 2 ^ k).
  { destruct (Z.le_gt_cases ea eb) as [Hle|Hgt].
    - replace (ea - Z.min ea eb) with 0 in Va by lia.
      replace (eb - Z.min ea eb) with k in Vb by (unfold k; lia).
      rewrite Z.pow_0_r in Va. nia.
    - replace (eb - Z.min ea eb) with 0 in Vb by lia.
      replace (ea - Z.min ea eb) with k in Va by (unfold k; lia).
      rewrite Z.pow_0_r in Vb. nia. }
  destruct (a + b) as [|p|p] eqn:Ep; try lia.
  assert (Hdp : 53 + k <= Z.pos (digits2_pos p) <= 54 + k).
  { split.
    - apply digits2_pos_ge. replace (53 + k - 1) with (52 + k) by lia.
      rewrite Z.pow_add_r by lia. change (2 ^ 52) with 4503599627370496. lia.
    - apply digits2_pos_le. rewrite Z.pow_add_r by lia.
      change (2 ^ 54) with 18014398509481984. lia. }
  destruct (binary_round_number s p (Z.min ea eb)) as (m' & e' & E' & Hb'); try lia.
  exists m', e'. split; [|unfold k in Hdp; lia].
  rewrite <- E'. destruct s; cbn [cond_Zopp].
  - replace (- a + - b) with (Z.neg p) by lia. reflexivity.
  - rewrite Ep. reflexivity.
Qed.

(** ** The seconds of a duration, as a number *)

Lemma quot_rem_Second_small (d : Z) :
  time.in_int64 d ->
  - 2 ^ 34 < Z.quot d time.Second < 2 ^ 34 /\
  - 2 ^ 30 < Z.rem d time.Second < 2 ^ 30 /\
  (d <> 0 -> Z.quot d time.Second <> 0 \/ Z.rem d time.Second <> 0).
Proof.
  unfold time.in_int64, time.min_int64, time.max_int64.
  change time.Second with 1000000000. intros H.
  pose proof (Z.quot_rem' d 1000000000) as E.
  destruct (Z.le_gt_cases 0 d) as [Hd|Hd].
  - pose proof (Z.rem_bound_pos d 1000000000 Hd ltac:(lia)).
    pose proof (Z.quot_pos d 1000000000 Hd ltac:(lia)). lia.
  - pose proof (Z.rem_bound_pos (- d) 1000000000 ltac:(lia) ltac:(lia)) as Hr.
    pose proof (Z.quot_pos (- d) 1000000000 ltac:(lia) ltac:(lia)) as Hq.
    rewrite Z.rem_opp_l in Hr by lia. rewrite Z.quot_opp_l in Hq by lia. lia.
Qed.

Lemma float64_of_int_number (i : Z) (n : Z) :
  i <> 0 -> - 2 ^ n < i < 2 ^ n -> 0 <= n <= 53 ->
  exists m e,
    Prim2SF (time.float64_of_int i) = S754_finite (i <? 0) m e /\
    digits2_pos m = 53%positive /\ -52 <= e <= n - 53.
Proof.
  intros Hi Hb Hn.
  assert (Hb53 : - 2 ^ 53 < i < 2 ^ 53).
  { assert (2 ^ n <= 2 ^ 53) by (apply Z.pow_le_mono_r; lia). lia. }
  pose proof (Prim2SF_float64_of_int i Hb53) as E.
  destruct i as [|p|p]; [contradiction| |]; cbn [SF_of_int] in E;
    destruct (Prim2SF_finite_inv _ _ _ _ E) as (_ & _ & Hd);
    pose proof (Pos2Z.is_pos (digits2_pos p));
    pose proof (digits2_pos_le p n ltac:(lia));
    eexists _, _; (split; [exact E|]); (split; [apply Hd; lia | lia]).
Qed.

(** The two terms of [Seconds]: the whole seconds and the fraction. *)
Lemma Seconds_terms (d : time.Duration) :
  time.in_int64 d ->
  let q := Z.quot d time.Second in
  let n := Z.rem d time.Second in
  Prim2SF (time.Seconds d) = SF64add (SF_of_int q) (SF64div (SF_of_int n) (Prim2SF 1e9)) /\
  (q <> 0 -> exists m e,
     SF_of_int q = S754_finite (d <? 0) m e /\
     digits2_pos m = 53%positive /\ -52 <= e <= -19) /\
  (n <> 0 -> exists m e,
     SF64div (SF_of_int n) (Prim2SF 1e9) = S754_finite (d <? 0) m e /\
     digits2_pos m = 53%positive /\ -82 <= e <= -51).
Proof.
  intros Hd q n.
  destruct (quot_rem_Second d Hd) as (Hq53 & Hn53 & Hpos & Hneg).
  destruct (quot_rem_Second_small d Hd) as (Hq & Hn & _).
  fold q in Hq53, Hq, Hpos, Hneg. fold n in Hn53, Hn, Hpos, Hneg.
  split; [|split].
  - unfold time.Seconds. cbv zeta. fold q n.
    rewrite FloatAxioms.add_spec, FloatAxioms.div_spec, !Prim2SF_float64_of_int by assumption.
    reflexivity.
  - intros Hq0.
    destruct (float64_of_int_number q 34 Hq0 Hq ltac:(lia)) as (m & e & E & Hdm & He).
    rewrite Prim2SF_float64_of_int in E by assumption.
    exists m, e. rewrite E. split; [|split; [exact Hdm | lia]].
    f_equal. destruct (Z.ltb_spec d 0), (Z.ltb_spec q 0); try reflexivity; lia.
  - intros Hn0.
    destruct (float64_of_int_number n 30 Hn0 Hn ltac:(lia)) as (mn & en & En & Hdn & Hen).
    destruct (div_constant _ 1e9 _ _ _ _ _ En Prim2SF_1e9 eq_refl) as (m' & e' & E' & Hb');
      try lia.
    destruct (Prim2SF_finite_inv _ _ _ _ E') as (_ & _ & Hd').
    rewrite FloatAxioms.div_spec, Prim2SF_float64_of_int in E' by assumption.
    exists m', e'. rewrite E'. split; [|split; [apply Hd'; lia | lia]].
    f_equal. destruct (Z.ltb_spec d 0), (Z.ltb_spec n 0); try reflexivity; lia.
Qed.

(** [Seconds] of a duration other than zero is a number of the sign of the
    duration, between a nanosecond and 2^36 seconds in magnitude. *)
Lemma Seconds_number (d : time.Duration) :
  time.in_int64 d -> d <> 0 ->
  exists m e,
    Prim2SF (time.Seconds d) = S754_finite (d <? 0) m e /\ -82 <= e <= -17.
Proof.
  intros Hd Hd0.
  destruct (quot_rem_Second_small d Hd) as (_ & _ & Hnz). specialize (Hnz Hd0).
  destruct (Seconds_terms d Hd) as (E & A & B). cbv zeta in E, A, B. rewrite E.
  destruct (Z.eq_dec (Z.quot d time.Second) 0) as [Hq0|Hq0];
    [|destruct (Z.eq_dec (Z.rem d time.Second) 0) as [Hn0|Hn0]].
  - destruct (B ltac:(lia)) as (m & e & Eb & _ & He).
    rewrite Hq0, Eb. exists m, e. split; [reflexivity | lia].
  - destruct (A Hq0) as (m & e & Ea & _ & He).
    rewrite Hn0, Ea. exists m, e. split; [reflexivity | lia].
  - destruct (A Hq0) as (ma & ea & Ea & Hda & Hea).
    destruct (B Hn0) as (mb & eb & Eb & Hdb & Heb).
    rewrite Ea, Eb.
    destruct (SFadd_number (d <? 0) ma mb ea eb Hda Hdb) as (m' & e' & E' & Hb'); try lia.
    exists m', e'. split; [|lia].
    rewrite E'. destruct (Z.leb_spec e' 971); [reflexivity | lia].
Qed.

Lemma ltb_zero_finite (x : float) (s : bool) (m : positive) (e : Z) :
  Prim2SF x = S754_finite s m e -> (x <? 0)%float = s.
Proof.
  intros E. rewrite FloatAxioms.ltb_spec, E. destruct s; reflexivity.
Qed.

(** The cost of an ordinary rate over a duration other than zero is a
    number; its sign is that of the rate where the duration is above zero,
    the other one where it is below. *)
Lemma Cost_number (r : float) (d : time.Duration) :
  ordinary r -> time.in_int64 d -> d <> 0 ->
  exists m e,
    Prim2SF (Cost r d) = S754_finite (xorb (r <? 0)%float (d <? 0)) m e /\
    -900 <= e <= 700.
Proof.
  intros Hr Hd Hd0.
  destruct (ordinary_exponent r Hr) as (s & mr & er & Er & Her).
  destruct (per_second r s mr er Er ltac:(lia)) as (m2 & e2 & E2 & He2).
  destruct (Prim2SF_finite_inv _ _ _ _ E2) as (_ & _ & Hd2).
  destruct (Seconds_number d Hd Hd0) as (mS & eS & ES & HeS).
  destruct (Prim2SF_finite_inv _ _ _ _ ES) as (HdS & _ & _).
  pose proof (Pos2Z.is_pos (digits2_pos mS)).
  unfold Cost. cbv zeta. rewrite FloatAxioms.mul_spec, E2, ES.
  destruct (SFmul_normal s (d <? 0) m2 mS e2 eS) as (m' & e' & E' & Hb');
    [apply Hd2; lia | lia |].
  exists m', e'. rewrite (ltb_zero_finite r s mr er Er). split; [|lia].
  rewrite E'. destruct (Z.leb_spec e' 971); [reflexivity | lia].
Qed.

Lemma Cost_zero_duration (r : float) :
  ordinary r -> Prim2SF (Cost r 0) = S754_zero (r <? 0)%float.
Proof.
  intros Hr.
  destruct (ordinary_exponent r Hr) as (s & mr & er & Er & Her).
  destruct (per_second r s mr er Er ltac:(lia)) as (m2 & e2 & E2 & He2).
  unfold Cost. cbv zeta. rewrite FloatAxioms.mul_spec, E2.
  rewrite (ltb_zero_finite r s mr er Er).
  change (Prim2SF (time.Seconds 0)) with (S754_zero false).
  cbn [SF64mul SFmul]. rewrite xorb_false_r. reflexivity.
Qed.

Lemma Seconds_sign (d : time.Duration) :
  time.in_int64 d ->
  match Prim2SF (time.Seconds d) with
  | S754_zero s => s = false /\ d = 0
  | S754_finite s _ _ => s = (d <? 0) /\ d <> 0
  | _ => False
  end.
Proof.
  intros Hd. destruct (Z.eq_dec d 0) as [->|Hd0].
  - change (Prim2SF (time.Seconds 0)) with (S754_zero false). split; reflexivity.
  - destruct (Seconds_number d Hd Hd0) as (m & e & E & _). rewrite E. split; [reflexivity | exact Hd0].
Qed.

(** A rate of zero costs nothing. *)
Lemma Cost_zero_rate (d : time.Duration) :
  time.in_int64 d -> Prim2SF (Cost 0 d) = S754_zero (d <? 0).
Proof.
  intros Hd. pose proof (Seconds_sign d Hd) as H.
  unfold Cost. cbv zeta. rewrite FloatAxioms.mul_spec.
  change (Prim2SF (0 / 60 / 60)) with (S754_zero false).
  destruct (Prim2SF (time.Seconds d)) as [s|s| |s m e]; try contradiction.
  - destruct H as [-> ->]. reflexivity.
  - destruct H as [-> _]. reflexivity.
Qed.

Lemma Cost_nan (r : float) (d : time.Duration) :
  Prim2SF r = S754_nan -> Prim2SF (Cost r d) = S754_nan.
Proof.
  intros E. unfold Cost. cbv zeta.
  rewrite FloatAxioms.mul_spec, !FloatAxioms.div_spec, E. reflexivity.
Qed.

(** ** Negated durations *)

Lemma binary_round_opp (s : bool) (m : positive) (e : Z) :
  binary_round prec emax (negb s) m e = SFopp (binary_round prec emax s m e).
Proof.
  unfold binary_round. destruct (shl_align m e _) as [mz ez].
  apply binary_round_aux_opp.
Qed.

Lemma SFopp_involutive (x : spec_float) : SFopp (SFopp x) = x.
Proof. destruct x as [[]|[]| |[] ? ?]; reflexivity. Qed.

Lemma SFadd_opp (s : bool) (ma mb : positive) (ea eb : Z) :
  SF64add (S754_finite (negb s) ma ea) (S754_finite (negb s) mb eb) =
  SFopp (SF64add (S754_finite s ma ea) (S754_finite s mb eb)).
Proof.
  unfold SF64add, SFadd. cbv zeta.
  generalize (fst (shl_align ma ea (Z.min ea eb))) as a.
  generalize (fst (shl_align mb eb (Z.min ea eb))) as b. intros b a.
  destruct s; cbn [negb cond_Zopp Z.opp Z.add binary_normalize].
  - rewrite (binary_round_opp false), SFopp_involutive. reflexivity.
  - apply (binary_round_opp false).
Qed.

Lemma SF_of_int_opp (i : Z) : SF_of_int (- i) = if i =? 0 then SF_of_int i else SFopp (SF_of_int i).
Proof. destruct i; reflexivity. Qed.

Lemma Seconds_opp (d : time.Duration) :
  time.in_int64 d -> time.in_int64 (- d) -> d <> 0 ->
  Prim2SF (time.Seconds (- d)) = SFopp (Prim2SF (time.Seconds d)).
Proof.
  intros Hd Hd' Hd0.
  destruct (quot_rem_Second_small d Hd) as (_ & _ & Hnz). specialize (Hnz Hd0).
  destruct (Seconds_terms d Hd) as (E & A & B).
  destruct (Seconds_terms (- d) Hd') as (E' & _ & _).
  cbv zeta in E, E', A, B. rewrite E, E'.
  rewrite Z.quot_opp_l, Z.rem_opp_l by discriminate.
  rewrite !SF_of_int_opp.
  destruct (Z.eqb_spec (Z.quot d time.Second) 0) as [Hq0|Hq0];
    destruct (Z.eqb_spec (Z.rem d time.Second) 0) as [Hn0|Hn0]; try lia.
  - destruct (B Hn0) as (m & e & Eb & _). rewrite SFdiv_opp_l, Hq0, Eb. reflexivity.
  - destruct (A Hq0) as (m & e & Ea & _). rewrite Hn0, Ea. reflexivity.
  - destruct (A Hq0) as (ma & ea & Ea & _). destruct (B Hn0) as (mb & eb & Eb & _).
    rewrite SFdiv_opp_l, Ea, Eb. apply SFadd_opp.
Qed.

Lemma Cost_opp_duration (r : float) (d : time.Duration) :
  time.in_int64 d -> time.in_int64 (- d) -> d <> 0 ->
  Cost r (- d) = (- Cost r d)%float.
Proof.
  intros Hd Hd' Hd0. apply Prim2SF_inj. unfold Cost. cbv zeta.
  rewrite FloatAxioms.opp_spec, !FloatAxioms.mul_spec, Seconds_opp by assumption.
  generalize (Prim2SF (r / 60 / 60)) as p. generalize (Prim2SF (time.Seconds d)) as t.
  intros t p.
  destruct p as [sx|sx| |sx mx ex], t as [sy|sy| |sy my ey];
    try reflexivity; try (destruct sx, sy; reflexivity).
  unfold SF64mul, SFmul, SFopp at 1.
  rewrite <- binary_round_aux_opp. destruct sx, sy; reflexivity.
Qed.

(** X1. [Cost] validates nothing and is odd in each argument: the cost of
    the negated rate is the negated cost, for every rate (a NaN included)
    and every duration; the cost of the negated duration is the negated
    cost, for every duration other than zero whose opposite is a
    duration. *)
Theorem Cost_negates_with_its_arguments :
  (forall (r : float) (d : time.Duration), Cost (- r) d = (- Cost r d)%float) /\
  (forall (r : float) (d : time.Duration),
      time.in_int64 d -> time.in_int64 (- d) -> d <> 0 ->
      Cost r (- d) = (- Cost r d)%float).
Proof. split; [exact Cost_opp_rate | exact Cost_opp_duration]. Qed.

Lemma Cost_negates_with_its_arguments_witness :
  Cost 100 (- time.Hour) = (- Cost 100 time.Hour)%float.
Proof.
  apply (proj2 Cost_negates_with_its_arguments);
    [split; discriminate | split; discriminate | discriminate].
Defined.

Lemma nonneg_not_below_zero (x : float) (s : bool) (m : positive) (e : Z) :
  Prim2SF x = S754_finite s m e -> nonneg x -> (x <? 0)%float = false.
Proof.
  intros E H. rewrite (ltb_zero_finite x s m e E).
  apply nonneg_signed in H. rewrite E in H. exact H.
Qed.

(** X2. The cost of an ordinary rate (a number between 2^-700 and 2^700 in
    magnitude) over any duration is a number, never a NaN or an infinity;
    it is zero exactly when the duration is zero; otherwise it is below
    zero exactly when one of rate and duration is.  So a rate and a
    duration that are not negative never give a negative cost. *)
Theorem Cost_of_an_ordinary_rate (r : float) (d : time.Duration) :
  ordinary r -> time.in_int64 d ->
  match Prim2SF (Cost r d) with
  | S754_zero _ => d = 0
  | S754_finite s _ _ => d <> 0 /\ s = xorb (r <? 0)%float (d <? 0)
  | _ => False
  end /\
  (nonneg r -> 0 <= d -> nonneg (Cost r d)).
Proof.
  intros Hr Hd.
  assert (H : match Prim2SF (Cost r d) with
              | S754_zero _ => d = 0
              | S754_finite s _ _ => d <> 0 /\ s = xorb (r <? 0)%float (d <? 0)
              | _ => False
              end).
  { destruct (Z.eq_dec d 0) as [->|Hd0].
    - rewrite (Cost_zero_duration r Hr). reflexivity.
    - destruct (Cost_number r d Hr Hd Hd0) as (m & e & E & _). rewrite E.
      split; [exact Hd0 | reflexivity]. }
  split; [exact H|]. intros Hr0 Hd0.
  destruct (ordinary_exponent r Hr) as (s & mr & er & Er & _).
  apply nonneg_signed.
  destruct (Prim2SF (Cost r d)) as [s'|s'| |s' m' e']; try contradiction; [exact I|].
  destruct H as [_ ->]. rewrite (nonneg_not_below_zero r s mr er Er Hr0).
  destruct (Z.ltb_spec d 0); [lia | reflexivity].
Qed.

Lemma Cost_of_an_ordinary_rate_witness :
  nonneg (Cost 9.95 (30 * time.Minute)).
Proof.
  assert (H1 : ordinary 9.95) by (split; reflexivity).
  assert (H2 : time.in_int64 (30 * time.Minute)) by (split; discriminate).
  destruct (Cost_of_an_ordinary_rate 9.95 (30 * time.Minute) H1 H2) as [_ H].
  apply H; [reflexivity | discriminate].
Defined.

Lemma not_equal_to_itself (r : float) : (r =? r)%float = false -> Prim2SF r = S754_nan.
Proof.
  rewrite FloatAxioms.eqb_spec. intros H.
  destruct (Prim2SF r) as [s|s| |s m e] eqn:E; try reflexivity;
    rewrite SFeqb_refl in H by discriminate; discriminate.
Qed.

(** X3. What the display shows where there is no usable rate.  A rate of
    zero costs nothing over any duration: the running cost reads $0.00, or
    $-0.00 for a duration below zero.  A rate that is no number (one not
    equal to itself) is not rejected: the running cost reads $NaN for every
    duration. *)
Theorem DisplayCost_without_a_rate :
  (forall d : time.Duration,
      time.in_int64 d ->
      running_cost (Cost 0 d) =
        CR ++ "The total current cost of this meeting is $"
           ++ (if d <? 0 then "-0.00" else "0.00")) /\
  (forall (r : float) (d : time.Duration),
      (r =? r)%float = false ->
      running_cost (Cost r d) = CR ++ "The total current cost of this meeting is $NaN").
Proof.
  split.
  - intros d Hd. unfold running_cost, fmt.f2. rewrite (Cost_zero_rate d Hd).
    destruct (d <? 0); reflexivity.
  - intros r d Hr. unfold running_cost, fmt.f2.
    rewrite (Cost_nan r d (not_equal_to_itself r Hr)). reflexivity.
Qed.

Lemma DisplayCost_without_a_rate_witness :
  running_cost (Cost 0 (- time.Hour)) =
    CR ++ "The total current cost of this meeting is $-0.00" /\
  running_cost (Cost nan time.Hour) =
    CR ++ "The total current cost of this meeting is $NaN".
Proof.
  split.
  - apply (proj1 DisplayCost_without_a_rate (- time.Hour)). split; discriminate.
  - apply (proj2 DisplayCost_without_a_rate nan time.Hour). reflexivity.
Defined.

(** ** Construction *)

Lemma last_cons_default {A : Type} (l : list A) :
  forall x d : A, last (x :: l) d = last l x.
Proof.
  induction l as [|y l IH]; intros x d; [reflexivity|].
  change (last (x :: y :: l) d) with (last (y :: l) d).
  rewrite (IH y d), (IH y x). reflexivity.
Qed.

Lemma fold_options (os : list stream_option) :
  forall m : Meeting,
    let m' := fold_left (fun m opt => opt m) (map option_of os) m in
    r m' = last (inputs_of os) (r m) /\
    w m' = last (outputs_of os) (w m) /\
    f m' = f m /\
    Finished m' = Finished m.
Proof.
  induction os as [|o os IH]; intros m; [repeat split|].
  cbn [map fold_left]. destruct (IH (option_of o m)) as (Hr & Hw & Hf & HF).
  cbv zeta. rewrite Hr, Hw, Hf, HF.
  destruct o as [r'|w']; unfold inputs_of, outputs_of;
    cbn [option_of WithInput WithOutput with_r with_w r w f Finished flat_map app];
    rewrite last_cons_default; repeat split.
Qed.

(** X4. [NewMeeting] starts from the standard streams and the flags it is
    given, with [Finished] false, and applies its options in order: the
    reader is that of the last [WithInput], the writer that of the last
    [WithOutput], each the standard stream where no such option is given;
    the flags and [Finished] are touched by no option.  The meeting of the
    examples is the one built with [WithInput] and [WithOutput]. *)
Theorem NewMeeting_applies_options
    (Stdin : Reader) (Stdout : Writer) (flags : Flags) (os : list stream_option) :
  let m := NewMeeting_opts Stdin Stdout flags (map option_of os) in
  r m = last (inputs_of os) Stdin /\
  w m = last (outputs_of os) Stdout /\
  f m = flags /\
  Finished m = false /\
  (forall input : Reader,
      NewMeeting flags input =
        NewMeeting_opts Stdin Stdout flags [WithInput input; WithOutput []]).
Proof.
  cbv zeta. unfold NewMeeting_opts.
  destruct (fold_options os {| r := Stdin; w := Stdout; f := flags; Finished := false |})
    as (Hr & Hw & Hf & HF).
  repeat split; assumption.
Qed.

(** ** The ticking goroutine *)

Lemma Timer2_writes (events : list received) :
  forall m : Meeting,
    let m' := fst (Timer2 events m) in
    w m' = (w m ++ map (fun d => running_cost (Cost (HourlyRate (f m)) d))
                       (ticks_before_done events))%list /\
    r m' = r m /\ f m' = f m /\ Finished m' = Finished m /\
    snd (Timer2 events m) = existsb is_done events.
Proof.
  induction events as [|[|d] events IH]; intros m; cbn [Timer2 ticks_before_done map fst snd existsb is_done orb].
  - rewrite app_nil_r. repeat split.
  - rewrite app_nil_r. repeat split.
  - destruct (IH (Timer2_tick m d)) as (Hw & Hr & Hf & HF & Hd).
    cbv zeta in *. rewrite Hw, Hr, Hf, HF, Hd.
    unfold Timer2_tick, DisplayCost, fmt.Fprint. cbn [with_w w r f Finished].
    rewrite <- app_assoc. repeat split.
Qed.




(** ** The session driver *)

Lemma collect_rate_flags (ParseFloat : string -> float * option strconv.error)
    (unread : bufio.Scanner -> Reader) (fuel : nat) (m m' : Meeting) :
  collect_rate ParseFloat unread fuel m = Some m' ->
  MeetingDuration (f m') = MeetingDuration (f m) /\ Ticks (f m') = Ticks (f m).
Proof.
  unfold collect_rate, GetRate.
  destruct (HourlyRate (f m) =? 0)%float.
  - destruct (loop _ fuel _) as [st|]; [|discriminate].
    intros E. injection E as <-. split; reflexivity.
  - intros E. injection E as <-. split; reflexivity.
Qed.

Lemma run_session_interactive (m : Meeting) :
  MeetingDuration (f m) = 0 ->
  run_session m =
    if Ticks (f m) <=? 0 then
      {| meeting := with_w m (w m ++ [(banner ++ LF)%string])%list;
         started := []; awaited_Finished := false; ended := Panics |}
    else
      {| meeting := with_w m (w m ++ [(banner ++ LF)%string])%list;
         started := [go_Timer2 (Ticks (f m)); go_UserInputStrategy];
         awaited_Finished := true; ended := Spins |}.
Proof.
  intros Hd. unfold run_session, Timer. rewrite Hd. cbn [Z.eqb with_w f w].
  rewrite Hd. cbn [Z.eqb].
  destruct (Ticks (f m) <=? 0); reflexivity.
Qed.

(** X6. With no duration, once the rate is settled (it is given, or the
    scanner delivers a sentinel line), [RunCLI] writes the banner after
    what the rate collector wrote, starts [Timer2] with a ticker of the
    [Ticks] and [UserInputStrategy], and spins on [Finished]: it writes
    no cost and no final line feed itself, and it has not exited.  With
    [Ticks] of zero or less [time.NewTicker] panics after the banner, and
    no goroutine is started. *)
Theorem RunCLI_interactive
    (ParseFloat : string -> float * option strconv.error)
    (unread : bufio.Scanner -> Reader) (m : Meeting) :
  MeetingDuration (f m) = 0 ->
  (HourlyRate (f m) =? 0)%float = false \/
  existsb is_sentinel (bufio.Lines (r m)) = true ->
  exists fuel0 m',
    (forall fuel, (fuel0 <= fuel)%nat -> collect_rate ParseFloat unread fuel m = Some m') /\
    (0 < Ticks (f m) ->
     forall fuel, (fuel0 <= fuel)%nat ->
       RunCLI ParseFloat unread fuel m =
         Some {| meeting := with_w m' (w m' ++ [(banner ++ LF)%string])%list;
                 started := [go_Timer2 (Ticks (f m)); go_UserInputStrategy];
                 awaited_Finished := true;
                 ended := Spins |}) /\
    (Ticks (f m) <= 0 ->
     forall fuel, (fuel0 <= fuel)%nat ->
       RunCLI ParseFloat unread fuel m =
         Some {| meeting := with_w m' (w m' ++ [(banner ++ LF)%string])%list;
                 started := [];
                 awaited_Finished := false;
                 ended := Panics |}).
Proof.
  intros Hdur Hrate.
  destruct (collect_rate_settles ParseFloat unread m Hrate) as (fuel0 & m' & Hc & Hd & Ht).
  exists fuel0, m'. split; [exact Hc|].
  split; intros Hticks fuel Hfuel; unfold RunCLI; rewrite (Hc fuel Hfuel);
    rewrite run_session_interactive by congruence; rewrite Ht.
  - destruct (Z.leb_spec (Ticks (f m)) 0); [lia | reflexivity].
  - destruct (Z.leb_spec (Ticks (f m)) 0); [reflexivity | lia].
Qed.

Lemma RunCLI_interactive_witness :
  exists fuel0 m',
    (forall fuel, (fuel0 <= fuel)%nat ->
       collect_rate strconv.ParseFloat bufio.buf fuel
         (NewMeeting flags_interactive EmptyString) = Some m') /\
    (0 < Ticks (f (NewMeeting flags_interactive EmptyString)) ->
     forall fuel, (fuel0 <= fuel)%nat ->
       RunCLI strconv.ParseFloat bufio.buf fuel (NewMeeting flags_interactive EmptyString) =
         Some {| meeting := with_w m' (w m' ++ [(banner ++ LF)%string])%list;
                 started := [go_Timer2 (Ticks (f (NewMeeting flags_interactive EmptyString)));
                             go_UserInputStrategy];
                 awaited_Finished := true;
                 ended := Spins |}) /\
    (Ticks (f (NewMeeting flags_interactive EmptyString)) <= 0 ->
     forall fuel, (fuel0 <= fuel)%nat ->
       RunCLI strconv.ParseFloat bufio.buf fuel (NewMeeting flags_interactive EmptyString) =
         Some {| meeting := with_w m' (w m' ++ [(banner ++ LF)%string])%list;
                 started := [];
                 awaited_Finished := false;
                 ended := Panics |}).
Proof.
  apply (RunCLI_interactive strconv.ParseFloat bufio.buf
           (NewMeeting flags_interactive EmptyString)).
  - reflexivity.
  - left. reflexivity.
Defined.

Lemma run_session_reader (m : Meeting) (input : Reader) :
  run_session (with_r m input) =
    {| meeting := with_r (meeting (run_session m)) input;
       started := started (run_session m);
       awaited_Finished := awaited_Finished (run_session m);
       ended := ended (run_session m) |}.
Proof.
  unfold run_session, Timer. cbn [with_r with_w f w r Finished].
  destruct (MeetingDuration (f m) =? 0) eqn:Ed.
  - cbn [with_w f]. rewrite ?Ed. destruct (Ticks (f m) <=? 0); reflexivity.
  - destruct (time.Second <? Ticks (f m)); [|reflexivity].
    rewrite ?Ed. destruct (Ticks (f m) <=? 0); reflexivity.
Qed.

Lemma run_session_no_prompt (m : Meeting) :
  r (meeting (run_session m)) = r m /\
  retry_prompts (w (meeting (run_session m))) = retry_prompts (w m).
Proof.
  unfold run_session, Timer. destruct (MeetingDuration (f m) =? 0) eqn:Ed.
  - cbn [with_w f w]. rewrite ?Ed.
    destruct (Ticks (f m) <=? 0); cbn [meeting with_w w r]; unfold fmt.Fprintln;
      rewrite ?retry_prompts_app; cbn; split; try reflexivity; lia.
  - destruct (time.Second <? Ticks (f m)).
    + rewrite ?Ed. destruct (Ticks (f m) <=? 0); split; reflexivity.
    + cbn [meeting with_w w r]. unfold fmt.Fprintln, DisplayCost, fmt.Fprint.
      rewrite !retry_prompts_app. cbn. split; [reflexivity | lia].
Qed.

(** X7. A rate that is given (one that does not compare equal to zero: a
    negative rate and a NaN included) is kept: [RunCLI] does not call the
    rate collector, so it leaves the flags and the reader as they were and
    writes no retry prompt, and what it does depends neither on the
    parser, on the scanner nor on what the reader holds. *)
Theorem RunCLI_keeps_a_given_rate
    (ParseFloat ParseFloat' : string -> float * option strconv.error)
    (unread unread' : bufio.Scanner -> Reader)
    (fuel fuel' : nat) (m : Meeting) (input : Reader) :
  (HourlyRate (f m) =? 0)%float = false ->
  exists run,
    RunCLI ParseFloat unread fuel m = Some run /\
    f (meeting run) = f m /\
    r (meeting run) = r m /\
    retry_prompts (w (meeting run)) = retry_prompts (w m) /\
    RunCLI ParseFloat' unread' fuel' (with_r m input) =
      Some {| meeting := with_r (meeting run) input;
              started := started run;
              awaited_Finished := awaited_Finished run;
              ended := ended run |}.
Proof.
  intros Hrate. exists (run_session m).
  unfold RunCLI. rewrite !collect_rate_given by exact Hrate.
  split; [reflexivity|]. split; [apply run_session_flags|].
  destruct (run_session_no_prompt m) as [Hr Hp].
  split; [exact Hr|]. split; [exact Hp|].
  rewrite run_session_reader. reflexivity.
Qed.

Lemma RunCLI_keeps_a_given_rate_witness :
  exists run,
    RunCLI strconv.ParseFloat bufio.buf 0 (NewMeeting flags_ticks_500ms EmptyString) = Some run /\
    f (meeting run) = flags_ticks_500ms /\
    RunCLI strconv.ParseFloat bufio.buf 4
        (with_r (NewMeeting flags_ticks_500ms EmptyString) input_100_foo_50_q) =
      Some {| meeting := with_r (meeting run) input_100_foo_50_q;
              started := started run;
              awaited_Finished := awaited_Finished run;
              ended := ended run |}.
Proof.
  destruct (RunCLI_keeps_a_given_rate strconv.ParseFloat strconv.ParseFloat
              bufio.buf bufio.buf 0 4
              (NewMeeting flags_ticks_500ms EmptyString) input_100_foo_50_q)
    as (run & H1 & H2 & _ & _ & H3).
  - reflexivity.
  - exists run. split; [exact H1|]. split; [exact H2 | exact H3].
Defined.

(** X8. How a call of [RunCLI] that gets past the rate collector ends, by
    its flags alone.  With a duration: it returns where the [Ticks] are a
    second or less, and exits with code 0 where they are more.  Without a
    duration: it spins on [Finished] where the [Ticks] are positive, and
    panics where they are not.  It exits by itself with no other code, it
    waits for [Finished] only where it spins, and it starts no goroutine
    exactly where it returns or panics. *)
Theorem RunCLI_endings
    (ParseFloat : string -> float * option strconv.error)
    (unread : bufio.Scanner -> Reader)
    (fuel : nat) (m : Meeting) (run : Run) :
  RunCLI ParseFloat unread fuel m = Some run ->
  let duration := MeetingDuration (f m) in
  let ticks := Ticks (f m) in
  (ended run = Returns <-> duration <> 0 /\ ticks <= time.Second) /\
  (ended run = Exits 0 <-> duration <> 0 /\ time.Second < ticks) /\
  (ended run = Spins <-> duration = 0 /\ 0 < ticks) /\
  (ended run = Panics <-> duration = 0 /\ ticks <= 0) /\
  (forall code, ended run = Exits code -> code = 0) /\
  (awaited_Finished run = true <-> ended run = Spins) /\
  (started run = [] <-> ended run = Returns \/ ended run = Panics).
Proof.
  unfold RunCLI.
  destruct (collect_rate ParseFloat unread fuel m) as [m'|] eqn:Ec; [|discriminate].
  destruct (collect_rate_flags _ _ _ _ _ Ec) as [Hd Ht].
  intros E. injection E as <-. cbv zeta. rewrite <- Hd, <- Ht.
  unfold run_session, Timer. cbn [with_w f].
  assert (H1 : 0 < time.Second) by reflexivity.
  destruct (Z.eqb_spec (MeetingDuration (f m')) 0) as [H0|H0].
  - destruct (Z.leb_spec (Ticks (f m')) 0); cbn [ended awaited_Finished started];
      repeat split; try intros; try discriminate; try congruence; try lia;
      intuition (try discriminate; try congruence; try lia).
  - destruct (Z.ltb_spec time.Second (Ticks (f m'))).
    + destruct (Z.eqb_spec (MeetingDuration (f m')) 0); [contradiction|].
      destruct (Z.leb_spec (Ticks (f m')) 0); [lia|].
      cbn [ended awaited_Finished started];
      repeat split; try intros; try discriminate; try congruence; try lia;
      intuition (try discriminate; try congruence; try lia).
    + cbn [ended awaited_Finished started];
      repeat split; try intros; try discriminate; try congruence; try lia;
      intuition (try discriminate; try congruence; try lia).
Qed.

Lemma RunCLI_endings_witness :
  ended (run_session (NewMeeting flags_ticks_2s EmptyString)) = Exits 0 <->
  MeetingDuration flags_ticks_2s <> 0 /\ time.Second < Ticks flags_ticks_2s.
Proof.
  destruct (RunCLI_endings strconv.ParseFloat bufio.buf 0
              (NewMeeting flags_ticks_2s EmptyString)
              (run_session (NewMeeting flags_ticks_2s EmptyString)))
    as (_ & H & _).
  - reflexivity.
  - exact H.
Defined.

(** ** Line ends *)

Lemma dropCR_plain (line : string) :
  match last_char line with Some c => strconv.code c <> 13 | None => True end ->
  bufio.dropCR line = line.
Proof.
  induction line as [|c line IH]; [reflexivity|].
  destruct line as [|c' line].
  - cbn [last_char bufio.dropCR]. intros H.
    destruct (Z.eqb_spec (strconv.code c) 13); [contradiction | reflexivity].
  - intros H. change (bufio.dropCR (String c (String c' line)))
      with (String c (bufio.dropCR (String c' line))).
    rewrite IH; [reflexivity | exact H].
Qed.

Lemma dropCR_CR (line : string) : bufio.dropCR (line ++ CR) = line.
Proof.
  induction line as [|c line IH]; [reflexivity|].
  cbn [append]. destruct (line ++ CR) as [|a s] eqn:E.
  - destruct line; discriminate.
  - change (bufio.dropCR (String c (String a s)))
      with (String c (bufio.dropCR (String a s))).
    rewrite IH. reflexivity.
Qed.

Lemma lines_from_line (line rest : string) :
  has_LF line = false ->
  forall (taken : Z) (acc : string),
    taken + Z.of_nat (String.length line) < bufio.MaxScanTokenSize ->
    bufio.lines_from taken acc (line ++ LF ++ rest) =
      bufio.dropCR (acc ++ line) :: bufio.lines_from 0 EmptyString rest.
Proof.
  induction line as [|c line IH]; intros H taken acc Hlen.
  - rewrite append_nil_r. reflexivity.
  - cbn [has_LF] in H. apply orb_false_elim in H. destruct H as [Hc Hl].
    cbn [String.length] in Hlen.
    cbn [append bufio.lines_from]. rewrite Hc.
    destruct (Z.leb_spec bufio.MaxScanTokenSize (taken + 1)); [lia|].
    rewrite (IH Hl) by lia. rewrite append_assoc. reflexivity.
Qed.

Lemma length_app_CR (line : string) :
  String.length (line ++ CR) = S (String.length line).
Proof. induction line as [|c line IH]; [reflexivity|]. cbn [append String.length]. rewrite IH. reflexivity. Qed.

Lemma has_LF_CR (line : string) : has_LF line = false -> has_LF (line ++ CR) = false.
Proof.
  induction line as [|c line IH]; [reflexivity|].
  cbn [has_LF append]. intros H. apply orb_false_elim in H. destruct H as [-> Hl].
  apply IH, Hl.
Qed.

Lemma unlines_cons (eol line : string) (lines : list string) :
  unlines eol (line :: lines) = line ++ eol ++ unlines eol lines.
Proof.
  unfold unlines. fold written. cbn [map]. rewrite written_cons, append_assoc. reflexivity.
Qed.

Lemma Lines_unlines (lines : list string) :
  Forall plain_line lines ->
  bufio.Lines (unlines LF lines) = lines /\
  bufio.Lines (unlines (CR ++ LF) lines) = lines.
Proof.
  induction 1 as [|line lines (Hlf & Hcr & Hlen) Hrest [IH1 IH2]]; [split; reflexivity|].
  rewrite !unlines_cons. unfold bufio.Lines in *. split.
  - rewrite (lines_from_line line _ Hlf) by lia. cbn [append].
    rewrite dropCR_plain by exact Hcr. rewrite IH1. reflexivity.
  - rewrite append_assoc, <- (append_assoc line CR).
    rewrite (lines_from_line (line ++ CR) _ (has_LF_CR line Hlf))
      by (rewrite length_app_CR; lia).
    cbn [append]. rewrite dropCR_CR, IH2. reflexivity.
Qed.

(** ** What the rate collector reads *)

Lemma Scan_same_lines (sc1 sc2 : bufio.Scanner) :
  bufio.Texts sc1 = bufio.Texts sc2 ->
  bufio.Text (snd (bufio.Scan sc1)) = bufio.Text (snd (bufio.Scan sc2)) /\
  bufio.Texts (snd (bufio.Scan sc1)) = bufio.Texts (snd (bufio.Scan sc2)).
Proof.
  intros H. destruct (bufio.Texts sc1) as [|line rest] eqn:E1.
  - symmetry in H.
    destruct (Scan_end sc1 E1) as [T1 L1]. destruct (Scan_end sc2 H) as [T2 L2].
    rewrite T1, T2, L1, L2. split; reflexivity.
  - symmetry in H.
    destruct (Scan_next sc1 line rest E1) as [T1 L1].
    destruct (Scan_next sc2 line rest H) as [T2 L2].
    rewrite T1, T2, L1, L2. split; reflexivity.
Qed.

Lemma loop_same_lines (ParseFloat : string -> float * option strconv.error) (fuel : nat) :
  forall st1 st2 : collecting,
    same_progress st1 st2 ->
    match loop (GetRate_body ParseFloat) fuel st1,
          loop (GetRate_body ParseFloat) fuel st2 with
    | Some st1', Some st2' => same_progress st1' st2'
    | None, None => True
    | _, _ => False
    end.
Proof.
  induction fuel as [|fuel IH]; intros st1 st2 (HL & Ho & Hr); [exact I|].
  rewrite !loop_S. unfold GetRate_body. cbv zeta.
  destruct (Scan_same_lines _ _ HL) as [HT HL']. rewrite <- HT, <- Ho, <- Hr.
  destruct (is_sentinel _).
  - repeat split; assumption.
  - destruct (ParseFloat _) as [v [e|]]; apply IH; repeat split; assumption.
Qed.

Lemma GetRate_same_lines (ParseFloat : string -> float * option strconv.error)
    (unread1 unread2 : bufio.Scanner -> Reader) (fuel : nat) (m1 m2 : Meeting) :
  bufio.Lines (r m1) = bufio.Lines (r m2) -> w m1 = w m2 ->
  same_outcome (GetRate ParseFloat unread1 fuel m1) (GetRate ParseFloat unread2 fuel m2).
Proof.
  intros HL Hw. unfold GetRate.
  assert (H0 : same_progress (GetRate_init m1) (GetRate_init m2)).
  { unfold GetRate_init, same_progress. cbn [scanner out rate].
    rewrite !Texts_NewScanner, Hw. repeat split. exact HL. }
  pose proof (loop_same_lines ParseFloat fuel (GetRate_init m1) (GetRate_init m2) H0) as H.
  destruct (loop _ fuel (GetRate_init m1)) as [st1|],
           (loop _ fuel (GetRate_init m2)) as [st2|]; cbn [same_outcome]; try exact H.
  destruct H as (_ & Ho & Hr). cbn [with_r with_w w]. split; [exact Hr | exact Ho].
Qed.

(** X9. The rate collector sees its input only through the lines the
    scanner delivers: two readers with the same lines give the same rate
    and the same writes, or both never return.  So line ends do not
    matter: lines that hold no line feed, do not end in a carriage return
    and fit the buffer of the scanner are read back as they are whether
    each is followed by LF or by CR LF. *)
Theorem GetRate_reads_by_lines
    (ParseFloat : string -> float * option strconv.error)
    (unread : bufio.Scanner -> Reader) (fuel : nat) :
  (forall m1 m2 : Meeting,
      bufio.Lines (r m1) = bufio.Lines (r m2) -> w m1 = w m2 ->
      same_outcome (GetRate ParseFloat unread fuel m1) (GetRate ParseFloat unread fuel m2)) /\
  (forall (m : Meeting) (lines : list string),
      Forall plain_line lines ->
      bufio.Lines (unlines LF lines) = lines /\
      bufio.Lines (unlines (CR ++ LF) lines) = lines /\
      same_outcome (GetRate ParseFloat unread fuel (with_r m (unlines (CR ++ LF) lines)))
                   (GetRate ParseFloat unread fuel (with_r m (unlines LF lines)))).
Proof.
  split; [intros m1 m2; apply GetRate_same_lines|].
  intros m lines H. destruct (Lines_unlines lines H) as [H1 H2].
  split; [exact H1|]. split; [exact H2|].
  apply GetRate_same_lines; [|reflexivity]. cbn [with_r r]. congruence.
Qed.

Lemma GetRate_reads_by_lines_witness :
  same_outcome
    (GetRate strconv.ParseFloat bufio.buf 2
       (with_r (NewMeeting flags_no_rate EmptyString) (unlines (CR ++ LF) ["100"; "q"])))
    (GetRate strconv.ParseFloat bufio.buf 2
       (with_r (NewMeeting flags_no_rate EmptyString) (unlines LF ["100"; "q"]))).
Proof.
  assert (H : Forall plain_line ["100"; "q"]).
  { repeat constructor; discriminate. }
  destruct (proj2 (GetRate_reads_by_lines strconv.ParseFloat bufio.buf 2)
              (NewMeeting flags_no_rate EmptyString) ["100"; "q"] H) as (_ & _ & E).
  exact E.
Defined.

(** ** Command-line flags *)

Section FlagFacts.

Variable ParseFloat : string -> float * option strconv.error.
Variable ParseDuration : string -> time.Duration * bool.

Let formal := formal_flags ParseFloat ParseDuration.
Let Parse := flag.Parse Flags formal.

Lemma Parse_render (a : assignment) (rest : list string) (v : Flags) :
  Parse (render a ++ rest)%list v =
    if accepted ParseFloat ParseDuration a
    then Parse rest (assign ParseFloat ParseDuration v a)
    else inr (flag.invalid_value (text a) (flag_text (to a))).
Proof.
  destruct a as [[| |] [|] [|] value]; unfold accepted, assign, render, flag_head;
    cbn [to two_dashes inline text flag_text app append];
    unfold Parse, formal; cbn [flag.Parse]; cbn;
    try (destruct (ParseFloat value) as [x [e|]]; reflexivity);
    try (destruct (ParseDuration value) as [d [|]]; reflexivity).
Qed.

Lemma Parse_stops (arg : string) (rest : list string) (v : Flags) :
  stops arg = true -> exists left, Parse (arg :: rest) v = inl (v, left).
Proof.
  unfold stops, Parse. cbn [flag.Parse].
  destruct arg as [|c0 [|c1 tail]]; try (eexists; reflexivity).
  destruct (flag.is_dash c0); cbn [negb orb]; [|eexists; reflexivity].
  intros ->. eexists. reflexivity.
Qed.

Lemma Parse_assignments (asg : list assignment) :
  forall (rest : list string) (v : Flags),
    forallb (accepted ParseFloat ParseDuration) asg = true ->
    Parse (flat_map render asg ++ rest)%list v =
      Parse rest (fold_left (assign ParseFloat ParseDuration) asg v).
Proof.
  induction asg as [|a asg IH]; intros rest v H; [reflexivity|].
  cbn [forallb] in H. apply andb_prop in H. destruct H as [Ha H].
  cbn [flat_map fold_left]. rewrite <- app_assoc, Parse_render, Ha. apply IH, H.
Qed.

Lemma Parse_end (rest : list string) (v : Flags) :
  nothing_or_stop rest -> exists left, Parse rest v = inl (v, left).
Proof.
  destruct rest as [|arg rest]; [eexists; reflexivity | apply Parse_stops].
Qed.

Lemma fold_assign (asg : list assignment) :
  forall v : Flags,
    let v' := fold_left (assign ParseFloat ParseDuration) asg v in
    HourlyRate v' = last (rates_given ParseFloat asg) (HourlyRate v) /\
    MeetingDuration v' = last (durations_given ParseDuration asg) (MeetingDuration v) /\
    Ticks v' = last (ticks_given ParseDuration asg) (Ticks v).
Proof.
  induction asg as [|a asg IH]; intros v; [repeat split|].
  cbn [fold_left]. destruct (IH (assign ParseFloat ParseDuration v a)) as (Hr & Hd & Ht).
  cbv zeta. rewrite Hr, Hd, Ht.
  unfold rates_given, durations_given, ticks_given, assign. cbn [flat_map].
  destruct (to a); cbn [app HourlyRate MeetingDuration Ticks];
    rewrite ?last_cons_default; repeat split.
Qed.

Lemma cut_at_equals_none (name : string) :
  has_equals name = false -> flag.cut_at_equals name = (name, None).
Proof.
  induction name as [|c name IH]; [reflexivity|].
  cbn [has_equals flag.cut_at_equals]. intros H. apply orb_false_elim in H.
  destruct H as [-> H]. rewrite (IH H). reflexivity.
Qed.

Lemma Parse_not_defined (name : string) (rest : list string) (v : Flags) :
  flag.bad_name name = false ->
  has_equals name = false ->
  formal name = None ->
  (String.eqb name "help" || String.eqb name "h") = false ->
  Parse (("-" ++ name) :: rest) v = inr (flag.not_defined name).
Proof.
  intros Hbad Heq Hformal Hhelp. unfold Parse. cbn [flag.Parse append].
  destruct name as [|c1 tail]; [discriminate|].
  change (flag.is_dash "-") with true. cbn [negb].
  pose proof Hbad as Hbad'. cbn [flag.bad_name] in Hbad'.
  apply orb_false_elim in Hbad'. destruct Hbad' as [Hdash _].
  rewrite Hdash. cbn [andb]. rewrite Hbad.
  unfold flag.name_and_value. cbn [has_equals] in Heq.
  apply orb_false_elim in Heq. destruct Heq as [_ Heq].
  rewrite (cut_at_equals_none tail Heq), Hformal, Hhelp. reflexivity.
Qed.

End FlagFacts.

Lemma ParseFlags_folds
    (ParseFloat : string -> float * option strconv.error)
    (ParseDuration : string -> time.Duration * bool)
    (asg : list assignment) (rest : list string) :
  forallb (accepted ParseFloat ParseDuration) asg = true ->
  nothing_or_stop rest ->
  ParseFlags ParseFloat ParseDuration (flat_map render asg ++ rest)%list =
    (fold_left (assign ParseFloat ParseDuration) asg flag_defaults, None).
Proof.
  intros Hacc Hrest. unfold ParseFlags.
  rewrite Parse_assignments by exact Hacc.
  destruct (Parse_end ParseFloat ParseDuration rest
              (fold_left (assign ParseFloat ParseDuration) asg flag_defaults) Hrest)
    as (left & E).
  rewrite E. reflexivity.
Qed.

(** X10. [ParseFlags] reads assignments to its three flags, each with one
    dash or two and with its value after an equals sign or as the next
    argument, up to the end of the arguments or the first argument that is
    no flag.  Where every value parses it returns no error, and each flag
    has the value of its last assignment, or its default where it has
    none: a rate of 0, a duration of 0, and [Ticks] of one nanosecond. *)
Theorem ParseFlags_takes_each_last_value
    (ParseFloat : string -> float * option strconv.error)
    (ParseDuration : string -> time.Duration * bool)
    (asg : list assignment) (rest : list string) :
  forallb (accepted ParseFloat ParseDuration) asg = true ->
  nothing_or_stop rest ->
  exists flags,
    ParseFlags ParseFloat ParseDuration (flat_map render asg ++ rest)%list = (flags, None) /\
    HourlyRate flags = last (rates_given ParseFloat asg) 0%float /\
    MeetingDuration flags = last (durations_given ParseDuration asg) 0 /\
    Ticks flags = last (ticks_given ParseDuration asg) time.Nanosecond.
Proof.
  intros Hacc Hrest. eexists. split; [apply ParseFlags_folds; assumption|].
  apply (fold_assign ParseFloat ParseDuration asg flag_defaults).
Qed.

Lemma ParseFlags_takes_each_last_value_witness :
  exists flags,
    ParseFlags strconv.ParseFloat duration.ParseDuration
      ["-rate=100"; "--duration"; "1h"; "-rate"; "9.95"; "notes"; "-ticks=2s"] = (flags, None) /\
    HourlyRate flags = 9.95%float /\
    MeetingDuration flags = time.Hour /\
    Ticks flags = time.Nanosecond.
Proof.
  apply (ParseFlags_takes_each_last_value strconv.ParseFloat duration.ParseDuration
           rate_100_duration_1h_rate_9_95 ["notes"; "-ticks=2s"]).
  - vm_compute. reflexivity.
  - reflexivity.
Defined.

(** X11. After assignments that parse, [ParseFlags] returns the zero
    [Flags] (its [Ticks] 0, not the default) with the error of the flag
    set: for a value that does not parse, for a flag that is the last
    argument and has no value, for a name that is no flag of the set, and
    for [-h] and [-help]. *)
Theorem ParseFlags_errors
    (ParseFloat : string -> float * option strconv.error)
    (ParseDuration : string -> time.Duration * bool)
    (asg : list assignment) (rest : list string) :
  forallb (accepted ParseFloat ParseDuration) asg = true ->
  let parse (more : list string) :=
    ParseFlags ParseFloat ParseDuration (flat_map render asg ++ more)%list in
  (forall a : assignment,
      accepted ParseFloat ParseDuration a = false ->
      parse (render a ++ rest)%list =
        (zero_Flags, Some (flag.invalid_value (text a) (flag_text (to a))))) /\
  (forall a : assignment,
      parse [flag_head a] = (zero_Flags, Some (flag.needs_an_argument (flag_text (to a))))) /\
  (forall name : string,
      flag.bad_name name = false ->
      has_equals name = false ->
      formal_flags ParseFloat ParseDuration name = None ->
      (String.eqb name "help" || String.eqb name "h") = false ->
      parse (("-" ++ name) :: rest) = (zero_Flags, Some (flag.not_defined name))) /\
  parse ("-h" :: rest) = (zero_Flags, Some flag.ErrHelp) /\
  parse ("-help" :: rest) = (zero_Flags, Some flag.ErrHelp).
Proof.
  intros Hacc. cbv zeta. unfold ParseFlags.
  repeat split; intros; rewrite Parse_assignments by exact Hacc.
  - rewrite Parse_render, H. reflexivity.
  - destruct a as [[| |] [|] i value]; reflexivity.
  - rewrite Parse_not_defined by assumption. reflexivity.
  - reflexivity.
  - reflexivity.
Qed.

Lemma ParseFlags_errors_witness :
  ParseFlags strconv.ParseFloat duration.ParseDuration ["-rate=100"; "-duration=90"] =
    (zero_Flags, Some (flag.invalid_value "90" "duration")) /\
  ParseFlags strconv.ParseFloat duration.ParseDuration ["-rate=100"; "--ticks"] =
    (zero_Flags, Some (flag.needs_an_argument "ticks")).
Proof.
  destruct (ParseFlags_errors strconv.ParseFloat duration.ParseDuration
              [ {| to := rate_flag; two_dashes := false; inline := true; text := "100" |} ] [])
    as (H1 & H2 & _).
  - vm_compute. reflexivity.
  - split.
    + apply (H1 {| to := duration_flag; two_dashes := false; inline := true; text := "90" |}).
      vm_compute. reflexivity.
    + apply (H2 {| to := ticks_flag; two_dashes := true; inline := false; text := EmptyString |}).
Defined.



(** ** Scanning tokens *)

Lemma drop_length (n : nat) :
  forall p : string, String.length (utf8.drop n p) = (String.length p - n)%nat.
Proof.
  induction n as [|n IH]; intros [|c p]; cbn [utf8.drop String.length]; try lia.
  rewrite IH. lia.
Qed.

Lemma DecodeRune_size (p : string) :
  p <> EmptyString ->
  (1 <= snd (utf8.DecodeRune p) <= String.length p)%nat.
Proof.
  destruct p as [|c0 p1]; [contradiction|]. intros _.
  unfold utf8.DecodeRune.
  destruct (strconv.code c0 <? 128); [cbn; lia|].
  destruct (utf8.first (strconv.code c0)) as [[[sz lo] hi]|]; [|cbn; lia].
  destruct (Nat.ltb_spec (String.length (String c0 p1)) sz) as [|Hlen]; [cbn; lia|].
  destruct p1 as [|c1 p2]; [cbn; lia|].
  destruct (_ || _); [cbn; lia|].
  destruct (Nat.leb_spec sz 2); [cbn; lia|].
  destruct p2 as [|c2 p3]; [cbn; lia|].
  destruct (negb _); [cbn; lia|].
  destruct (Nat.leb_spec sz 3); [cbn; lia|].
  destruct p3 as [|c3 p4]; [cbn; lia|].
  destruct (negb _); cbn; lia.
Qed.

Lemma drop_rune_shorter (s : string) :
  s <> EmptyString ->
  (String.length (utf8.drop (snd (utf8.DecodeRune s)) s) < String.length s)%nat.
Proof.
  intros H. pose proof (DecodeRune_size s H). rewrite drop_length.
  destruct s; [contradiction | cbn [String.length] in *; lia].
Qed.

(** After [SkipSpace] the input is at its end or at a rune that is no
    space, and no longer than before. *)
Lemma SkipSpace_result (fuel : nat) :
  forall s : string,
    (String.length s <= fuel)%nat ->
    let s' := scan.SkipSpace fuel s in
    (String.length s' <= String.length s)%nat /\
    (s' = EmptyString \/ scan.isSpace (fst (utf8.DecodeRune s')) = false).
Proof.
  induction fuel as [|fuel IH]; intros s Hlen; cbv zeta.
  - destruct s; [|cbn in Hlen; lia]. cbn. split; [lia | left; reflexivity].
  - cbn [scan.SkipSpace]. destruct s as [|c s]; [cbn; split; [lia | left; reflexivity]|].
    pose proof (drop_rune_shorter (String c s) ltac:(discriminate)) as Hd.
    destruct (utf8.DecodeRune (String c s)) as [r size] eqn:E. cbn [snd] in Hd.
    destruct (scan.isSpace r) eqn:Er.
    + cbn [String.length] in *.
      destruct (IH (utf8.drop size (String c s)) ltac:(lia)) as [H1 H2]. split; [lia | exact H2].
    + split; [lia|]. right. rewrite E. exact Er.
Qed.

Lemma token_rest (unreads : bool) (fuel : nat) :
  forall s buf : string,
    (String.length (snd (scan.token unreads fuel s buf)) <= String.length s)%nat.
Proof.
  induction fuel as [|fuel IH]; intros s buf; cbn [scan.token]; [cbn; lia|].
  destruct s as [|c s]; [cbn; lia|].
  pose proof (drop_rune_shorter (String c s) ltac:(discriminate)) as Hd.
  destruct (utf8.DecodeRune (String c s)) as [r size]. cbn [snd] in Hd.
  destruct (scan.isSpace r).
  - cbn [snd]. destruct unreads; lia.
  - specialize (IH (utf8.drop size (String c s)) (utf8.AppendRune buf r)). lia.
Qed.

(** [Fscan] stores a token and leaves a shorter input, or stores nothing
    and leaves none. *)
Lemma Fscan_cases (unreads : bool) (r0 : Reader) (v : string) :
  (exists r' t,
      (forall v', scan.Fscan unreads r0 v' = (r', t, true)) /\
      (String.length r' < String.length r0)%nat) \/
  (forall v', scan.Fscan unreads r0 v' = (EmptyString, v', false)).
Proof.
  unfold scan.Fscan.
  destruct (SkipSpace_result (String.length r0) r0 (Nat.le_refl _)) as [Hlen Hhead].
  destruct (scan.SkipSpace (String.length r0) r0) as [|c s] eqn:E; [right; reflexivity|].
  left. destruct Hhead as [|Hhead]; [discriminate|].
  change (String.length (String c s)) with (Datatypes.S (String.length s)).
  cbn [scan.token].
  pose proof (drop_rune_shorter (String c s) ltac:(discriminate)) as Hd.
  destruct (utf8.DecodeRune (String c s)) as [rn size]. cbn [fst snd] in *.
  rewrite Hhead.
  pose proof (token_rest unreads (String.length s) (utf8.drop size (String c s))
                (utf8.AppendRune EmptyString rn)) as Hrest.
  destruct (scan.token unreads (String.length s) _ _) as [t rest]. cbn [snd] in Hrest.
  exists rest, t. split; [reflexivity | lia].
Qed.

Lemma tokens_fuel (unreads : bool) (n : nat) :
  forall (r0 : Reader) (fuel1 fuel2 : nat),
    (String.length r0 <= n)%nat ->
    (String.length r0 < fuel1)%nat -> (String.length r0 < fuel2)%nat ->
    scan.tokens unreads fuel1 r0 = scan.tokens unreads fuel2 r0.
Proof.
  induction n as [|n IH]; intros r0 fuel1 fuel2 Hn H1 H2;
    destruct fuel1 as [|fuel1]; try lia; destruct fuel2 as [|fuel2]; try lia;
    cbn [scan.tokens];
    destruct (Fscan_cases unreads r0 EmptyString) as [(r' & t & E & Hlt)|E];
    rewrite E; try reflexivity; try lia.
  f_equal. apply IH; lia.
Qed.

Lemma Tokens_next (unreads : bool) (r0 : Reader) (t : string) (ts : list string) :
  scan.Tokens unreads r0 = t :: ts ->
  exists r',
    (forall v, scan.Fscan unreads r0 v = (r', t, true)) /\
    scan.Tokens unreads r' = ts.
Proof.
  intros H. unfold scan.Tokens in H. cbn [scan.tokens] in H.
  destruct (Fscan_cases unreads r0 EmptyString) as [(r' & t' & E & Hlt)|E]; rewrite E in H;
    [|discriminate].
  injection H as -> <-. exists r'. split; [exact E|].
  unfold scan.Tokens. apply (tokens_fuel unreads (String.length r')); lia.
Qed.

Lemma Tokens_end (unreads : bool) (r0 : Reader) :
  scan.Tokens unreads r0 = [] ->
  forall v, scan.Fscan unreads r0 v = (EmptyString, v, false).
Proof.
  unfold scan.Tokens. cbn [scan.tokens].
  destruct (Fscan_cases unreads r0 EmptyString) as [(r' & t' & E & Hlt)|E]; rewrite E;
    [discriminate | intros _; exact E].
Qed.

(** ** The interactive termination strategy *)

Section ListeningFacts.

Variable unreads : bool.

Let body := UserInputStrategy_body unreads.

Lemma listening_until_sentinel (pre : list string) :
  forall (st : listening) (s : string) (post : list string),
    scan.Tokens unreads (pending st) = (pre ++ s :: post)%list ->
    Forall not_sentinel pre ->
    is_sentinel s = true ->
    exists st',
      loop body (Datatypes.S (List.length pre)) st = Some st' /\
      userInput st' = s /\
      scan.Tokens unreads (pending st') = post.
Proof.
  induction pre as [|t pre IH]; intros st s post HT Hpre Hs.
  - destruct (Tokens_next unreads _ _ _ HT) as (r' & E & HT').
    cbn [List.length]. rewrite loop_S. unfold body, UserInputStrategy_body.
    rewrite E, Hs. eexists. split; [reflexivity|]. split; [reflexivity | exact HT'].
  - inversion Hpre as [|? ? Ht Hpre']; subst.
    destruct (Tokens_next unreads _ _ _ HT) as (r' & E & HT').
    cbn [List.length]. rewrite loop_S. unfold body at 1, UserInputStrategy_body.
    rewrite E. unfold not_sentinel in Ht. rewrite Ht.
    apply (IH {| pending := r'; userInput := t |} s post HT' Hpre' Hs).
Qed.

Lemma listening_without_sentinel (fuel : nat) :
  forall st : listening,
    Forall not_sentinel (scan.Tokens unreads (pending st)) ->
    not_sentinel (userInput st) ->
    loop body fuel st = None.
Proof.
  induction fuel as [|fuel IH]; intros st HT Hv; [reflexivity|].
  rewrite loop_S. unfold body at 1, UserInputStrategy_body.
  destruct (scan.Tokens unreads (pending st)) as [|t ts] eqn:E.
  - rewrite (Tokens_end unreads _ E). unfold not_sentinel in Hv. rewrite Hv.
    apply IH; [|exact Hv]. cbn [pending]. constructor.
  - inversion HT as [|? ? Ht Hts]; subst.
    destruct (Tokens_next unreads _ _ _ E) as (r' & E' & HT').
    rewrite E'. unfold not_sentinel in Ht. rewrite Ht.
    apply IH; cbn [pending userInput]; [rewrite HT'; exact Hts | exact Ht].
Qed.

End ListeningFacts.

(** X13. [UserInputStrategy] reads the reader token by token, white space
    and line ends alike between them, and ends at the first token that is
    [q] or [Q]: it then sends on [done], stops the ticker and sets
    [Finished], in this order, having written nothing and left the flags
    as they were; the tokens after the sentinel are still to be read. *)
Theorem UserInputStrategy_ends_at_sentinel
    (unreads : bool) (m : Meeting) (pre post : list string) (s : string) (fuel : nat) :
  scan.Tokens unreads (r m) = (pre ++ s :: post)%list ->
  Forall not_sentinel pre ->
  is_sentinel s = true ->
  (List.length pre < fuel)%nat ->
  exists m',
    UserInputStrategy unreads fuel m = Some (m', [send_done; stop_ticker; set_Finished]) /\
    Finished m' = true /\
    w m' = w m /\
    f m' = f m /\
    scan.Tokens unreads (r m') = post.
Proof.
  intros HT Hpre Hs Hfuel.
  destruct (listening_until_sentinel unreads pre
              {| pending := r m; userInput := EmptyString |} s post HT Hpre Hs)
    as (st & Hloop & _ & Hpost).
  unfold UserInputStrategy.
  replace fuel with (Datatypes.S (List.length pre) + (fuel - Datatypes.S (List.length pre)))%nat
    by lia.
  rewrite (loop_more_fuel _ _ _ _ _ Hloop).
  eexists. split; [reflexivity|]. repeat split. exact Hpost.
Qed.

Lemma UserInputStrategy_ends_at_sentinel_witness :
  exists m',
    UserInputStrategy true 2 (NewMeeting flags_interactive ("100 q" ++ LF ++ "more")) =
      Some (m', [send_done; stop_ticker; set_Finished]) /\
    Finished m' = true /\
    w m' = w (NewMeeting flags_interactive ("100 q" ++ LF ++ "more")) /\
    f m' = f (NewMeeting flags_interactive ("100 q" ++ LF ++ "more")) /\
    scan.Tokens true (r m') = ["more"].
Proof.
  apply (UserInputStrategy_ends_at_sentinel true
           (NewMeeting flags_interactive ("100 q" ++ LF ++ "more")) ["100"] ["more"] "q" 2).
  - reflexivity.
  - repeat constructor.
  - reflexivity.
  - simpl. lia.
Defined.

(** X14. Where no token of the reader is [q] or [Q], [UserInputStrategy]
    never leaves its loop, also once the reader is at its end: [Fscan]
    then stores nothing, its error is dropped, and the loop goes round
    again.  So it never sends on [done] and never sets [Finished]. *)
Theorem UserInputStrategy_without_sentinel_never_ends
    (unreads : bool) (m : Meeting) :
  Forall not_sentinel (scan.Tokens unreads (r m)) ->
  forall fuel : nat, UserInputStrategy unreads fuel m = None.
Proof.
  intros H fuel. unfold UserInputStrategy.
  rewrite (listening_without_sentinel unreads fuel); [reflexivity | exact H | reflexivity].
Qed.

Lemma UserInputStrategy_without_sentinel_never_ends_witness :
  UserInputStrategy false 7 (NewMeeting flags_interactive ("quit" ++ LF ++ "Q." ++ LF)) = None.
Proof.
  apply (UserInputStrategy_without_sentinel_never_ends false
           (NewMeeting flags_interactive ("quit" ++ LF ++ "Q." ++ LF))).
  repeat constructor.
Defined.


(** ** The interactive session as a whole *)

Lemma ticks_before_done_ticks (ticks : list time.Duration) :
  ticks_before_done (map from_ticker ticks ++ [from_done]) = ticks.
Proof.
  induction ticks as [|d ticks IH]; [reflexivity|].
  cbn [map app ticks_before_done]. rewrite IH. reflexivity.
Qed.

(** X15. The interactive session from the moment [RunCLI] spins.  Where
    the reader holds a token [q] or [Q], the session ends: after the
    running costs of the ticks [Timer2] received, one for each and in
    order, [RunCLI] writes a line feed and exits with code 0, with
    [Finished] set and the flags as they were; the tokens after the
    sentinel are left unread.  Where the reader holds no such token the
    session never ends, whatever the ticks. *)
Theorem interactive_session_ends_at_sentinel
    (unreads : bool) (ticks : list time.Duration) (m : Meeting) :
  (forall (pre post : list string) (s : string) (fuel : nat),
      scan.Tokens unreads (r m) = (pre ++ s :: post)%list ->
      Forall not_sentinel pre ->
      is_sentinel s = true ->
      (List.length pre < fuel)%nat ->
      exists run,
        interactive_session unreads ticks fuel m = Some run /\
        ended run = Exits 0 /\
        w (meeting run) =
          (w m ++ map (fun d => running_cost (Cost (HourlyRate (f m)) d)) ticks ++ [LF])%list /\
        Finished (meeting run) = true /\
        f (meeting run) = f m /\
        scan.Tokens unreads (r (meeting run)) = post) /\
  (Forall not_sentinel (scan.Tokens unreads (r m)) ->
   forall fuel : nat, interactive_session unreads ticks fuel m = None).
Proof.
  split.
  - intros pre post s fuel HT Hpre Hs Hfuel.
    destruct (listening_until_sentinel unreads pre
                {| pending := r m; userInput := EmptyString |} s post HT Hpre Hs)
      as (st & Hloop & _ & Hpost).
    unfold interactive_session, UserInputStrategy.
    replace fuel with (Datatypes.S (List.length pre) + (fuel - Datatypes.S (List.length pre)))%nat
      by lia.
    rewrite (loop_more_fuel _ _ _ _ _ Hloop).
    set (m1 := {| r := pending st; w := w m; f := f m; Finished := true |}).
    destruct (Timer2_writes (map from_ticker ticks ++ [from_done]) m1)
      as (Hw & Hr & Hf & HF & _).
    cbv zeta in Hw, Hr, Hf, HF.
    destruct (Timer2 (map from_ticker ticks ++ [from_done]) m1) as [m2 returned].
    cbn [fst] in Hw, Hr, Hf, HF. rewrite ticks_before_done_ticks in Hw.
    eexists. split; [reflexivity|].
    unfold after_Finished, fmt.Fprintln. cbn [ended meeting with_w w r f Finished append].
    rewrite Hw, Hr, Hf, HF. cbn [m1 w r f Finished].
    rewrite <- app_assoc. repeat split. exact Hpost.
  - intros H fuel. unfold interactive_session, UserInputStrategy.
    rewrite (listening_without_sentinel unreads fuel); [reflexivity | exact H | reflexivity].
Qed.

Lemma interactive_session_ends_at_sentinel_witness :
  exists run,
    interactive_session true [time.Second; 2 * time.Second] 2
      (meeting (run_session (NewMeeting flags_interactive ("100 q" ++ LF ++ "more")))) =
      Some run /\
    ended run = Exits 0 /\
    w (meeting run) = [(banner ++ LF)%string; running_cost 1; running_cost 2; LF].
Proof.
  destruct (proj1 (interactive_session_ends_at_sentinel true [time.Second; 2 * time.Second]
                     (meeting (run_session (NewMeeting flags_interactive
                                              ("100 q" ++ LF ++ "more")))))
              ["100"] ["more"] "q" 2%nat)
    as (run & H1 & H2 & H3 & _).
  - reflexivity.
  - repeat constructor.
  - reflexivity.
  - simpl. lia.
  - exists run. split; [exact H1|]. split; [exact H2 | exact H3].
Defined.

(** ** A reader that cannot take a rune back *)

Lemma SkipSpace_fuel (n : nat) :
  forall (s : string) (fuel1 fuel2 : nat),
    (String.length s <= n)%nat ->
    (String.length s <= fuel1)%nat -> (String.length s <= fuel2)%nat ->
    scan.SkipSpace fuel1 s = scan.SkipSpace fuel2 s.
Proof.
  induction n as [|n IH]; intros s fuel1 fuel2 Hn H1 H2.
  - destruct s; [|cbn in Hn; lia]. destruct fuel1, fuel2; reflexivity.
  - destruct s as [|c s]; [destruct fuel1, fuel2; reflexivity|].
    destruct fuel1 as [|fuel1]; [cbn in H1; lia|].
    destruct fuel2 as [|fuel2]; [cbn in H2; lia|].
    cbn [scan.SkipSpace].
    pose proof (drop_rune_shorter (String c s) ltac:(discriminate)) as Hd.
    destruct (utf8.DecodeRune (String c s)) as [rn size]. cbn [snd] in Hd.
    destruct (scan.isSpace rn); [|reflexivity].
    cbn [String.length] in *. apply IH; lia.
Qed.

Lemma Fscan_same_after_space (unreads : bool) (r1 r2 : Reader) (v : string) :
  same_after_space r1 r2 -> scan.Fscan unreads r1 v = scan.Fscan unreads r2 v.
Proof. unfold same_after_space, scan.Fscan. intros ->. reflexivity. Qed.

Lemma token_unreads (fuel : nat) :
  forall s buf : string,
    fst (scan.token true fuel s buf) = fst (scan.token false fuel s buf) /\
    same_after_space (snd (scan.token true fuel s buf)) (snd (scan.token false fuel s buf)).
Proof.
  induction fuel as [|fuel IH]; intros s buf; cbn [scan.token]; [split; reflexivity|].
  destruct s as [|c s]; [split; reflexivity|].
  pose proof (drop_rune_shorter (String c s) ltac:(discriminate)) as Hd.
  destruct (utf8.DecodeRune (String c s)) as [rn size] eqn:E. cbn [snd] in Hd.
  destruct (scan.isSpace rn) eqn:Es; [|apply IH].
  cbn [fst snd]. split; [reflexivity|].
  unfold same_after_space.
  change (String.length (String c s)) with (Datatypes.S (String.length s)).
  cbn [scan.SkipSpace]. rewrite E, Es.
  cbn [String.length] in Hd.
  apply (SkipSpace_fuel (String.length s)); lia.
Qed.

Lemma Fscan_unreads (r1 r2 : Reader) (v : string) :
  same_after_space r1 r2 ->
  let '(r1', v1, stored1) := scan.Fscan true r1 v in
  let '(r2', v2, stored2) := scan.Fscan false r2 v in
  v1 = v2 /\ stored1 = stored2 /\ same_after_space r1' r2'.
Proof.
  intros H. rewrite <- (Fscan_same_after_space false r1 r2 v H).
  unfold scan.Fscan.
  destruct (scan.SkipSpace (String.length r1) r1) as [|c s]; [repeat split|].
  pose proof (token_unreads (String.length (String c s)) (String c s) EmptyString) as [Ht Hr].
  destruct (scan.token true _ _ _) as [t1 rest1], (scan.token false _ _ _) as [t2 rest2].
  cbn [fst snd] in Ht, Hr. repeat split; assumption.
Qed.

Lemma tokens_unreads (fuel : nat) :
  forall r1 r2 : Reader,
    same_after_space r1 r2 -> scan.tokens true fuel r1 = scan.tokens false fuel r2.
Proof.
  induction fuel as [|fuel IH]; intros r1 r2 H; [reflexivity|].
  cbn [scan.tokens]. pose proof (Fscan_unreads r1 r2 EmptyString H) as HF.
  destruct (scan.Fscan true r1 EmptyString) as [[r1' v1] stored1],
           (scan.Fscan false r2 EmptyString) as [[r2' v2] stored2].
  destruct HF as (-> & -> & Hr). destruct stored2; [|reflexivity].
  f_equal. apply IH, Hr.
Qed.

Lemma listening_unreads (fuel : nat) :
  forall st1 st2 : listening,
    same_after_space (pending st1) (pending st2) ->
    userInput st1 = userInput st2 ->
    match loop (UserInputStrategy_body true) fuel st1,
          loop (UserInputStrategy_body false) fuel st2 with
    | Some st1', Some st2' =>
        same_after_space (pending st1') (pending st2') /\ userInput st1' = userInput st2'
    | None, None => True
    | _, _ => False
    end.
Proof.
  induction fuel as [|fuel IH]; intros st1 st2 Hp Hv; [exact I|].
  rewrite !loop_S. unfold UserInputStrategy_body. rewrite <- Hv.
  pose proof (Fscan_unreads (pending st1) (pending st2) (userInput st1) Hp) as HF.
  destruct (scan.Fscan true (pending st1) (userInput st1)) as [[r1' v1] stored1],
           (scan.Fscan false (pending st2) (userInput st1)) as [[r2' v2] stored2].
  destruct HF as (-> & _ & Hr).
  destruct (is_sentinel v2).
  - split; [exact Hr | reflexivity].
  - apply IH; [exact Hr | reflexivity].
Qed.

Lemma same_after_space_refl (r0 : Reader) : same_after_space r0 r0.
Proof. reflexivity. Qed.

Lemma Tokens_same_after_space (unreads : bool) (r1 r2 : Reader) :
  same_after_space r1 r2 -> scan.Tokens unreads r1 = scan.Tokens unreads r2.
Proof.
  intros H. unfold scan.Tokens.
  change (scan.tokens unreads (Datatypes.S (String.length r1)) r1)
    with (match scan.Fscan unreads r1 EmptyString with
          | (r', t, true) => t :: scan.tokens unreads (String.length r1) r'
          | (_, _, false) => []
          end).
  change (scan.tokens unreads (Datatypes.S (String.length r2)) r2)
    with (match scan.Fscan unreads r2 EmptyString with
          | (r', t, true) => t :: scan.tokens unreads (String.length r2) r'
          | (_, _, false) => []
          end).
  rewrite <- (Fscan_same_after_space unreads r1 r2 EmptyString H).
  destruct (Fscan_cases unreads r1 EmptyString) as [(r' & t & E & Hlt)|E]; rewrite E;
    [|reflexivity].
  f_equal.
  assert (Hlt2 : (String.length r' < String.length r2)%nat).
  { destruct (Fscan_cases unreads r2 EmptyString) as [(r'' & t' & E2 & Hlt2)|E2].
    - specialize (E2 EmptyString).
      rewrite <- (Fscan_same_after_space unreads r1 r2 EmptyString H), E in E2.
      injection E2 as -> _. exact Hlt2.
    - specialize (E2 EmptyString).
      rewrite <- (Fscan_same_after_space unreads r1 r2 EmptyString H), E in E2.
      discriminate. }
  destruct (Nat.eq_dec (String.length r1) 0) as [Z1|N1]; [lia|].
  destruct (Nat.eq_dec (String.length r2) 0) as [Z2|N2]; [lia|].
  apply (tokens_fuel unreads (String.length r')); lia.
Qed.

(** X16. The interactive strategy does not depend on whether the reader
    can take a rune back.  [Fscan] loses the rune after a token where the
    reader has no [UnreadRune], the standard input for one, but that rune
    is white space: the tokens are the same, and [UserInputStrategy] ends
    after the same number of passes or never, with the same tokens still
    to be read. *)
Theorem UserInputStrategy_whatever_the_reader_unreads (fuel : nat) (m : Meeting) :
  scan.Tokens false (r m) = scan.Tokens true (r m) /\
  match UserInputStrategy true fuel m, UserInputStrategy false fuel m with
  | Some (m1, did1), Some (m2, did2) =>
      did1 = did2 /\ w m1 = w m2 /\ f m1 = f m2 /\ Finished m1 = Finished m2 /\
      scan.Tokens true (r m1) = scan.Tokens false (r m2)
  | None, None => True
  | _, _ => False
  end.
Proof.
  split.
  - unfold scan.Tokens. symmetry. apply tokens_unreads. reflexivity.
  - unfold UserInputStrategy.
    pose proof (listening_unreads fuel {| pending := r m; userInput := EmptyString |}
                  {| pending := r m; userInput := EmptyString |}
                  (same_after_space_refl _) eq_refl) as H.
    destruct (loop (UserInputStrategy_body true) fuel _) as [st1|],
             (loop (UserInputStrategy_body false) fuel _) as [st2|]; try exact H.
    destruct H as [Hp _]. cbn [r w f Finished]. repeat split.
    rewrite (Tokens_same_after_space true _ _ Hp).
    unfold scan.Tokens. apply tokens_unreads. reflexivity.
Qed.
